(** * go-stdx/trash: a shallow embedding of the trash engine

    The development follows the Go sources [trash.go] and [trash_linux.go]:
    first the pieces of the Go standard library the package calls
    ([strings], [net/url], [time], [path/filepath], [os]), then the
    package's own functions under their Go names, then the properties. *)

From Stdlib Require Import ZArith Ascii String List Lia Bool.
From stdpp Require Import gmap strings list.

Local Open Scope Z_scope.

(** ** Package [strings] *)

Module Strings.

(** Go strings are byte sequences; [string] is a sequence of [ascii],
    one per byte. *)

Definition HasPrefix (s prefix : string) : bool := String.prefix prefix s.

Fixpoint drop (n : nat) (s : string) : string :=
  match n, s with
  | O, _ => s
  | S n', String _ s' => drop n' s'
  | S _, EmptyString => EmptyString
  end.

Fixpoint take (n : nat) (s : string) : string :=
  match n, s with
  | O, _ => EmptyString
  | S n', String c s' => String c (take n' s')
  | S _, EmptyString => EmptyString
  end.

Definition TrimPrefix (s prefix : string) : string :=
  if HasPrefix s prefix then drop (String.length prefix) s else s.

Definition HasSuffix (s suffix : string) : bool :=
  (String.length suffix <=? String.length s)%nat &&
  String.eqb (drop (String.length s - String.length suffix) s) suffix.

Definition TrimSuffix (s suffix : string) : string :=
  if HasSuffix s suffix
  then take (String.length s - String.length suffix) s
  else s.

(** [Split s "\n"]: the pieces between newline bytes; never empty. *)
Definition newline : ascii := ascii_of_nat 10.

Fixpoint SplitLines (s : string) : list string :=
  match s with
  | EmptyString => [EmptyString]
  | String c s' =>
      if Ascii.eqb c newline then EmptyString :: SplitLines s'
      else match SplitLines s' with
           | l :: ls => String c l :: ls
           | [] => [String c EmptyString]
           end
  end.

(** [ReplaceAll s "+" "%20"]. *)
Fixpoint ReplacePlus (s : string) : string :=
  match s with
  | EmptyString => EmptyString
  | String c s' =>
      if Ascii.eqb c "+" then "%20" +:+ ReplacePlus s'
      else String c (ReplacePlus s')
  end.

(** The UTF-8 encodings of the runes [unicode.IsSpace] accepts. *)
Definition bytes (l : list nat) : string :=
  string_of_list_ascii (map ascii_of_nat l).

Definition spaceRunes : list string :=
  map bytes
    ([[9]; [10]; [11]; [12]; [13]; [32]; [194; 133]; [194; 160];
      [225; 154; 128]] ++
     map (fun k => [226; 128; k]) [128; 129; 130; 131; 132; 133; 134; 135; 136; 137; 138]%nat ++
     [[226; 128; 168]; [226; 128; 169]; [226; 128; 175];
      [226; 129; 159]; [227; 128; 128]])%nat.

Definition leadingSpace (s : string) : option string :=
  find (fun r => HasPrefix s r) spaceRunes.

Definition trailingSpace (s : string) : option string :=
  find (fun r => HasSuffix s r) spaceRunes.

Fixpoint trimLeft (fuel : nat) (s : string) : string :=
  match fuel with
  | O => s
  | S f =>
      match leadingSpace s with
      | Some r => trimLeft f (drop (String.length r) s)
      | None => s
      end
  end.

Fixpoint trimRight (fuel : nat) (s : string) : string :=
  match fuel with
  | O => s
  | S f =>
      match trailingSpace s with
      | Some r => trimRight f (take (String.length s - String.length r) s)
      | None => s
      end
  end.

(** Every step removes at least one byte, so the length is fuel enough. *)
Definition TrimSpace (s : string) : string :=
  let s1 := trimLeft (String.length s) s in
  trimRight (String.length s1) s1.

Definition Join (sep : string) (l : list string) : string :=
  String.concat sep l.

End Strings.

(** ** Package [net/url]: [QueryEscape] and [QueryUnescape] *)

Module URL.

Definition isAlnum (c : ascii) : bool :=
  let n := nat_of_ascii c in
  ((48 <=? n) && (n <=? 57) || (65 <=? n) && (n <=? 90) ||
   (97 <=? n) && (n <=? 122))%nat.

(** [shouldEscape c encodeQueryComponent]: everything but the unreserved
    bytes is escaped. *)
Definition shouldEscape (c : ascii) : bool :=
  negb (isAlnum c ||
        Ascii.eqb c "-" || Ascii.eqb c "_" || Ascii.eqb c "." || Ascii.eqb c "~").

Definition upperhex (n : nat) : ascii :=
  nth n (list_ascii_of_string "0123456789ABCDEF") "0"%char.

Definition escapeByte (c : ascii) : string :=
  let n := nat_of_ascii c in
  String "%" (String (upperhex (n / 16)) (String (upperhex (n mod 16)) EmptyString)).

Fixpoint QueryEscape (s : string) : string :=
  match s with
  | EmptyString => EmptyString
  | String c s' =>
      if Ascii.eqb c " " then String "+" (QueryEscape s')
      else if shouldEscape c then escapeByte c +:+ QueryEscape s'
      else String c (QueryEscape s')
  end.

Definition unhex (c : ascii) : option nat :=
  let n := nat_of_ascii c in
  if ((48 <=? n) && (n <=? 57))%nat then Some (n - 48)%nat
  else if ((97 <=? n) && (n <=? 102))%nat then Some (n - 97 + 10)%nat
  else if ((65 <=? n) && (n <=? 70))%nat then Some (n - 65 + 10)%nat
  else None.

(** [QueryUnescape]: [None] stands for the [EscapeError] result, with
    which Go returns the empty string. *)
Fixpoint QueryUnescape (s : string) : option string :=
  match s with
  | EmptyString => Some EmptyString
  | String c s' =>
      if Ascii.eqb c "%" then
        match s' with
        | String h (String l rest) =>
            match unhex h, unhex l, QueryUnescape rest with
            | Some a, Some b, Some r =>
                Some (String (ascii_of_nat (a * 16 + b)) r)
            | _, _, _ => None
            end
        | _ => None
        end
      else
        match QueryUnescape s' with
        | Some r => Some (String (if Ascii.eqb c "+" then " "%char else c) r)
        | None => None
        end
  end.

End URL.

(** ** Package [time] *)

Module Time.

(** A [time.Time]: an instant (seconds and nanoseconds since the Unix
    epoch) together with the offset, in seconds east of UTC, that its
    location has at that instant. *)
Record t := mk { unixSec : Z; nsec : Z; zoneOffset : Z }.

(** [Time{}]: January 1, year 1, 00:00:00 UTC. *)
Definition zero : t := mk (-62135596800) 0 0.

Definition UTC (x : t) : t := mk (unixSec x) (nsec x) 0.

(** Days since 1970-01-01 of a proleptic Gregorian date, and back. *)
Definition daysFromCivil (y m d : Z) : Z :=
  let y' := if m <=? 2 then y - 1 else y in
  let era := y' / 400 in
  let yoe := y' - era * 400 in
  let doy := (153 * (if m >? 2 then m - 3 else m + 9) + 2) / 5 + d - 1 in
  let doe := yoe * 365 + yoe / 4 - yoe / 100 + doy in
  era * 146097 + doe - 719468.

Definition civilOfDoe (doe : Z) : Z * Z * Z :=
  let yoe := (doe - doe / 1460 + doe / 36524 - doe / 146096) / 365 in
  let doy := doe - (365 * yoe + yoe / 4 - yoe / 100) in
  let mp := (5 * doy + 2) / 153 in
  let d := doy - (153 * mp + 2) / 5 + 1 in
  let m := if mp <? 10 then mp + 3 else mp - 9 in
  (if m <=? 2 then yoe + 1 else yoe, m, d).

Definition civilFromDays (z : Z) : Z * Z * Z :=
  let z' := z + 719468 in
  let era := z' / 146097 in
  let doe := z' - era * 146097 in
  let '(y, m, d) := civilOfDoe doe in
  (y + era * 400, m, d).

Definition isLeap (y : Z) : bool :=
  (y mod 4 =? 0) && (negb (y mod 100 =? 0) || (y mod 400 =? 0)).

Definition daysIn (m y : Z) : Z :=
  if m =? 2 then (if isLeap y then 29 else 28)
  else if (m =? 4) || (m =? 6) || (m =? 9) || (m =? 11) then 30
  else 31.

(** Decimal digits. *)
Definition digit (n : Z) : ascii := ascii_of_nat (48 + Z.to_nat (n mod 10)).

Fixpoint digitsFuel (fuel : nat) (n : Z) (acc : string) : string :=
  match fuel with
  | O => acc
  | S f =>
      let acc' := String (digit n) acc in
      if n <? 10 then acc' else digitsFuel f (n / 10) acc'
  end.

(** [strconv.Itoa] on a non-negative number. *)
Definition itoa (n : Z) : string :=
  digitsFuel (S (Z.to_nat (Z.log2 n))) n EmptyString.

Fixpoint zeros (k : nat) : string :=
  match k with O => EmptyString | S k' => String "0" (zeros k') end.

(** [appendInt b x width]: sign, then the digits padded with zeros to
    [width]. *)
Definition appendInt (x : Z) (width : nat) : string :=
  let ds := itoa (Z.abs x) in
  (if x <? 0 then "-" else "") +:+
  zeros (width - String.length ds) +:+ ds.

(** [x.Format("2006-01-02T15:04:05")]: the civil date and clock of the
    instant in the location of [x]. *)
Definition Format (x : t) : string :=
  let abs := unixSec x + zoneOffset x in
  let days := abs / 86400 in
  let sod := abs mod 86400 in
  let '(y, m, d) := civilFromDays days in
  appendInt y 4 +:+ "-" +:+ appendInt m 2 +:+ "-" +:+ appendInt d 2 +:+ "T" +:+
  appendInt (sod / 3600) 2 +:+ ":" +:+ appendInt (sod mod 3600 / 60) 2 +:+ ":" +:+
  appendInt (sod mod 60) 2.

(** Parsing with the same layout. *)
Definition isDigit (c : ascii) : bool :=
  let n := nat_of_ascii c in ((48 <=? n) && (n <=? 57))%nat.

Definition digitVal (c : ascii) : Z := Z.of_nat (nat_of_ascii c - 48).

(** [getnum s fixed]: one or two digits; two are required when [fixed]. *)
Definition getnum (s : string) (fixed : bool) : option (Z * string) :=
  match s with
  | String a rest =>
      if isDigit a then
        match rest with
        | String b rest' =>
            if isDigit b then Some (digitVal a * 10 + digitVal b, rest')
            else if fixed then None else Some (digitVal a, rest)
        | EmptyString => if fixed then None else Some (digitVal a, rest)
        end
      else None
  | EmptyString => None
  end.

Definition getyear (s : string) : option (Z * string) :=
  match s with
  | String a (String b (String c (String d rest))) =>
      if isDigit a && isDigit b && isDigit c && isDigit d
      then Some (((digitVal a * 10 + digitVal b) * 10 + digitVal c) * 10 + digitVal d, rest)
      else None
  | _ => None
  end.

Definition expect (c : ascii) (s : string) : option string :=
  match s with
  | String a rest => if Ascii.eqb a c then Some rest else None
  | EmptyString => None
  end.

Fixpoint spanDigits (s : string) : list ascii * string :=
  match s with
  | String a rest =>
      if isDigit a then let '(ds, r) := spanDigits rest in (a :: ds, r)
      else ([], s)
  | EmptyString => ([], s)
  end.

(** [parseNanoseconds]: at most nine digits count, scaled to
    nanoseconds. *)
Definition nanosOf (ds : list ascii) : Z :=
  let ds9 := firstn 9 ds in
  fold_left (fun acc c => acc * 10 + digitVal c) ds9 0 *
  10 ^ Z.of_nat (9 - List.length ds9).

(** After the seconds field the input may carry a fractional second
    although the layout has none. *)
Definition fraction (s : string) : Z * string :=
  match s with
  | String p (String a rest) =>
      if (Ascii.eqb p "." || Ascii.eqb p ",") && isDigit a then
        let '(ds, r) := spanDigits (String a rest) in (nanosOf ds, r)
      else (0, s)
  | _ => (0, s)
  end.

Definition bind {A B} (o : option A) (f : A -> option B) : option B :=
  match o with Some a => f a | None => None end.

(** [time.Parse("2006-01-02T15:04:05", s)]; [None] is the error result,
    with which Go returns [Time{}]. *)
Definition Parse (s : string) : option t :=
  bind (getyear s) (fun '(year, s) =>
  bind (expect "-" s) (fun s =>
  bind (getnum s true) (fun '(month, s) =>
  if (month <=? 0) || (12 <? month) then None else
  bind (expect "-" s) (fun s =>
  bind (getnum s true) (fun '(day, s) =>
  bind (expect "T" s) (fun s =>
  bind (getnum s false) (fun '(hour, s) =>
  if 24 <=? hour then None else
  bind (expect ":" s) (fun s =>
  bind (getnum s true) (fun '(min, s) =>
  if 60 <=? min then None else
  bind (expect ":" s) (fun s =>
  bind (getnum s true) (fun '(sec, s) =>
  if 60 <=? sec then None else
  let '(ns, s) := fraction s in
  match s with
  | EmptyString =>
      if (day <? 1) || (daysIn month year <? day) then None
      else Some (mk (daysFromCivil year month day * 86400 +
                     hour * 3600 + min * 60 + sec) ns 0)
  | _ => None
  end))))))))))).

End Time.


(** ** Package [path/filepath] (Unix) *)

Module Filepath.

(** The pieces of a path between separators. *)
Fixpoint splitSep (s : string) : list string :=
  match s with
  | EmptyString => [EmptyString]
  | String c s' =>
      if Ascii.eqb c "/" then EmptyString :: splitSep s'
      else match splitSep s' with
           | l :: ls => String c l :: ls
           | [] => [String c EmptyString]
           end
  end.

Definition IsAbs (p : string) : bool := Strings.HasPrefix p "/".

(** One step of [Clean]: the stack holds the cleaned elements, last
    one first. *)
Definition cleanStep (rooted : bool) (stack : list string) (c : string)
  : list string :=
  if String.eqb c "" || String.eqb c "." then stack
  else if String.eqb c ".." then
    match stack with
    | top :: below =>
        if String.eqb top ".." then c :: stack else below
    | [] => if rooted then [] else [c]
    end
  else c :: stack.

Definition cleanElems (rooted : bool) (elems : list string) : list string :=
  rev (fold_left (cleanStep rooted) elems []).

Definition render (rooted : bool) (elems : list string) : string :=
  match elems, rooted with
  | [], true => "/"
  | [], false => "."
  | _, true => "/" +:+ Strings.Join "/" elems
  | _, false => Strings.Join "/" elems
  end.

Definition Clean (p : string) : string :=
  render (IsAbs p) (cleanElems (IsAbs p) (splitSep p)).

(** [Join]: the elements from the first non-empty one on, joined with
    separators and cleaned; the empty string when all are empty. *)
Fixpoint Join (elem : list string) : string :=
  match elem with
  | [] => ""
  | e :: rest =>
      if String.eqb e "" then Join rest
      else Clean (Strings.Join "/" elem)
  end.

(** Index just past the last separator. *)
Fixpoint afterLastSep (s : string) : nat :=
  match s with
  | EmptyString => O
  | String c s' =>
      let k := afterLastSep s' in
      match k with
      | O => if Ascii.eqb c "/" then 1%nat else O
      | S _ => S k
      end
  end.

Definition Dir (p : string) : string :=
  Clean (Strings.take (afterLastSep p) p).

Fixpoint stripTrailingSeps (fuel : nat) (s : string) : string :=
  match fuel with
  | O => s
  | S f =>
      if Strings.HasSuffix s "/"
      then stripTrailingSeps f (Strings.take (String.length s - 1) s)
      else s
  end.

Definition Base (p : string) : string :=
  if String.eqb p "" then "."
  else
    let p1 := stripTrailingSeps (String.length p) p in
    let p2 := Strings.drop (afterLastSep p1) p1 in
    if String.eqb p2 "" then "/" else p2.

(** [Ext]: the suffix of the last element from its last dot on. *)
Fixpoint extOf (s : string) : option string :=
  match s with
  | EmptyString => None
  | String c s' =>
      match extOf s' with
      | Some e => Some e
      | None =>
          if Ascii.eqb c "." then Some s
          else None
      end
  end.

Definition Ext (p : string) : string :=
  match extOf (Strings.drop (afterLastSep p) p) with
  | Some e => e
  | None => ""
  end.

End Filepath.


(** ** Package [os]: a model of the file system the package runs on *)

Module OS.

Inductive Errno :=
| ENOENT | EEXIST | EXDEV | EACCES | EPERM | ENOTDIR | EISDIR
| ENOTEMPTY | EINVAL | EIO | ENOSPC | ELOOP | EROFS.

Inductive Kind := KFile | KDir | KSymlink.

(** What the file system keeps for a path, which is also what
    [os.FileInfo] reports: [data] is the content of a regular file and
    the target of a symbolic link. *)
Record Node := mkNode {
  kind : Kind;
  perm : Z;
  mtime : Time.t;
  data : string;
  dev : Z
}.

Definition IsDir (n : Node) : bool :=
  match kind n with KDir => true | _ => false end.

(** [info.Mode()&os.ModeSymlink != 0] *)
Definition IsSymlink (n : Node) : bool :=
  match kind n with KSymlink => true | _ => false end.

(** The calls the package makes, with the arguments it passes. *)
Inductive Call :=
| CLstat (p : string)
| CStat (p : string)
| CMkdirAll (p : string) (mode : Z)
| CWriteFile (p : string) (content : string) (mode : Z)
| CReadFile (p : string)
| CReadDir (p : string)
| CRename (src dst : string)
| CRemove (p : string)
| CRemoveAll (p : string)
| CReadlink (p : string)
| CSymlink (target p : string)
| COpen (p : string)
| COpenExcl (p : string) (mode : Z)
| CCreate (p : string)
| CCopy (dst src : string)
| CWriteString (p : string) (s : string)
| CClose (p : string)
| CChtimes (p : string) (t : Time.t).

(** Go [error] values: the failure of a call ([*PathError],
    [*LinkError]), the package's sentinels, and [fmt.Errorf] with a
    wrapped ([%w]) or merely printed ([%v]) cause. *)
Inductive error :=
| PathError (c : Call) (e : Errno)
| ErrTrashNotFound
| ErrInvalidTrashInfo
| ErrFileNotInTrash
| ErrRestoreFailed
| ErrAlreadyExists
| ErrCrossDevice
| ErrNoTrashAvailable
| ErrEnv (what : string)
| Wrapf (msg : string) (cause : error)
| Printf (msg : string) (cause : error).

#[global] Instance Errno_eq_dec : EqDecision Errno.
Proof. solve_decision. Defined.
#[global] Instance Kind_eq_dec : EqDecision Kind.
Proof. solve_decision. Defined.
#[global] Instance Time_eq_dec : EqDecision Time.t.
Proof. solve_decision. Defined.
#[global] Instance Node_eq_dec : EqDecision Node.
Proof. solve_decision. Defined.
#[global] Instance Call_eq_dec : EqDecision Call.
Proof. solve_decision. Defined.
#[global] Instance error_eq_dec : EqDecision error.
Proof. solve_decision. Defined.

(** [errors.Is err target]: [target] occurs in the [%w] chain. *)
Fixpoint errorsIs (err target : error) : bool :=
  bool_decide (err = target) ||
  match err with
  | Wrapf _ cause => errorsIs cause target
  | _ => false
  end.

(** [errors.Is err errno] for a [syscall.Errno] target. *)
Fixpoint errorsIsErrno (err : error) (target : Errno) : bool :=
  match err with
  | PathError _ e => bool_decide (e = target)
  | Wrapf _ cause => errorsIsErrno cause target
  | _ => false
  end.

(** [os.IsNotExist]: looks through [*PathError] only, not through
    [fmt.Errorf] wrappers. *)
Definition IsNotExist (err : error) : bool :=
  match err with
  | PathError _ ENOENT => true
  | _ => false
  end.

(** What the process finds around it and cannot change. [denied] lists
    the calls the environment refuses (permissions, read-only or full
    devices, I/O errors) although the tree would allow them;
    [shortWrite] is how many bytes a refused copy still transfers. *)
Record Env := mkEnv {
  cwd : list string;
  denied : Call -> option Errno;
  shortWrite : nat;
  now : Time.t;
  envHOME : string;
  envXDG_DATA_HOME : string;
  currentUser : option (string * string);
  getuid : Z;
  procMounts : option string;
  entropy : nat -> ascii
}.

(** The package-level variables of [trash.go]. *)
Record Globals := mkGlobals {
  homeTrash : string;
  uid : string;
  initDone : bool;
  initErr : option error
}.

Record World := mkWorld {
  fs : gmap (list string) Node;
  log : list (Call * option Errno);
  drawn : nat;
  pkg : Globals;
  env : Env
}.

Definition setFs (w : World) (m : gmap (list string) Node) : World :=
  mkWorld m (log w) (drawn w) (pkg w) (env w).
Definition pushLog (w : World) (c : Call) (r : option Errno) : World :=
  mkWorld (fs w) (log w ++ [(c, r)]) (drawn w) (pkg w) (env w).
Definition setPkg (w : World) (g : Globals) : World :=
  mkWorld (fs w) (log w) (drawn w) g (env w).
Definition setDrawn (w : World) (n : nat) : World :=
  mkWorld (fs w) (log w) n (pkg w) (env w).

(** Programs thread the world. *)
Definition M (A : Type) : Type := World -> A * World.
Definition ret {A} (a : A) : M A := fun w => (a, w).
Definition bind {A B} (m : M A) (k : A -> M B) : M B :=
  fun w => let '(a, w') := m w in k a w'.

(** The absolute, cleaned elements a path names for the kernel. *)
Definition resolve (e : Env) (p : string) : list string :=
  Filepath.cleanElems true
    ((if Filepath.IsAbs p then [] else cwd e) ++ Filepath.splitSep p).

Definition parent (q : list string) : list string := removelast q.

Definition under (q k : list string) : bool := bool_decide (q `prefix_of` k).

(** Follow symbolic links in the last element, as [stat(2)] does. *)
Fixpoint follow (fuel : nat) (e : Env) (m : gmap (list string) Node)
    (q : list string) : Errno + (list string * Node) :=
  match m !! q with
  | None => inl ENOENT
  | Some n =>
      match kind n, fuel with
      | KSymlink, O => inl ELOOP
      | KSymlink, S f =>
          follow f e m
            (Filepath.cleanElems true
               ((if Filepath.IsAbs (data n) then [] else parent q) ++
                Filepath.splitSep (data n)))
      | _, _ => inr (q, n)
      end
  end.

Definition maxLinks : nat := 40.

(** The names directly inside [q], sorted as [os.ReadDir] sorts. *)
Fixpoint stripPrefix (q k : list string) : option (list string) :=
  match q, k with
  | [], _ => Some k
  | a :: q', b :: k' => if String.eqb a b then stripPrefix q' k' else None
  | _ :: _, [] => None
  end.

Definition childName (q k : list string) : option string :=
  match stripPrefix q k with
  | Some [n] => Some n
  | _ => None
  end.

Fixpoint insertSorted (s : string) (l : list string) : list string :=
  match l with
  | [] => [s]
  | x :: l' => if String.leb s x then s :: l else x :: insertSorted s l'
  end.

Definition sortNames (l : list string) : list string :=
  fold_right insertSorted [] l.

Definition children (m : gmap (list string) Node) (q : list string)
  : list string :=
  sortNames (omap (fun kv => childName q (fst kv)) (map_to_list m)).

Definition hasChildren (m : gmap (list string) Node) (q : list string) : bool :=
  match children m q with [] => false | _ => true end.

Definition removeTree (m : gmap (list string) Node) (q : list string)
  : gmap (list string) Node :=
  filter (fun kv => ¬ (q `prefix_of` fst kv)) m.

Definition subtree (m : gmap (list string) Node) (q : list string)
  : gmap (list string) Node :=
  filter (fun kv => q `prefix_of` fst kv) m.

Definition moveTree (m : gmap (list string) Node) (src dst : list string)
  : gmap (list string) Node :=
  list_to_map
    (map (fun kv => (dst ++ drop (List.length src) (fst kv), snd kv))
         (map_to_list (subtree m src)))
  ∪ removeTree (removeTree m dst) src.


(** *** The calls

    A call is refused when the environment says so; otherwise the tree
    decides. Either way it is logged with its outcome. File handles
    are named by the path they were opened with. *)

Abbreviation tree := (gmap (list string) Node).

Definition call {A} (c : Call) (sem : World -> (Errno + A) * tree)
  : M (error + A) :=
  fun w =>
    match denied (env w) c with
    | Some e => (inl (PathError c e), pushLog w c (Some e))
    | None =>
        match sem w with
        | (inl e, m) => (inl (PathError c e), pushLog (setFs w m) c (Some e))
        | (inr a, m) => (inr a, pushLog (setFs w m) c None)
        end
    end.

Definition errOnly (m : M (error + unit)) : M (option error) :=
  fun w => match m w with
           | (inl e, w') => (Some e, w')
           | (inr _, w') => (None, w')
           end.

Definition parentIsDir (m : tree) (q : list string) : Errno + Node :=
  match m !! parent q with
  | None => inl ENOENT
  | Some n => if IsDir n then inr n else inl ENOTDIR
  end.

Definition Lstat (p : string) : M (error + Node) :=
  call (CLstat p) (fun w =>
    match fs w !! resolve (env w) p with
    | Some n => (inr n, fs w)
    | None => (inl ENOENT, fs w)
    end).

Definition Stat (p : string) : M (error + Node) :=
  call (CStat p) (fun w =>
    match follow maxLinks (env w) (fs w) (resolve (env w) p) with
    | inr (_, n) => (inr n, fs w)
    | inl e => (inl e, fs w)
    end).

(** [MkdirAll]: every missing element is created, outermost first; an
    element that is there must be a directory. *)
Fixpoint mkdirAllFrom (e : Env) (mode : Z) (m : tree)
    (done todo : list string) (d : Z) : (Errno + unit) * tree :=
  match todo with
  | [] => (inr tt, m)
  | c :: rest =>
      let q := done ++ [c] in
      match m !! q with
      | None =>
          mkdirAllFrom e mode (<[q := mkNode KDir mode (now e) "" d]> m)
            q rest d
      | Some _ =>
          match follow maxLinks e m q with
          | inr (_, n) =>
              if IsDir n then mkdirAllFrom e mode m q rest (dev n)
              else (inl ENOTDIR, m)
          | inl err => (inl err, m)
          end
      end
  end.

Definition rootDev (m : tree) : Z :=
  match m !! [] with Some n => dev n | None => 0 end.

Definition MkdirAll (p : string) (mode : Z) : M (option error) :=
  errOnly (call (CMkdirAll p mode) (fun w =>
    mkdirAllFrom (env w) mode (fs w) [] (resolve (env w) p) (rootDev (fs w)))).

(** Opening for writing with [O_CREATE|O_TRUNC]. A path whose last
    element is a symbolic link is not opened for writing in this
    model: the call fails with [ELOOP]. *)
Definition createTrunc (e : Env) (m : tree) (q : list string)
    (content : string) (mode : Z) : (Errno + unit) * tree :=
  match m !! q with
  | Some n =>
      match kind n with
      | KDir => (inl EISDIR, m)
      | KSymlink => (inl ELOOP, m)
      | KFile =>
          (inr tt, <[q := mkNode KFile (perm n) (now e) content (dev n)]> m)
      end
  | None =>
      match parentIsDir m q with
      | inl err => (inl err, m)
      | inr pn =>
          (inr tt, <[q := mkNode KFile mode (now e) content (dev pn)]> m)
      end
  end.

Definition WriteFile (p : string) (content : string) (mode : Z)
  : M (option error) :=
  errOnly (call (CWriteFile p content mode) (fun w =>
    createTrunc (env w) (fs w) (resolve (env w) p) content mode)).

Definition Create (p : string) : M (option error) :=
  errOnly (call (CCreate p) (fun w =>
    createTrunc (env w) (fs w) (resolve (env w) p) "" 438)).

Definition ReadFile (p : string) : M (error + string) :=
  call (CReadFile p) (fun w =>
    match follow maxLinks (env w) (fs w) (resolve (env w) p) with
    | inr (_, n) =>
        if IsDir n then (inl EISDIR, fs w) else (inr (data n), fs w)
    | inl e => (inl e, fs w)
    end).

(** A directory entry: its name and what [entry.Info()] reports. *)
Definition DirEntry : Type := string * Node.

Definition entriesOf (m : tree) (q : list string) : list DirEntry :=
  omap (fun name => match m !! (q ++ [name]) with
                    | Some n => Some (name, n)
                    | None => None
                    end) (children m q).

Definition ReadDir (p : string) : M (error + list DirEntry) :=
  call (CReadDir p) (fun w =>
    match follow maxLinks (env w) (fs w) (resolve (env w) p) with
    | inr (q, n) =>
        if IsDir n then (inr (entriesOf (fs w) q), fs w)
        else (inl ENOTDIR, fs w)
    | inl e => (inl e, fs w)
    end).

Definition renameSem (m : tree) (qs qd : list string) : (Errno + unit) * tree :=
  match m !! qs with
  | None => (inl ENOENT, m)
  | Some ns =>
      match parentIsDir m qd with
      | inl err => (inl err, m)
      | inr pn =>
          if negb (dev ns =? dev pn) then (inl EXDEV, m)
          else if bool_decide (qs = qd) then (inr tt, m)
          else if under qs qd then (inl EINVAL, m)
          else
            match m !! qd with
            | Some nd =>
                if IsDir ns && negb (IsDir nd) then (inl ENOTDIR, m)
                else if negb (IsDir ns) && IsDir nd then (inl EEXIST, m)
                else if IsDir nd && hasChildren m qd then (inl ENOTEMPTY, m)
                else (inr tt, moveTree m qs qd)
            | None => (inr tt, moveTree m qs qd)
            end
      end
  end.

Definition Rename (src dst : string) : M (option error) :=
  errOnly (call (CRename src dst) (fun w =>
    renameSem (fs w) (resolve (env w) src) (resolve (env w) dst))).

Definition Remove (p : string) : M (option error) :=
  errOnly (call (CRemove p) (fun w =>
    let q := resolve (env w) p in
    match fs w !! q with
    | None => (inl ENOENT, fs w)
    | Some n =>
        if IsDir n && hasChildren (fs w) q then (inl ENOTEMPTY, fs w)
        else (inr tt, delete q (fs w))
    end)).

(** [RemoveAll]: the path and all below it; a missing path is no
    error. *)
Definition RemoveAll (p : string) : M (option error) :=
  errOnly (call (CRemoveAll p) (fun w =>
    (inr tt, removeTree (fs w) (resolve (env w) p)))).

Definition Readlink (p : string) : M (error + string) :=
  call (CReadlink p) (fun w =>
    match fs w !! resolve (env w) p with
    | None => (inl ENOENT, fs w)
    | Some n =>
        if IsSymlink n then (inr (data n), fs w) else (inl EINVAL, fs w)
    end).

Definition Symlink (target p : string) : M (option error) :=
  errOnly (call (CSymlink target p) (fun w =>
    let q := resolve (env w) p in
    match fs w !! q with
    | Some _ => (inl EEXIST, fs w)
    | None =>
        match parentIsDir (fs w) q with
        | inl err => (inl err, fs w)
        | inr pn =>
            (inr tt,
             <[q := mkNode KSymlink 511 (now (env w)) target (dev pn)]> (fs w))
        end
    end)).

(** [os.Open]: read-only. *)
Definition Open (p : string) : M (option error) :=
  errOnly (call (COpen p) (fun w =>
    match follow maxLinks (env w) (fs w) (resolve (env w) p) with
    | inr _ => (inr tt, fs w)
    | inl e => (inl e, fs w)
    end)).

(** [os.OpenFile(p, O_CREATE|O_WRONLY|O_EXCL, mode)] *)
Definition OpenExcl (p : string) (mode : Z) : M (option error) :=
  errOnly (call (COpenExcl p mode) (fun w =>
    let q := resolve (env w) p in
    match fs w !! q with
    | Some _ => (inl EEXIST, fs w)
    | None =>
        match parentIsDir (fs w) q with
        | inl err => (inl err, fs w)
        | inr pn =>
            (inr tt, <[q := mkNode KFile mode (now (env w)) "" (dev pn)]> (fs w))
        end
    end)).

Definition setData (m : tree) (q : list string) (content : string) : tree :=
  match m !! q with
  | Some n => <[q := mkNode (kind n) (perm n) (mtime n) content (dev n)]> m
  | None => m
  end.

(** [io.Copy(dstFile, srcFile)]: a refused copy leaves the first
    [shortWrite] bytes in the destination. *)
Definition Copy (dst src : string) : M (option error) :=
  fun w =>
    let c := CCopy dst src in
    let qd := resolve (env w) dst in
    match follow maxLinks (env w) (fs w) (resolve (env w) src) with
    | inl e => (Some (PathError c e), pushLog w c (Some e))
    | inr (_, n) =>
        if IsDir n then (Some (PathError c EISDIR), pushLog w c (Some EISDIR))
        else
          match denied (env w) c with
          | Some e =>
              (Some (PathError c e),
               pushLog (setFs w (setData (fs w) qd
                                   (Strings.take (shortWrite (env w)) (data n))))
                       c (Some e))
          | None =>
              (None, pushLog (setFs w (setData (fs w) qd (data n))) c None)
          end
    end.

Definition WriteString (p : string) (s : string) : M (option error) :=
  errOnly (call (CWriteString p s) (fun w =>
    let q := resolve (env w) p in
    match fs w !! q with
    | Some n => (inr tt, setData (fs w) q (data n +:+ s))
    | None => (inr tt, fs w)
    end)).

Definition Close (p : string) : M (option error) :=
  errOnly (call (CClose p) (fun w => (inr tt, fs w))).

Definition Chtimes (p : string) (t : Time.t) : M (option error) :=
  errOnly (call (CChtimes p t) (fun w =>
    match follow maxLinks (env w) (fs w) (resolve (env w) p) with
    | inr (q, n) =>
        (inr tt, <[q := mkNode (kind n) (perm n) t (data n) (dev n)]> (fs w))
    | inl e => (inl e, fs w)
    end)).

(** [crypto/rand.Read] on a fresh slice of [n] bytes. *)
Definition randRead (n : nat) : M (list ascii) :=
  fun w =>
    (map (fun i => entropy (env w) (drawn w + i)%nat) (seq 0 n),
     setDrawn w (drawn w + n)%nat).

Definition timeNow : M Time.t := fun w => (now (env w), w).

Definition UserHomeDir : M (error + string) :=
  fun w =>
    if String.eqb (envHOME (env w)) "" then (inl (ErrEnv "HOME"), w)
    else (inr (envHOME (env w)), w).

(** [os.Getenv("XDG_DATA_HOME")] *)
Definition GetenvXDG_DATA_HOME : M string :=
  fun w => (envXDG_DATA_HOME (env w), w).

(** [syscall.Getuid()] *)
Definition Getuid : M Z := fun w => (getuid (env w), w).

(** [user.Current()]: the [Uid] and [HomeDir] fields. *)
Definition userCurrent : M (error + (string * string)) :=
  fun w =>
    match currentUser (env w) with
    | Some u => (inr u, w)
    | None => (inl (ErrEnv "user"), w)
    end.

(** [filepath.Abs] *)
Definition Abs (p : string) : M (error + string) :=
  fun w =>
    if Filepath.IsAbs p then (inr (Filepath.Clean p), w)
    else (inr (Filepath.Join [Filepath.render true (cwd (env w)); p]), w).

End OS.


(** ** [mount_linux.go] *)

Module Mount.
Import OS.

(** [strings.Fields]: the maximal runs of bytes free of white space.
    [skip] counts the bytes left of a white space rune being passed;
    [cur] is the field being read. *)
Definition flush (cur : string) : list string :=
  if String.eqb cur "" then [] else [cur].

Fixpoint fieldsAux (s : string) (skip : nat) (cur : string) : list string :=
  match s with
  | EmptyString => flush cur
  | String c s' =>
      match skip with
      | S k => fieldsAux s' k cur
      | O =>
          match Strings.leadingSpace s with
          | Some r => flush cur ++ fieldsAux s' (String.length r - 1) ""
          | None => fieldsAux s' O (cur +:+ String c "")
          end
      end
  end.

Definition Fields (s : string) : list string := fieldsAux s O "".

Definition isOctal (c : ascii) : bool :=
  let n := nat_of_ascii c in ((48 <=? n) && (n <=? 55))%nat.

(** A backslash followed by three octal digits becomes the byte they
    name; the arithmetic is on bytes and wraps. *)
Fixpoint unescapeMountPoint (s : string) : string :=
  match s with
  | EmptyString => EmptyString
  | String c s' =>
      match s' with
      | String a (String b (String d rest)) =>
          if Ascii.eqb c "\" && isOctal a && isOctal b && isOctal d
          then String (ascii_of_nat
                         (((nat_of_ascii a - 48) * 64 +
                           (nat_of_ascii b - 48) * 8 +
                           (nat_of_ascii d - 48)) mod 256))
                      (unescapeMountPoint rest)
          else String c (unescapeMountPoint s')
      | _ => String c (unescapeMountPoint s')
      end
  end.

(** The lines a [bufio.Scanner] yields: the final newline ends the last
    line, and a trailing carriage return is dropped. *)
Definition scanLines (content : string) : list string :=
  let ls := Strings.SplitLines content in
  let ls' := match rev ls with
             | last :: before => if String.eqb last "" then rev before else ls
             | [] => ls
             end in
  map (fun l => Strings.TrimSuffix l (String (ascii_of_nat 13) "")) ls'.

Definition maxScanTokenSize : nat := Z.to_nat 65536.

Definition mountOfLine (line : string) : list string :=
  match Fields line with
  | _ :: mountPoint :: _ => [unescapeMountPoint mountPoint]
  | _ => []
  end.

(** [getMountPoints]: the second field of every line of [/proc/mounts];
    the scanner gives up on a line that does not fit its buffer. *)
Definition getMountPoints : M (error + list string) :=
  fun w =>
    match procMounts (env w) with
    | None => (inl (Wrapf "failed to open /proc/mounts" (ErrEnv "open")), w)
    | Some content =>
        let ls := scanLines content in
        if existsb (fun l => (maxScanTokenSize <=? String.length l)%nat) ls
        then (inl (Wrapf "failed to read /proc/mounts" (ErrEnv "token too long")), w)
        else (inr (concat (map mountOfLine ls)), w)
    end.

Definition longest (absPath : string) (best mount : string) : string :=
  if Strings.HasPrefix absPath mount &&
     (String.length best <? String.length mount)%nat
  then mount else best.

Definition getMountPoint (path : string) : M (error + string) :=
  bind (Abs path) (fun a =>
    match a with
    | inl e => ret (inl e)
    | inr absPath =>
        bind getMountPoints (fun r =>
          match r with
          | inl e => ret (inl e)
          | inr mounts =>
              let bestMount := fold_left (longest absPath) mounts "" in
              if String.eqb bestMount "" then ret (inr "/")
              else ret (inr bestMount)
          end)
    end).

End Mount.


(** ** [trash.go] *)

Module Trash.
Import OS.

Notation "'let*' x ':=' c 'in' k" := (bind c (fun x => k))
  (at level 10, x name, c at level 100, k at level 200).

Record TrashItem := mkItem {
  Name : string;
  OriginalPath : string;
  DeletionDate : Time.t;
  InfoPath : string;
  FilePath : string;
  TrashDir : string
}.

Definition setInitErr (e : error) : M unit :=
  fun w => (tt, setPkg w (mkGlobals (homeTrash (pkg w)) (uid (pkg w))
                                    (initDone (pkg w)) (Some e))).
Definition setHomeTrash (p : string) : M unit :=
  fun w => (tt, setPkg w (mkGlobals p (uid (pkg w))
                                    (initDone (pkg w)) (initErr (pkg w)))).
Definition setUid (u : string) : M unit :=
  fun w => (tt, setPkg w (mkGlobals (homeTrash (pkg w)) u
                                    (initDone (pkg w)) (initErr (pkg w)))).
Definition setInitDone : M unit :=
  fun w => (tt, setPkg w (mkGlobals (homeTrash (pkg w)) (uid (pkg w))
                                    true (initErr (pkg w)))).
Definition getHomeTrash : M string := fun w => (homeTrash (pkg w), w).
Definition getUid : M string := fun w => (uid (pkg w), w).

Fixpoint mkdirEach (dirs : list string) : M (option error) :=
  match dirs with
  | [] => ret None
  | dir :: rest =>
      let* r := MkdirAll dir 448 in
      match r with
      | Some err =>
          ret (Some (Wrapf ("failed to create trash directory " +:+ dir) err))
      | None => mkdirEach rest
      end
  end.

Definition ensureTrashDirs (trashDir : string) : M (option error) :=
  mkdirEach [Filepath.Join [trashDir; "files"];
             Filepath.Join [trashDir; "info"]].

Definition initialize : M unit :=
  let* h := UserHomeDir in
  match h with
  | inl err => setInitErr (Wrapf "failed to get home directory" err)
  | inr homeDir =>
      let* x := GetenvXDG_DATA_HOME in
      let dataHome :=
        if String.eqb x "" then Filepath.Join [homeDir; ".local"; "share"]
        else x in
      let* _ := setHomeTrash (Filepath.Join [dataHome; "Trash"]) in
      let* ht := getHomeTrash in
      let* r := ensureTrashDirs ht in
      match r with
      | Some err => setInitErr err
      | None =>
          let* u := userCurrent in
          match u with
          | inl err => setInitErr (Wrapf "failed to get current user" err)
          | inr currentUser => setUid (fst currentUser)
          end
      end
  end.

(** [initOnce.Do(initialize)]: the first call runs [initialize], every
    call returns the error it left. *)
Definition ensureInitialized : M (option error) :=
  fun w =>
    if initDone (pkg w) then (initErr (pkg w), w)
    else
      let '(_, w1) := initialize w in
      let '(_, w2) := setInitDone w1 in
      (initErr (pkg w2), w2).

Definition sanitizeFilename (name : string) : string :=
  if String.eqb name "" then "unnamed"
  else
    let name := Strings.TrimSpace name in
    if Strings.HasPrefix name "." && (String.length name =? 1)%nat
    then "dot"
    else name.

(** [os.IsNotExist] on the error of a call's result. *)
Definition notExist {A} (r : error + A) : bool :=
  match r with
  | inl err => IsNotExist err
  | inr _ => false
  end.

(** The name the loop tries at step [i]. *)
Definition candidate (baseName : string) (i : nat) : string :=
  match i with
  | O => baseName
  | S _ => baseName +:+ "." +:+ Time.itoa (Z.of_nat i)
  end.

(** The loop of [generateTrashNameInDir], from step [i] with [n] steps
    to go. *)
Fixpoint probe (n i : nat) (baseName trashDir : string) : M (option string) :=
  match n with
  | O => ret None
  | S n' =>
      let name := candidate baseName i in
      let filesPath := Filepath.Join [trashDir; "files"; name] in
      let infoPath := Filepath.Join [trashDir; "info"; name +:+ ".trashinfo"] in
      let* a := Lstat filesPath in
      if notExist a then
        let* b := Lstat infoPath in
        if notExist b then ret (Some name)
        else probe n' (S i) baseName trashDir
      else probe n' (S i) baseName trashDir
  end.

Definition lowerhex (n : nat) : ascii :=
  nth n (list_ascii_of_string "0123456789abcdef") "0"%char.

(** [hex.EncodeToString] *)
Fixpoint hexEncode (bs : list ascii) : string :=
  match bs with
  | [] => EmptyString
  | b :: rest =>
      String (lowerhex (nat_of_ascii b / 16))
        (String (lowerhex (nat_of_ascii b mod 16)) (hexEncode rest))
  end.

Definition generateTrashNameInDir (baseName trashDir : string) : M string :=
  let baseName := sanitizeFilename baseName in
  let* found := probe 100 0 baseName trashDir in
  match found with
  | Some name => ret name
  | None =>
      let* randomBytes := randRead 8 in
      ret (baseName +:+ "." +:+ hexEncode randomBytes)
  end.

Definition generateTrashName (baseName : string) : M string :=
  let* ht := getHomeTrash in generateTrashNameInDir baseName ht.

(** The record [writeTrashInfo] serialises. *)
Definition trashInfoContent (originalPath : string) (deletionTime : Time.t)
  : string :=
  let encodedPath := Strings.ReplacePlus (URL.QueryEscape originalPath) in
  "[Trash Info]" +:+ String Strings.newline
    ("Path=" +:+ encodedPath +:+ String Strings.newline
       ("DeletionDate=" +:+ Time.Format (Time.UTC deletionTime) +:+
        String Strings.newline "")).

Definition writeTrashInfo (infoPath originalPath : string)
    (deletionTime : Time.t) : M (option error) :=
  WriteFile infoPath (trashInfoContent originalPath deletionTime) 384.

(** [isCrossDeviceError], the variant built everywhere but on Windows. *)
Definition isCrossDeviceError (err : error) : bool := errorsIsErrno err EXDEV.

Definition copyFileAcrossDevices (src dst : string) (info : Node)
  : M (option error) :=
  if IsSymlink info then
    let* l := Readlink src in
    match l with
    | inl err => ret (Some (Wrapf "failed to read symlink" err))
    | inr link =>
        let* r := Symlink link dst in
        match r with
        | Some err => ret (Some (Wrapf "failed to create symlink" err))
        | None => Remove src
        end
    end
  else
    let* o := Open src in
    match o with
    | Some err => ret (Some err)
    | None =>
        let* c := OpenExcl dst (perm info) in
        match c with
        | Some err => let* _ := Close src in ret (Some err)
        | None =>
            let* cp := Copy dst src in
            match cp with
            | Some err =>
                let* _ := Remove dst in
                let* _ := Close dst in
                let* _ := Close src in
                ret (Some err)
            | None =>
                let* cl := Close dst in
                match cl with
                | Some err =>
                    let* _ := Remove dst in
                    let* _ := Close src in
                    ret (Some err)
                | None =>
                    let* ct := Chtimes dst (mtime info) in
                    match ct with
                    | Some err =>
                        let* _ := Remove dst in
                        let* _ := Close src in
                        ret (Some err)
                    | None =>
                        let* r := Remove src in
                        let* _ := Close src in
                        ret r
                    end
                end
            end
        end
    end.

(** [copyDirAcrossDevices]; [fuel] bounds the nesting of directories. *)
Fixpoint copyDirAcrossDevices (fuel : nat) (src dst : string)
  : M (option error) :=
  match fuel with
  | O => ret (Some (ErrEnv "directories nested too deep"))
  | S fuel' =>
      let* mk := MkdirAll dst 493 in
      match mk with
      | Some err => ret (Some err)
      | None =>
          let* rd := ReadDir src in
          match rd with
          | inl err => ret (Some err)
          | inr entries =>
              let* r :=
                (fix each (es : list DirEntry) : M (option error) :=
                   match es with
                   | [] => ret None
                   | entry :: rest =>
                       let srcPath := Filepath.Join [src; fst entry] in
                       let dstPath := Filepath.Join [dst; fst entry] in
                       let info := snd entry in
                       let* r :=
                         if IsSymlink info
                         then copyFileAcrossDevices srcPath dstPath info
                         else if IsDir info
                         then copyDirAcrossDevices fuel' srcPath dstPath
                         else copyFileAcrossDevices srcPath dstPath info in
                       match r with
                       | Some err => ret (Some err)
                       | None => each rest
                       end
                   end) entries in
              match r with
              | Some err => ret (Some err)
              | None =>
                  let* st := Stat src in
                  match st with
                  | inl err => ret (Some err)
                  | inr srcInfo =>
                      let* ct := Chtimes dst (mtime srcInfo) in
                      match ct with
                      | Some err => ret (Some err)
                      | None => RemoveAll src
                      end
                  end
              end
          end
      end
  end.

(** Directories nest no deeper than the longest path of the tree. *)
Definition depthBound (w : World) : nat :=
  S (list_max (map (fun kv => List.length (fst kv)) (map_to_list (fs w)))).

Definition moveToTrash (src dst : string) (info : Node) : M (option error) :=
  let* r := Rename src dst in
  match r with
  | None => ret None
  | Some err =>
      if negb (isCrossDeviceError err) then ret (Some err)
      else if IsDir info
      then fun w => copyDirAcrossDevices (depthBound w) src dst w
      else copyFileAcrossDevices src dst info
  end.


(** The loop of [parseTrashInfo] over the lines after the first: a
    later field replaces an earlier one, and a field that does not
    parse leaves the zero value. *)
Definition parseLine (acc : string * Time.t) (line : string)
  : string * Time.t :=
  if Strings.HasPrefix line "Path=" then
    match URL.QueryUnescape (Strings.TrimPrefix line "Path=") with
    | Some p => (p, snd acc)
    | None => ("", snd acc)
    end
  else if Strings.HasPrefix line "DeletionDate=" then
    match Time.Parse (Strings.TrimPrefix line "DeletionDate=") with
    | Some t => (fst acc, t)
    | None => (fst acc, Time.zero)
    end
  else acc.

Definition parseContent (content : string) : error + (string * Time.t) :=
  let lines := Strings.SplitLines content in
  if (List.length lines <? 3)%nat ||
     negb (String.eqb (nth 0 lines "") "[Trash Info]")
  then inl ErrInvalidTrashInfo
  else
    let '(originalPath, deletionDate) :=
      fold_left parseLine (tail lines) ("", Time.zero) in
    if String.eqb originalPath "" then inl ErrInvalidTrashInfo
    else inr (originalPath, deletionDate).

Definition parseTrashInfo (infoPath trashDir : string)
  : M (error + TrashItem) :=
  let* c := ReadFile infoPath in
  match c with
  | inl err => ret (inl err)
  | inr content =>
      match parseContent content with
      | inl err => ret (inl err)
      | inr (originalPath, deletionDate) =>
          let baseName :=
            Strings.TrimSuffix (Filepath.Base infoPath) ".trashinfo" in
          ret (inr (mkItem baseName originalPath deletionDate infoPath
                      (Filepath.Join [trashDir; "files"; baseName])
                      trashDir))
      end
  end.

Fixpoint listEntries (infoDir trashDir : string) (entries : list DirEntry)
  : M (list TrashItem) :=
  match entries with
  | [] => ret []
  | entry :: rest =>
      if IsDir (snd entry) ||
         negb (Strings.HasSuffix (fst entry) ".trashinfo")
      then listEntries infoDir trashDir rest
      else
        let infoPath := Filepath.Join [infoDir; fst entry] in
        let* r := parseTrashInfo infoPath trashDir in
        match r with
        | inl _ => listEntries infoDir trashDir rest
        | inr item =>
            let* items := listEntries infoDir trashDir rest in
            ret (item :: items)
        end
  end.

Definition listTrashDir (trashDir : string) : M (error + list TrashItem) :=
  let infoDir := Filepath.Join [trashDir; "info"] in
  let* rd := ReadDir infoDir in
  match rd with
  | inl err =>
      if IsNotExist err then ret (inr [])
      else ret (inl (Wrapf "failed to read info directory" err))
  | inr entries =>
      let* items := listEntries infoDir trashDir entries in
      ret (inr items)
  end.

(** The per-mount trash of a mount point. *)
Definition mountTrash (mount u : string) : string :=
  Filepath.Join [mount; ".Trash-" +:+ u].

Fixpoint listMounts (u : string) (mounts : list string) : M (list TrashItem) :=
  match mounts with
  | [] => ret []
  | mount :: rest =>
      if String.eqb mount "/" then listMounts u rest
      else
        let trashDir := mountTrash mount u in
        let* st := Stat trashDir in
        match st with
        | inr info =>
            if IsDir info then
              let* r := listTrashDir trashDir in
              let* items := listMounts u rest in
              match r with
              | inr mountItems => ret (mountItems ++ items)
              | inl _ => ret items
              end
            else listMounts u rest
        | inl _ => listMounts u rest
        end
  end.

Definition List : M (error + list TrashItem) :=
  let* i := ensureInitialized in
  match i with
  | Some err => ret (inl err)
  | None =>
      let* ht := getHomeTrash in
      let* h := listTrashDir ht in
      let homeItems := match h with inr l => l | inl _ => [] end in
      let* m := Mount.getMountPoints in
      match m with
      | inl _ => ret (inr homeItems)
      | inr mountPoints =>
          let* u := getUid in
          let* items := listMounts u mountPoints in
          ret (inr (homeItems ++ items))
      end
  end.

Fixpoint findInMounts (trashName u : string) (mounts : list string)
  : M (error + TrashItem) :=
  match mounts with
  | [] => ret (inl ErrFileNotInTrash)
  | mount :: rest =>
      if String.eqb mount "/" then findInMounts trashName u rest
      else
        let trashDir := mountTrash mount u in
        let infoPath :=
          Filepath.Join [trashDir; "info"; trashName +:+ ".trashinfo"] in
        let* st := Stat infoPath in
        match st with
        | inr _ => parseTrashInfo infoPath trashDir
        | inl _ => findInMounts trashName u rest
        end
  end.

Definition findTrashItem (trashName : string) : M (error + TrashItem) :=
  let* ht := getHomeTrash in
  let infoPath := Filepath.Join [ht; "info"; trashName +:+ ".trashinfo"] in
  let* st := Stat infoPath in
  match st with
  | inr _ => parseTrashInfo infoPath ht
  | inl _ =>
      let* m := Mount.getMountPoints in
      match m with
      | inl _ => ret (inl ErrFileNotInTrash)
      | inr mountPoints =>
          let* u := getUid in
          findInMounts trashName u mountPoints
      end
  end.

Definition Restore (trashName : string) : M (option error) :=
  let* i := ensureInitialized in
  match i with
  | Some err => ret (Some err)
  | None =>
      let* f := findTrashItem trashName in
      match f with
      | inl err => ret (Some err)
      | inr item =>
          let* l := Lstat (OriginalPath item) in
          match l with
          | inr _ => ret (Some ErrAlreadyExists)
          | inl _ =>
              let dir := Filepath.Dir (OriginalPath item) in
              let* mk := MkdirAll dir 493 in
              match mk with
              | Some err =>
                  ret (Some (Wrapf "failed to create parent directory" err))
              | None =>
                  let* rn := Rename (FilePath item) (OriginalPath item) in
                  match rn with
                  | Some err =>
                      ret (Some (Wrapf "failed to restore file" err))
                  | None =>
                      let* rm := Remove (InfoPath item) in
                      match rm with
                      | Some err =>
                          let* _ := Rename (OriginalPath item) (FilePath item) in
                          ret (Some (Wrapf "failed to remove info file" err))
                      | None => ret None
                      end
                  end
              end
          end
      end
  end.

Fixpoint removeEach (dir : string) (entries : list DirEntry)
  : M (option error) :=
  match entries with
  | [] => ret None
  | entry :: rest =>
      let path := Filepath.Join [dir; fst entry] in
      let* r := RemoveAll path in
      match r with
      | Some err => ret (Some err)
      | None => removeEach dir rest
      end
  end.

Definition emptyDir (dir : string) : M (option error) :=
  let* rd := ReadDir dir in
  match rd with
  | inl err => ret (Some err)
  | inr entries => removeEach dir entries
  end.

Definition emptyTrashDir (trashDir : string) : M (option error) :=
  let filesDir := Filepath.Join [trashDir; "files"] in
  let infoDir := Filepath.Join [trashDir; "info"] in
  let* f := emptyDir filesDir in
  match f with
  | Some err => ret (Some (Wrapf "failed to empty files directory" err))
  | None =>
      let* i := emptyDir infoDir in
      match i with
      | Some err => ret (Some (Wrapf "failed to empty info directory" err))
      | None => ret None
      end
  end.

Fixpoint emptyMounts (u : string) (mounts : list string) : M (option error) :=
  match mounts with
  | [] => ret None
  | mount :: rest =>
      if String.eqb mount "/" then emptyMounts u rest
      else
        let trashDir := mountTrash mount u in
        let* st := Stat trashDir in
        match st with
        | inr info =>
            if IsDir info then
              let* r := emptyTrashDir trashDir in
              match r with
              | Some err => ret (Some err)
              | None => emptyMounts u rest
              end
            else emptyMounts u rest
        | inl _ => emptyMounts u rest
        end
  end.

Definition Empty : M (option error) :=
  let* i := ensureInitialized in
  match i with
  | Some err => ret (Some err)
  | None =>
      let* ht := getHomeTrash in
      let* h := emptyTrashDir ht in
      match h with
      | Some err => ret (Some err)
      | None =>
          let* m := Mount.getMountPoints in
          match m with
          | inl _ => ret None
          | inr mountPoints =>
              let* u := getUid in
              emptyMounts u mountPoints
          end
      end
  end.

Definition Delete (trashName : string) : M (option error) :=
  let* i := ensureInitialized in
  match i with
  | Some err => ret (Some err)
  | None =>
      let* f := findTrashItem trashName in
      match f with
      | inl err => ret (Some err)
      | inr item =>
          let* r := RemoveAll (FilePath item) in
          match r with
          | Some err => ret (Some (Wrapf "failed to remove file" err))
          | None =>
              let* rm := Remove (InfoPath item) in
              match rm with
              | Some err => ret (Some (Wrapf "failed to remove info file" err))
              | None => ret None
              end
          end
      end
  end.

Definition checkTrashDirSecurity (trashDir : string) : M (option error) :=
  let* st := Stat trashDir in
  if notExist st then MkdirAll trashDir 448
  else
    match st with
    | inl err => ret (Some err)
    | inr info =>
        if negb (IsDir info)
        then ret (Some (ErrEnv "trash path exists but is not a directory"))
        else if negb (perm info =? 448)
        then ret (Some (ErrEnv "trash directory has incorrect permissions"))
        else ret None
    end.

Definition getTrashDirForPath (path : string) : M (error + string) :=
  let* pm := Mount.getMountPoint path in
  match pm with
  | inl err => ret (inl err)
  | inr pathMount =>
      let* ht := getHomeTrash in
      let* hm := Mount.getMountPoint ht in
      match hm with
      | inl err => ret (inl err)
      | inr homeMount =>
          if String.eqb pathMount homeMount then ret (inr ht)
          else
            let* u := getUid in
            let trashDir := mountTrash pathMount u in
            let* c := checkTrashDirSecurity trashDir in
            match c with
            | Some _ => ret (inr ht)
            | None => ret (inr trashDir)
            end
      end
  end.

Definition Trash (path : string) : M (option error) :=
  let* i := ensureInitialized in
  match i with
  | Some err => ret (Some err)
  | None =>
      let* a := Abs path in
      match a with
      | inl err => ret (Some (Wrapf "failed to get absolute path" err))
      | inr absPath =>
          let* l := Lstat absPath in
          match l with
          | inl err => ret (Some (Wrapf "failed to stat file" err))
          | inr info =>
              let* t := getTrashDirForPath absPath in
              match t with
              | inl err =>
                  ret (Some (Wrapf "failed to determine trash directory" err))
              | inr trashDir =>
                  let* e := ensureTrashDirs trashDir in
                  match e with
                  | Some err =>
                      ret (Some (Wrapf "failed to create trash directories" err))
                  | None =>
                      let baseName := Filepath.Base absPath in
                      let* trashName := generateTrashNameInDir baseName trashDir in
                      let filesPath :=
                        Filepath.Join [trashDir; "files"; trashName] in
                      let infoPath :=
                        Filepath.Join [trashDir; "info";
                                       trashName +:+ ".trashinfo"] in
                      let* tm := timeNow in
                      let* wr := writeTrashInfo infoPath absPath tm in
                      match wr with
                      | Some err =>
                          ret (Some (Wrapf "failed to write trash info" err))
                      | None =>
                          let* mv := moveToTrash absPath filesPath info in
                          match mv with
                          | Some err =>
                              let* _ := Remove infoPath in
                              ret (Some (Wrapf "failed to move to trash" err))
                          | None => ret None
                          end
                      end
                  end
              end
          end
      end
  end.

End Trash.


(** ** [trash_linux.go] *)

Module TrashLinux.
Import OS.

Notation "'let*' x ':=' c 'in' k" := (bind c (fun x => k))
  (at level 10, x name, c at level 100, k at level 200).

(** The loop of [findMountPoint]: climb while the device stays the
    same. Every step shortens [dir], so its length bounds the loop. *)
Fixpoint climb (fuel : nat) (currentDev : Z) (dir : string)
  : M (error + string) :=
  match fuel with
  | O => ret (inr dir)
  | S fuel' =>
      let parent := Filepath.Dir dir in
      if String.eqb parent dir then ret (inr dir)
      else
        let* st := Stat parent in
        match st with
        | inl err => ret (inl err)
        | inr pInfo =>
            if negb (dev pInfo =? currentDev) then ret (inr dir)
            else climb fuel' currentDev parent
        end
  end.

Definition findMountPoint (p : string) : M (error + string) :=
  let* a := Abs p in
  match a with
  | inl err => ret (inl err)
  | inr absPath =>
      let* st := Stat absPath in
      match st with
      | inl err => ret (inl err)
      | inr info => climb (S (String.length absPath)) (dev info) absPath
      end
  end.

Definition xdgTrashDir (filename : string) : M (error + string) :=
  let* m := findMountPoint filename in
  match m with
  | inl err => ret (inl err)
  | inr mountPoint =>
      let* uid := Getuid in
      let trashDir :=
        Filepath.Join [mountPoint; ".Trash-" +:+ Time.appendInt uid 0;
                       "files"] in
      let* mk := MkdirAll trashDir 448 in
      match mk with
      | None => ret (inr trashDir)
      | Some _ =>
          let* u := userCurrent in
          match u with
          | inl err => ret (inl err)
          | inr usr =>
              let fallback :=
                Filepath.Join [snd usr; ".local"; "share"; "Trash"; "files"] in
              let* mk2 := MkdirAll fallback 448 in
              match mk2 with
              | Some err => ret (inl err)
              | None => ret (inr fallback)
              end
          end
      end
  end.

(** The loop of [uniqueTrashName] has no bound in the source; [None]
    is the model running out of [fuel]. *)
Fixpoint nextFree (fuel : nat) (i : Z) (trashDir nameOnly ext : string)
  : M (option string) :=
  match fuel with
  | O => ret None
  | S fuel' =>
      let newBase := nameOnly +:+ "_" +:+ Time.appendInt i 0 +:+ ext in
      let dest := Filepath.Join [trashDir; newBase] in
      let* l := Lstat dest in
      if Trash.notExist l then ret (Some dest)
      else nextFree fuel' (i + 1) trashDir nameOnly ext
  end.

Definition uniqueTrashName (fuel : nat) (trashDir origName : string)
  : M (option string) :=
  let base := Filepath.Base origName in
  let dest := Filepath.Join [trashDir; base] in
  let* l := Lstat dest in
  if Trash.notExist l then ret (Some dest)
  else
    let ext := Filepath.Ext base in
    let nameOnly := Strings.TrimSuffix base ext in
    nextFree fuel 1 trashDir nameOnly ext.

Definition linuxInfoContent (absOrig : string) (t : Time.t) : string :=
  "[Trash Info]" +:+ String Strings.newline
    ("Path=" +:+ absOrig +:+ String Strings.newline
       ("DeletionDate=" +:+ Time.Format t +:+ String Strings.newline "")).

Definition createTrashInfoFile (trashedFilePath originalPath : string)
  : M (option error) :=
  let trashDir := Filepath.Dir trashedFilePath in
  let parent := Filepath.Dir trashDir in
  let infoDir := Filepath.Join [parent; "info"] in
  let* mk := MkdirAll infoDir 448 in
  match mk with
  | Some err => ret (Some err)
  | None =>
      let base := Filepath.Base trashedFilePath in
      let infoPath := Filepath.Join [infoDir; base +:+ ".trashinfo"] in
      let* a := Abs originalPath in
      let absOrig := match a with inr p => p | inl _ => "" end in
      let* t := timeNow in
      let content := linuxInfoContent absOrig t in
      let* cr := Create infoPath in
      match cr with
      | Some err => ret (Some err)
      | None =>
          let* wr := WriteString infoPath content in
          let* _ := Close infoPath in
          ret wr
      end
  end.

(** [Put]; the outer [option] is [None] only when the model runs out
    of [fuel] in [uniqueTrashName]. *)
Definition Put (fuel : nat) (path : string)
  : M (option (string * option error)) :=
  let* st := Stat path in
  match st with
  | inl err =>
      ret (Some ("", Some (Printf "trash: cannot trash non-existent file" err)))
  | inr _ =>
      let* x := xdgTrashDir path in
      match x with
      | inl err =>
          ret (Some ("", Some (Printf "trash: failed to get trash dir" err)))
      | inr trashDir =>
          let* u := uniqueTrashName fuel trashDir path in
          match u with
          | None => ret None
          | Some dest =>
              let* rn := Rename path dest in
              match rn with
              | Some err =>
                  ret (Some ("", Some (Printf "trash: failed to move to trash" err)))
              | None =>
                  let* c := createTrashInfoFile dest path in
                  match c with
                  | Some err =>
                      ret (Some (dest,
                                 Some (Printf "trash: file trashed but failed to write .trashinfo" err)))
                  | None => ret (Some (dest, None))
                  end
              end
          end
      end
  end.

End TrashLinux.


(** ** Notions used to state the properties *)

Module Aux.

(** What one byte of the path becomes in the record. *)
Definition encodeByte (c : ascii) : string :=
  Strings.ReplacePlus (URL.QueryEscape (String c "")).

(** Bytes of a string. *)
Fixpoint allBytes (P : ascii -> bool) (s : string) : bool :=
  match s with
  | EmptyString => true
  | String c s' => P c && allBytes P s'
  end.

(** The bytes an escaped path is made of: unreserved ones, and the
    percent sign of an escape. No blank, no plus, no newline. *)
Definition plainByte (c : ascii) : bool :=
  negb (URL.shouldEscape c) || Ascii.eqb c "%".

Definition notNewline (c : ascii) : bool := negb (Ascii.eqb c Strings.newline).

(** A check run on every number of a range. *)
Fixpoint allFrom (n : nat) (f : Z -> bool) (start : Z) : bool :=
  match n with
  | O => true
  | S n' => f start && allFrom n' f (start + 1)
  end.

Definition twoDigitsOk (n : Z) : bool :=
  match Time.appendInt n 2 with
  | String a (String b EmptyString) =>
      Time.isDigit a && Time.isDigit b &&
      (Time.digitVal a * 10 + Time.digitVal b =? n)
  | _ => false
  end.

Definition fourDigitsOk (n : Z) : bool :=
  match Time.appendInt n 4 with
  | String a (String b (String c (String d EmptyString))) =>
      Time.isDigit a && Time.isDigit b && Time.isDigit c && Time.isDigit d &&
      (((Time.digitVal a * 10 + Time.digitVal b) * 10 + Time.digitVal c) * 10
       + Time.digitVal d =? n)
  | _ => false
  end.

(** The civil date of a day of the 400-year era, checked on each of
    the era's days. *)
Definition civilOk (doe : Z) : bool :=
  let '(yy, m, d) := Time.civilOfDoe doe in
  let yoe := if m <=? 2 then yy - 1 else yy in
  (0 <=? yoe) && (yoe <=? 399) && (1 <=? m) && (m <=? 12) &&
  (1 <=? d) && (d <=? Time.daysIn m yy) &&
  (yoe * 365 + yoe / 4 - yoe / 100 +
     ((153 * (if m >? 2 then m - 3 else m + 9) + 2) / 5 + d - 1) =? doe) &&
  (0 <=? yy) && (yy <=? 400) && Bool.eqb (yy =? 400) (146037 <=? doe).

(** Percent-escaping as the specification words it: an unreserved
    byte stands for itself; every other byte, the blank among them,
    becomes a percent sign and its two upper-case hexadecimal digits,
    so a blank is [%20] and never a plus sign. *)
Definition specEscapeByte (c : ascii) : string :=
  if URL.shouldEscape c then URL.escapeByte c else String c "".

Fixpoint specEscape (s : string) : string :=
  match s with
  | EmptyString => EmptyString
  | String c s' => specEscapeByte c +:+ specEscape s'
  end.

(** The three lines of a record, each ended by a newline. *)
Definition record (encodedPath stamp : string) : string :=
  "[Trash Info]" +:+ String Strings.newline
    ("Path=" +:+ encodedPath +:+ String Strings.newline
       ("DeletionDate=" +:+ stamp +:+ String Strings.newline "")).

(** The record as the specification words it: the stamp is the local
    time of the deletion. *)
Definition specTrashInfoContent (originalPath : string) (t : Time.t)
  : string :=
  record (specEscape originalPath) (Time.Format t).

Definition noBlankNoPlus (c : ascii) : bool :=
  negb (Ascii.eqb c " ") && negb (Ascii.eqb c "+").

(** The value of the last line that starts with [key], if any: the
    field the parser ends up with. *)
Definition lastField (key : string) (lines : list string) : option string :=
  fold_left (fun acc l => if Strings.HasPrefix l key
                          then Some (Strings.TrimPrefix l key) else acc)
            lines None.

Definition pathField (content : string) : option string :=
  lastField "Path=" (tail (Strings.SplitLines content)).

(** Date lines are looked at only when they are no path lines, which
    no line starting with [DeletionDate=] is. *)
Definition dateField (content : string) : option string :=
  lastField "DeletionDate=" (tail (Strings.SplitLines content)).

(** The path field is absent: no such line, or nothing after the
    equals sign. *)
Definition pathAbsent (content : string) : Prop :=
  pathField content = None \/ pathField content = Some "".

Definition pathUnparsable (content : string) : Prop :=
  exists v, pathField content = Some v /\ URL.QueryUnescape v = None.

(** The timestamp of a record whose date field is [f]. *)
Definition dateOf (f : option string) : Time.t :=
  match f with
  | Some v => match Time.Parse v with Some t => t | None => Time.zero end
  | None => Time.zero
  end.

(** The world with another log: what a program does must not depend
    on what was logged before. *)
Definition relog (w : OS.World) (l : list (OS.Call * option OS.Errno))
  : OS.World :=
  OS.mkWorld (OS.fs w) l (OS.drawn w) (OS.pkg w) (OS.env w).

Definition Uniform {A} (m : OS.M A) : Prop :=
  forall w l, exists l',
    m (relog w l) = (fst (m w), relog (snd (m w)) l').

(** A program that only looks: tree, package state and environment
    are left as they were. *)
Definition ReadOnly {A} (m : OS.M A) : Prop :=
  forall w, exists l', snd (m w) = relog w l'.

(** [Lstat] reports that nothing is at [p]. *)
Definition lstatAbsent (w : OS.World) (p : string) : bool :=
  Trash.notExist (fst (OS.Lstat p w)).

(** Neither the data entry nor the metadata entry of [name] exists in
    the trash root. *)
Definition nameFree (w : OS.World) (trashDir name : string) : bool :=
  lstatAbsent w (Filepath.Join [trashDir; "files"; name]) &&
  lstatAbsent w (Filepath.Join [trashDir; "info"; name +:+ ".trashinfo"]).

(** The sequence [name, name.1, ..., name.99]. *)
Definition candidates (name : string) : list string :=
  name :: map (fun i => name +:+ "." +:+ Time.itoa (Z.of_nat i)) (seq 1 99).

(** The first of the candidates that is free, as the specification
    words the probing. *)
Definition firstFree (w : OS.World) (trashDir name : string) : option string :=
  find (nameFree w trashDir) (candidates name).

(** An existence check on one of the names [cands]. *)
Definition probesOneOf (trashDir : string) (cands : list string)
    (ev : OS.Call * option OS.Errno) : Prop :=
  exists cand, In cand cands /\
    (fst ev = OS.CLstat (Filepath.Join [trashDir; "files"; cand]) \/
     fst ev = OS.CLstat (Filepath.Join [trashDir; "info"; cand +:+ ".trashinfo"])).

(** Calls that only look at the tree. *)
Definition isQuery (ev : OS.Call * option OS.Errno) : Prop :=
  match fst ev with
  | OS.CLstat _ | OS.CStat _ | OS.CReadFile _ | OS.CReadDir _ => True
  | _ => False
  end.

(** Calls that look at the tree or create directories. *)
Definition isQueryOrMkdir (ev : OS.Call * option OS.Errno) : Prop :=
  match fst ev with
  | OS.CLstat _ | OS.CStat _ | OS.CReadFile _ | OS.CReadDir _
  | OS.CMkdirAll _ _ => True
  | _ => False
  end.

(** A program whose every logged call satisfies [Q]; no program
    changes its environment. *)
Definition Logs (Q : OS.Call * option OS.Errno -> Prop) {A} (m : OS.M A)
  : Prop :=
  forall w, exists l,
    OS.log (snd (m w)) = OS.log w ++ l /\ Forall Q l /\
    OS.env (snd (m w)) = OS.env w.

(** What [Trash] may log before it moves anything: looking, making
    directories, and a write of the record that failed. *)
Definition isPreMove (ev : OS.Call * option OS.Errno) : Prop :=
  isQueryOrMkdir ev \/
  exists p c m e, ev = (OS.CWriteFile p c m, Some e).

Definition anyCall (ev : OS.Call * option OS.Errno) : Prop := True.

(** A file name: not empty, not [.] or [..], no separator in it. *)
Definition noSep (s : string) : bool :=
  allBytes (fun c => negb (Ascii.eqb c "/")) s.

Definition validName (s : string) : bool :=
  negb (String.eqb s "") && negb (String.eqb s ".") &&
  negb (String.eqb s "..") && noSep s.

(** An element of a cleaned path: not empty and not a dot. *)
Definition properElem (c : string) : Prop := c <> "" /\ c <> ".".

(** Nothing is directly inside [q]. *)
Definition emptied (m : gmap (list string) OS.Node) (q : list string) : Prop :=
  forall name, m !! (q ++ [name]) = None.

(** [q] is a directory, not a link to one. *)
Definition dirAt (m : gmap (list string) OS.Node) (q : list string) : Prop :=
  exists n, m !! q = Some n /\ OS.kind n = OS.KDir.

(** [Stat p] succeeds and finds a directory. *)
Definition statsDir (e : OS.Env) (m : gmap (list string) OS.Node) (p : string)
  : Prop :=
  OS.denied e (OS.CStat p) = None /\
  exists q n, OS.follow OS.maxLinks e m (OS.resolve e p) = inr (q, n) /\
              OS.IsDir n = true.

(** The two subdirectories of a trash root can be read, and those of
    them that are directories are empty. *)
Definition cleared (e : OS.Env) (m : gmap (list string) OS.Node) (root : string)
  : Prop :=
  OS.denied e (OS.CReadDir (Filepath.Join [root; "files"])) = None /\
  OS.denied e (OS.CReadDir (Filepath.Join [root; "info"])) = None /\
  (dirAt m (OS.resolve e (Filepath.Join [root; "files"])) ->
   emptied m (OS.resolve e (Filepath.Join [root; "files"]))) /\
  (dirAt m (OS.resolve e (Filepath.Join [root; "info"])) ->
   emptied m (OS.resolve e (Filepath.Join [root; "info"]))).

(** The two subdirectories of a trash root are directories. *)
Definition rootIntact (e : OS.Env) (m : gmap (list string) OS.Node)
    (root : string) : Prop :=
  dirAt m (OS.resolve e (Filepath.Join [root; "files"])) /\
  dirAt m (OS.resolve e (Filepath.Join [root; "info"])).

(** Every trash root that [Empty] and [List] visit is intact: the home
    trash, and the trash of every mount point but [/] whose trash
    directory is there. *)
Definition rootsIntact (w : OS.World) : Prop :=
  rootIntact (OS.env w) (OS.fs w) (OS.homeTrash (OS.pkg w)) /\
  forall mounts mount,
    fst (Mount.getMountPoints w) = inr mounts ->
    In mount mounts -> mount <> "/" ->
    statsDir (OS.env w) (OS.fs w)
      (Trash.mountTrash mount (OS.uid (OS.pkg w))) ->
    rootIntact (OS.env w) (OS.fs w)
      (Trash.mountTrash mount (OS.uid (OS.pkg w))).

(** The executable forms of [dirAt] and [validTree]. *)
Definition isDirAt (m : gmap (list string) OS.Node) (q : list string) : bool :=
  match m !! q with
  | Some n => match OS.kind n with OS.KDir => true | _ => false end
  | None => false
  end.

Definition validPaths (m : gmap (list string) OS.Node) : bool :=
  forallb (fun kv => forallb validName (fst kv)) (map_to_list m).

(** Every trash root the package looks at is cleared. *)
Definition allCleared (w : OS.World) : Prop :=
  cleared (OS.env w) (OS.fs w) (OS.homeTrash (OS.pkg w)) /\
  forall mounts mount,
    fst (Mount.getMountPoints w) = inr mounts ->
    In mount mounts -> mount <> "/" ->
    statsDir (OS.env w) (OS.fs w) (Trash.mountTrash mount (OS.uid (OS.pkg w))) ->
    cleared (OS.env w) (OS.fs w) (Trash.mountTrash mount (OS.uid (OS.pkg w))).

(** From [w] to [w'] paths were only removed. *)
Definition shrinks (w w' : OS.World) : Prop :=
  OS.fs w' ⊆ OS.fs w /\ OS.env w' = OS.env w /\ OS.pkg w' = OS.pkg w.

(** A removal that failed. *)
Definition failedRemoval (ev : OS.Call * option OS.Errno) : Prop :=
  exists p e, ev = (OS.CRemoveAll p, Some e).

(** The calls [l] of a run that returned [r]: no removal failed, or
    the last call is a removal that failed and [r] is its error,
    as [shape] presents it to the caller. *)
Definition abortsOnFailure (shape : OS.error -> OS.error -> Prop)
    (r : option OS.error) (l : list (OS.Call * option OS.Errno)) : Prop :=
  Forall (fun ev => ~ failedRemoval ev) l \/
  exists l0 p e err,
    l = l0 ++ [(OS.CRemoveAll p, Some e)] /\
    Forall (fun ev => ~ failedRemoval ev) l0 /\
    r = Some err /\ shape (OS.PathError (OS.CRemoveAll p) e) err.

(** The error of the call, wrapped once with a message. *)
Definition wrappedOnce (cause err : OS.error) : Prop :=
  exists msg, err = OS.Wrapf msg cause.

(** Every path of the tree is made of file names. *)
Definition validTree (m : gmap (list string) OS.Node) : Prop :=
  forall k n, m !! k = Some n -> Forall (fun c => validName c = true) k.

(** The calls [createTrashInfoFile] makes: none of them moves or
    removes anything. *)
Definition isInfoCall (ev : OS.Call * option OS.Errno) : Prop :=
  match fst ev with
  | OS.CMkdirAll _ _ | OS.CCreate _ | OS.CWriteString _ _ | OS.CClose _ => True
  | _ => False
  end.

(** Where [createTrashInfoFile] puts the record of a trashed file. *)
Definition infoPathOf (trashedFilePath : string) : string :=
  Filepath.Join
    [Filepath.Join [Filepath.Dir (Filepath.Dir trashedFilePath); "info"];
     Filepath.Base trashedFilePath +:+ ".trashinfo"].

(** What [Put] may log when it moves nothing: looking, making
    directories, and a rename that failed. *)
Definition isPrePut (ev : OS.Call * option OS.Errno) : Prop :=
  isQueryOrMkdir ev \/ exists src dst e, ev = (OS.CRename src dst, Some e).

End Aux.


(** ** Sample worlds, on which the properties are run *)

Module Sample.
Import OS.

(** 2024-10-31 04:00:00 UTC, in a location one hour east. *)
Definition clock : Time.t := Time.mk 1730347200 5 3600.

Definition dir (d : Z) : Node := mkNode KDir 493 clock "" d.
Definition file (content : string) (d : Z) : Node :=
  mkNode KFile 420 clock content d.

Definition nl : string := String Strings.newline "".

Definition nothingDenied : Call -> option Errno := fun _ => None.

Definition mounts : string :=
  "rootfs / rootfs rw 0 0" +:+ nl +:+ "/dev/sdb1 /mnt/usb ext4 rw 0 0" +:+ nl.

Definition envWith (den : Call -> option Errno) : Env :=
  mkEnv [] den 2 clock "/home/u" "" (Some ("1000", "/home/u")) 1000
        (Some mounts) (fun n => ascii_of_nat (n + 171)).

(** A home on device 1 and a mounted drive on device 2. *)
Definition tree0 : gmap (list string) Node :=
  list_to_map
    [([], dir 1); (["home"], dir 1); (["home"; "u"], dir 1);
     (["tmp"], dir 1); (["tmp"; "a b.txt"], file "hello" 1);
     (["mnt"], dir 1); (["mnt"; "usb"], dir 2);
     (["mnt"; "usb"; "x"], file "xx" 2);
     (["mnt"; "usb"; "dir"], dir 2);
     (["mnt"; "usb"; "dir"; "y"], file "yy" 2)].

Definition fresh : Globals := mkGlobals "" "" false None.

Definition world0 (den : Call -> option Errno) : World :=
  mkWorld tree0 [] 0 fresh (envWith den).

(** A record whose date does not parse. *)
Definition oddRecord : string :=
  "[Trash Info]" +:+ nl +:+ "Path=%2Ftmp%2Fold" +:+ nl +:+
  "DeletionDate=yesterday" +:+ nl.

Definition worldOdd : World :=
  mkWorld (<[ ["tmp"; "odd.trashinfo"] := file oddRecord 1 ]> tree0)
          [] 0 fresh (envWith nothingDenied).

(** After [Trash("/tmp/a b.txt")], and then with a new file at the
    original path. *)
Definition worldTrashed : World :=
  snd (Trash.Trash "/tmp/a b.txt" (world0 nothingDenied)).

Definition worldOccupied : World :=
  snd (WriteFile "/tmp/a b.txt" "new file" 420 worldTrashed).

Definition itemAB : Trash.TrashItem :=
  Trash.mkItem "a b.txt" "/tmp/a b.txt" (Time.mk 1730347200 0 0)
    "/home/u/.local/share/Trash/info/a b.txt.trashinfo"
    "/home/u/.local/share/Trash/files/a b.txt"
    "/home/u/.local/share/Trash".

(** An environment that refuses one call. *)
Definition deny (c : Call) (e : Errno) : Call -> option Errno :=
  fun c' => if bool_decide (c' = c) then Some e else None.

(** The trashed file again, in an environment where the metadata
    record cannot be removed. *)
Definition worldStuckInfo : World :=
  snd (Trash.Trash "/tmp/a b.txt"
         (world0 (deny (CRemove "/home/u/.local/share/Trash/info/a b.txt.trashinfo")
                       EACCES))).

(** An environment that refuses the calls of a list. *)
Definition denyEach (l : list (Call * Errno)) : Call -> option Errno :=
  fun c => snd <$> find (fun ce => bool_decide (fst ce = c)) l.

(** The drive is mounted read-only and holds an empty directory:
    nothing can be created or removed on it. *)
Definition worldReadOnlyDrive : World :=
  mkWorld (<[ ["mnt"; "usb"; "empty"] := dir 2 ]> tree0) [] 0 fresh
    (envWith (denyEach [(CMkdirAll "/mnt/usb/.Trash-1000" 448, EROFS);
                        (CRemoveAll "/mnt/usb/empty", EROFS);
                        (CRemove "/mnt/usb/x", EROFS)])).

Definition homeFiles (name : string) : list string :=
  ["home"; "u"; ".local"; "share"; "Trash"; "files"; name].

Definition homeInfo (name : string) : list string :=
  ["home"; "u"; ".local"; "share"; "Trash"; "info"; name].

Definition worldReadOnlyReady : World :=
  snd (Trash.ensureInitialized worldReadOnlyDrive).

(** No room is left on the drive for a new file. *)
Definition worldFullDrive : World :=
  world0 (deny (CCreate "/mnt/usb/.Trash-1000/info/x.trashinfo") ENOSPC).

(** Two files in the trash: one under the home root, one under the
    root of the drive. *)
Definition worldTwoRoots : World :=
  snd (Trash.Trash "/mnt/usb/x" worldTrashed).

(** The trashed file again, in an environment where the data object
    cannot be removed from the trash. *)
Definition worldStuckFile : World :=
  snd (Trash.Trash "/tmp/a b.txt"
         (world0 (deny (CRemoveAll "/home/u/.local/share/Trash/files/a b.txt")
                       EACCES))).

Definition itemX : Trash.TrashItem :=
  Trash.mkItem "x" "/mnt/usb/x" (Time.mk 1730347200 0 0)
    "/mnt/usb/.Trash-1000/info/x.trashinfo"
    "/mnt/usb/.Trash-1000/files/x"
    "/mnt/usb/.Trash-1000".

(** The trashed file again, and a symbolic link on the drive. *)
Definition worldLink : World :=
  mkWorld (<[ ["mnt"; "usb"; "lnk"] := mkNode KSymlink 511 clock "dir/y" 2 ]>
             (fs worldTrashed))
          [] 0 (pkg worldTrashed) (envWith nothingDenied).

(** A symbolic link on the drive that leads nowhere. *)
Definition worldBroken : World :=
  mkWorld (<[ ["mnt"; "usb"; "broken"] := mkNode KSymlink 511 clock "gone" 2 ]>
             tree0)
          [] 0 fresh (envWith nothingDenied).

(** The home trash cannot be made. *)
Definition worldNoHomeTrash : World :=
  world0 (deny (CMkdirAll "/home/u/.local/share/Trash/files" 448) EACCES).

(** The trashed file again, where [/proc/mounts] cannot be opened. *)
Definition worldNoMounts : World :=
  mkWorld (fs worldTrashed) [] 0 (pkg worldTrashed)
    (mkEnv [] nothingDenied 2 clock "/home/u" "" (Some ("1000", "/home/u"))
           1000 None (fun n => ascii_of_nat (n + 171))).

End Sample.


(** ** Further notions the properties of the other functions are stated with *)

Module Aux2.

(** The three octal digits of a byte, as [/proc/mounts] spells an
    escaped byte after the backslash. *)
Definition octalDigit (k : nat) : ascii := ascii_of_nat (48 + k).

Definition octal3 (c : ascii) : string :=
  let n := nat_of_ascii c in
  String (octalDigit (n / 64))
    (String (octalDigit (n / 8 mod 8)) (String (octalDigit (n mod 8)) "")).

(** The escaping that [unescapeMountPoint] undoes: the bytes [esc]
    selects are written as a backslash and three octal digits. *)
Fixpoint octalEscape (esc : ascii -> bool) (s : string) : string :=
  match s with
  | EmptyString => EmptyString
  | String c s' =>
      if esc c then String "\" (octal3 c +:+ octalEscape esc s')
      else String c (octalEscape esc s')
  end.

Definition notBackslash (c : ascii) : bool := negb (Ascii.eqb c "\").

(** The package is initialised, with success. *)
Definition ready (w : OS.World) : Prop :=
  OS.initDone (OS.pkg w) = true /\ OS.initErr (OS.pkg w) = None.

(** The path leads, through symbolic links if need be, to a
    directory: what [Stat] finds when it is not refused. *)
Definition leadsToDir (e : OS.Env) (m : gmap (list string) OS.Node)
    (p : string) : Prop :=
  exists q n,
    OS.follow OS.maxLinks e m (OS.resolve e p) = inr (q, n) /\
    OS.IsDir n = true.

(** An item as [listTrashDir] makes it from a record of the trash
    directory [trashDir]. *)
Definition listedFrom (trashDir : string) (item : Trash.TrashItem) : Prop :=
  Trash.TrashDir item = trashDir /\
  Trash.OriginalPath item <> "" /\
  Trash.Name item =
    Strings.TrimSuffix (Filepath.Base (Trash.InfoPath item)) ".trashinfo" /\
  Trash.FilePath item = Filepath.Join [trashDir; "files"; Trash.Name item] /\
  exists entry,
    Strings.HasSuffix entry ".trashinfo" = true /\
    Trash.InfoPath item =
      Filepath.Join [Filepath.Join [trashDir; "info"]; entry].

(** An item of the home trash, or of the trash of a mount point other
    than the root. *)
Definition listedIn (w : OS.World) (item : Trash.TrashItem) : Prop :=
  listedFrom (OS.homeTrash (OS.pkg w)) item \/
  exists mounts mount,
    fst (Mount.getMountPoints w) = inr mounts /\
    In mount mounts /\ mount <> "/" /\
    listedFrom (Trash.mountTrash mount (OS.uid (OS.pkg w))) item.

(** Where the record of a name is kept in a trash directory. *)
Definition recordPath (trashDir name : string) : string :=
  Filepath.Join [trashDir; "info"; name +:+ ".trashinfo"].

(** No trash directory the package looks at holds a record of the
    name, as [Stat] sees. *)
Definition noRecord (w : OS.World) (name : string) : Prop :=
  (exists e,
     fst (OS.Stat (recordPath (OS.homeTrash (OS.pkg w)) name) w) = inl e) /\
  forall mounts mount,
    fst (Mount.getMountPoints w) = inr mounts ->
    In mount mounts -> mount <> "/" ->
    exists e,
      fst (OS.Stat (recordPath (Trash.mountTrash mount (OS.uid (OS.pkg w))) name) w)
      = inl e.

(** [k] is strictly below [q]. *)
Definition strictlyBelow (q k : list string) : Prop :=
  exists name rest, k = q ++ name :: rest.

(** [k] is strictly below the [files] or the [info] directory of the
    trash directory [root]. *)
Definition insideRoot (e : OS.Env) (root : string) (k : list string) : Prop :=
  strictlyBelow (OS.resolve e (Filepath.Join [root; "files"])) k \/
  strictlyBelow (OS.resolve e (Filepath.Join [root; "info"])) k.

(** The trash directories the package looks at. *)
Definition trashRoot (w : OS.World) (root : string) : Prop :=
  root = OS.homeTrash (OS.pkg w) \/
  exists mounts mount,
    fst (Mount.getMountPoints w) = inr mounts /\
    In mount mounts /\ mount <> "/" /\
    root = Trash.mountTrash mount (OS.uid (OS.pkg w)).

Definition insideTrash (w : OS.World) (k : list string) : Prop :=
  exists root, trashRoot w root /\ insideRoot (OS.env w) root k.

(** From [w] to [w'] nothing was added or changed, and only paths
    that [P] holds of were removed. *)
Definition removesOnly (P : list string -> Prop) (w w' : OS.World) : Prop :=
  Aux.shrinks w w' /\
  forall k n, OS.fs w !! k = Some n -> OS.fs w' !! k = Some n \/ P k.

(** The names [uniqueTrashName] tries, in order: the base name, then
    the base name with [_1], [_2], ... put before its extension. *)
Definition linuxCandidate (trashDir origName : string) (i : nat) : string :=
  let base := Filepath.Base origName in
  match i with
  | O => Filepath.Join [trashDir; base]
  | S _ =>
      let ext := Filepath.Ext base in
      Filepath.Join
        [trashDir;
         Strings.TrimSuffix base ext +:+ "_" +:+
         Time.appendInt (Z.of_nat i) 0 +:+ ext]
  end.

(** The path [createTrashInfoFile] writes in the record. *)
Definition absOf (w : OS.World) (path : string) : string :=
  match fst (OS.Abs path w) with inr p => p | inl _ => "" end.

Definition plainForQuery (c : ascii) : bool :=
  negb (Ascii.eqb c "%" || Ascii.eqb c "+").

End Aux2.


Import Aux.

(** * Properties *)

(** ** Strings and percent-escaping *)

Section StringFacts.

Lemma app_cons (x : ascii) (a b : string) :
  String x a +:+ b = String x (a +:+ b).
Proof. reflexivity. Qed.

Lemma app_nil_l (b : string) : "" +:+ b = b.
Proof. reflexivity. Qed.

Lemma append_assoc (a b c : string) : (a +:+ b) +:+ c = a +:+ (b +:+ c).
Proof.
  induction a as [|x a IH]; [reflexivity|].
  rewrite !app_cons, IH. reflexivity.
Qed.

Lemma append_nil_r (a : string) : a +:+ "" = a.
Proof.
  induction a as [|x a IH]; [reflexivity|]. rewrite app_cons, IH. reflexivity.
Qed.

Lemma ReplacePlus_app (a b : string) :
  Strings.ReplacePlus (a +:+ b) = Strings.ReplacePlus a +:+ Strings.ReplacePlus b.
Proof.
  induction a as [|x a IH]; [reflexivity|].
  rewrite app_cons. cbn [Strings.ReplacePlus].
  destruct (Ascii.eqb x "+"); rewrite IH, ?app_cons, ?app_nil_l; reflexivity.
Qed.

Lemma encode_cons (c : ascii) (s : string) :
  Strings.ReplacePlus (URL.QueryEscape (String c s)) =
  encodeByte c +:+ Strings.ReplacePlus (URL.QueryEscape s).
Proof.
  unfold encodeByte. cbn [URL.QueryEscape].
  destruct (Ascii.eqb c " "); [reflexivity|].
  destruct (URL.shouldEscape c).
  - rewrite !ReplacePlus_app. cbn [Strings.ReplacePlus].
    now rewrite append_nil_r.
  - cbn [Strings.ReplacePlus]. destruct (Ascii.eqb c "+"); reflexivity.
Qed.

Lemma unescape_encodeByte (c : ascii) (rest : string) :
  URL.QueryUnescape (encodeByte c +:+ rest) =
  match URL.QueryUnescape rest with
  | Some r => Some (String c r)
  | None => None
  end.
Proof.
  destruct c as [[] [] [] [] [] [] [] []];
    match goal with
    | |- context [encodeByte ?c] =>
        let e := eval vm_compute in (encodeByte c) in
        change (encodeByte c) with e
    end;
    rewrite ?app_cons, ?app_nil_l; cbn;
    destruct (URL.QueryUnescape rest); reflexivity.
Qed.

Lemma QueryUnescape_escape (s : string) :
  URL.QueryUnescape (Strings.ReplacePlus (URL.QueryEscape s)) = Some s.
Proof.
  induction s as [|c s IH]; [reflexivity|].
  rewrite encode_cons, unescape_encodeByte, IH. reflexivity.
Qed.

Lemma allBytes_app P (a b : string) :
  allBytes P (a +:+ b) = allBytes P a && allBytes P b.
Proof.
  induction a as [|x a IH]; [reflexivity|].
  rewrite app_cons. cbn [allBytes]. rewrite IH. now rewrite andb_assoc.
Qed.

Lemma encodeByte_plain (c : ascii) : allBytes plainByte (encodeByte c) = true.
Proof. destruct c as [[] [] [] [] [] [] [] []]; reflexivity. Qed.

Lemma encoded_plain (s : string) :
  allBytes plainByte (Strings.ReplacePlus (URL.QueryEscape s)) = true.
Proof.
  induction s as [|c s IH]; [reflexivity|].
  rewrite encode_cons, allBytes_app, encodeByte_plain, IH. reflexivity.
Qed.

Lemma plainByte_not (c : ascii) :
  plainByte c = true ->
  Ascii.eqb c Strings.newline = false /\ Ascii.eqb c " " = false /\
  Ascii.eqb c "+" = false.
Proof.
  destruct c as [[] [] [] [] [] [] [] []]; vm_compute;
    intuition congruence.
Qed.

Lemma SplitLines_nonempty (s : string) : Strings.SplitLines s <> [].
Proof.
  destruct s as [|c s]; simpl; [discriminate|].
  destruct (Ascii.eqb c Strings.newline); [discriminate|].
  destruct (Strings.SplitLines s); discriminate.
Qed.

(** A piece without newline, then a newline: the first line. *)
Lemma SplitLines_line (a rest : string) :
  allBytes notNewline a = true ->
  Strings.SplitLines (a +:+ String Strings.newline rest) =
  a :: Strings.SplitLines rest.
Proof.
  induction a as [|x a IH]; intros H.
  - reflexivity.
  - simpl in H. apply andb_true_iff in H as [Hx Ha].
    rewrite app_cons.
    cbn [Strings.SplitLines]. rewrite (IH Ha).
    unfold notNewline in Hx. apply negb_true_iff in Hx. rewrite Hx.
    reflexivity.
Qed.

Lemma allBytes_impl (P Q : ascii -> bool) (s : string) :
  (forall c, P c = true -> Q c = true) ->
  allBytes P s = true -> allBytes Q s = true.
Proof.
  intros HPQ. induction s as [|c s IH]; simpl; [reflexivity|].
  intros H. apply andb_true_iff in H as [Hc Hs].
  rewrite (HPQ _ Hc), (IH Hs). reflexivity.
Qed.

Lemma encoded_no_newline (s : string) :
  allBytes notNewline (Strings.ReplacePlus (URL.QueryEscape s)) = true.
Proof.
  apply (allBytes_impl plainByte); [|apply encoded_plain].
  intros c Hc. unfold notNewline. now destruct (plainByte_not c Hc) as [-> _].
Qed.

Lemma QueryUnescape_empty (v : string) :
  URL.QueryUnescape v = Some "" -> v = "".
Proof.
  destruct v as [|c v]; [reflexivity|]. simpl.
  destruct (Ascii.eqb c "%").
  - destruct v as [|h [|l rest]]; try discriminate.
    destruct (URL.unhex h), (URL.unhex l), (URL.QueryUnescape rest); discriminate.
  - destruct (URL.QueryUnescape v); discriminate.
Qed.

End StringFacts.


(** ** Dates: formatting and parsing are inverse *)

Section TimeFacts.

Lemma allFrom_spec (n : nat) (f : Z -> bool) (start : Z) :
  allFrom n f start = true ->
  forall z, start <= z < start + Z.of_nat n -> f z = true.
Proof.
  revert start. induction n as [|n IH]; intros start H z Hz; [lia|].
  cbn [allFrom] in H. apply andb_true_iff in H as [H0 H1].
  destruct (Z.eq_dec z start) as [->|Hne]; [exact H0|].
  apply (IH (start + 1) H1). lia.
Qed.

Lemma twoDigits_all : allFrom 100 twoDigitsOk 0 = true.
Proof. vm_compute. reflexivity. Qed.

Lemma fourDigits_all : allFrom (Z.to_nat 10000) fourDigitsOk 0 = true.
Proof. vm_compute. reflexivity. Qed.

Lemma getnum_appendInt (n : Z) (fixed : bool) (rest : string) :
  0 <= n < 100 ->
  Time.getnum (Time.appendInt n 2 +:+ rest) fixed = Some (n, rest).
Proof.
  intros Hn.
  pose proof (allFrom_spec _ _ _ twoDigits_all n ltac:(lia)) as H.
  unfold twoDigitsOk in H.
  destruct (Time.appendInt n 2) as [|a [|b [|? ?]]]; try discriminate.
  apply andb_true_iff in H as [H Hv]. apply andb_true_iff in H as [Ha Hb].
  apply Z.eqb_eq in Hv.
  rewrite !app_cons, app_nil_l. cbn [Time.getnum]. rewrite Ha, Hb, Hv.
  reflexivity.
Qed.

Lemma getyear_appendInt (y : Z) (rest : string) :
  0 <= y < 10000 ->
  Time.getyear (Time.appendInt y 4 +:+ rest) = Some (y, rest).
Proof.
  intros Hy.
  pose proof (allFrom_spec _ _ _ fourDigits_all y ltac:(lia)) as H.
  unfold fourDigitsOk in H.
  destruct (Time.appendInt y 4) as [|a [|b [|c [|d [|? ?]]]]]; try discriminate.
  apply andb_true_iff in H as [H Hval]. apply Z.eqb_eq in Hval.
  rewrite !app_cons, app_nil_l. cbn [Time.getyear].
  rewrite H, Hval. reflexivity.
Qed.

Lemma civil_all : allFrom (Z.to_nat 146097) civilOk 0 = true.
Proof. vm_compute. reflexivity. Qed.

Lemma isLeap_era (y era : Z) : Time.isLeap (y + era * 400) = Time.isLeap y.
Proof.
  unfold Time.isLeap.
  replace (y + era * 400) with (y + (era * 100) * 4) at 1 by lia.
  replace (y + era * 400) with (y + (era * 4) * 100) at 1 by lia.
  rewrite !Z.mod_add by lia. reflexivity.
Qed.

Lemma daysIn_era (m y era : Z) :
  Time.daysIn m (y + era * 400) = Time.daysIn m y.
Proof. unfold Time.daysIn. now rewrite isLeap_era. Qed.

Lemma civilFromDays_inverse (z y m d : Z) :
  Time.civilFromDays z = (y, m, d) ->
  Time.daysFromCivil y m d = z /\
  1 <= m <= 12 /\ 1 <= d <= Time.daysIn m y.
Proof.
  unfold Time.civilFromDays.
  set (z' := z + 719468). set (era := z' / 146097).
  set (doe := z' - era * 146097).
  assert (Hdoe : 0 <= doe < 146097).
  { subst doe era. pose proof (Z.mod_pos_bound z' 146097 ltac:(lia)).
    rewrite Z.mod_eq in H by lia. lia. }
  pose proof (allFrom_spec _ _ _ civil_all doe ltac:(lia)) as Hok.
  unfold civilOk in Hok.
  destruct (Time.civilOfDoe doe) as [[yy m0] d0].
  intros Heq. injection Heq as <- <- <-.
  repeat (apply andb_true_iff in Hok as [Hok ?]).
  repeat match goal with
         | H : (_ <=? _) = true |- _ => apply Z.leb_le in H
         | H : (_ =? _) = true |- _ => apply Z.eqb_eq in H
         end.
  rewrite daysIn_era. split; [|lia].
  unfold Time.daysFromCivil.
  set (yoe := if m0 <=? 2 then yy - 1 else yy) in *.
  replace (if m0 <=? 2 then yy + era * 400 - 1 else yy + era * 400)
    with (yoe + era * 400) by (subst yoe; destruct (m0 <=? 2); lia).
  rewrite Z.div_add by lia. rewrite (Z.div_small yoe 400) by lia.
  replace (yoe + era * 400 - (0 + era) * 400) with yoe by lia.
  subst doe z'. lia.
Qed.

Lemma civilFromDays_year (z y m d : Z) :
  -719528 <= z < 2932897 ->
  Time.civilFromDays z = (y, m, d) -> 0 <= y < 10000.
Proof.
  intros Hz. unfold Time.civilFromDays.
  set (z' := z + 719468). set (era := z' / 146097).
  set (doe := z' - era * 146097).
  assert (Hdoe : 0 <= doe < 146097).
  { subst doe era. pose proof (Z.mod_pos_bound z' 146097 ltac:(lia)).
    rewrite Z.mod_eq in H by lia. lia. }
  assert (Hera : -1 <= era <= 24).
  { subst era z'. split.
    - apply Z.div_le_lower_bound; lia.
    - apply Z.lt_succ_r. apply Z.div_lt_upper_bound; lia. }
  pose proof (allFrom_spec _ _ _ civil_all doe ltac:(lia)) as Hok.
  unfold civilOk in Hok.
  destruct (Time.civilOfDoe doe) as [[yy m0] d0].
  intros Heq. injection Heq as <- <- <-.
  repeat (apply andb_true_iff in Hok as [Hok ?]).
  match goal with H : Bool.eqb _ _ = true |- _ => apply eqb_prop in H; rename H into Hedge end.
  repeat match goal with
         | H : (_ <=? _) = true |- _ => apply Z.leb_le in H
         end.
  destruct (Z.leb_spec 146037 doe) as [Hd|Hd].
  - apply Z.eqb_eq in Hedge. subst doe z'. lia.
  - apply Z.eqb_neq in Hedge. subst doe z'. lia.
Qed.

(** The instant read back from the stamp of an instant: the same,
    without its fraction of a second and in UTC. *)
Lemma Parse_Format (s ns : Z) :
  -62167219200 <= s < 253402300800 ->
  Time.Parse (Time.Format (Time.mk s ns 0)) = Some (Time.mk s 0 0).
Proof.
  intros Hs. unfold Time.Format. cbn [Time.unixSec Time.zoneOffset].
  rewrite Z.add_0_r.
  set (days := s / 86400). set (sod := s mod 86400).
  assert (Hsod : 0 <= sod < 86400) by (apply Z.mod_pos_bound; lia).
  assert (Hsplit : s = days * 86400 + sod).
  { subst days sod. rewrite Z.mod_eq by lia. lia. }
  assert (Hdays : -719528 <= days < 2932897) by lia.
  destruct (Time.civilFromDays days) as [[y m] d] eqn:Hc.
  destruct (civilFromDays_inverse _ _ _ _ Hc) as (Hinv & Hm & Hd).
  pose proof (civilFromDays_year _ _ _ _ Hdays Hc) as Hy.
  assert (Hd31 : Time.daysIn m y <= 31).
  { unfold Time.daysIn.
    repeat match goal with |- context [if ?b then _ else _] => destruct b end; lia. }
  set (hh := sod / 3600). set (mi := sod mod 3600 / 60). set (ss := sod mod 60).
  assert (Hhh : 0 <= hh < 24).
  { subst hh. split; [apply Z.div_pos; lia | apply Z.div_lt_upper_bound; lia]. }
  assert (Hmi : 0 <= mi < 60).
  { subst mi. pose proof (Z.mod_pos_bound sod 3600 ltac:(lia)).
    split; [apply Z.div_pos; lia | apply Z.div_lt_upper_bound; lia]. }
  assert (Hss : 0 <= ss < 60) by (apply Z.mod_pos_bound; lia).
  assert (Hclock : hh * 3600 + mi * 60 + ss = sod).
  { subst hh mi ss. clearbody sod. clear -Hsod.
    Z.div_mod_to_equations. lia. }
  unfold Time.Parse.
  rewrite getyear_appendInt by exact Hy. cbn [Time.bind].
  rewrite app_cons, app_nil_l. cbn [Time.expect]. rewrite Ascii.eqb_refl.
  cbn [Time.bind].
  rewrite getnum_appendInt by lia. cbn [Time.bind].
  replace ((m <=? 0) || (12 <? m)) with false
    by (symmetry; apply orb_false_iff; split; [apply Z.leb_gt | apply Z.ltb_ge]; lia).
  rewrite app_cons, app_nil_l. cbn [Time.expect]. rewrite Ascii.eqb_refl.
  cbn [Time.bind].
  rewrite getnum_appendInt by lia. cbn [Time.bind].
  rewrite app_cons, app_nil_l. cbn [Time.expect]. rewrite Ascii.eqb_refl.
  cbn [Time.bind].
  rewrite getnum_appendInt by lia. cbn [Time.bind].
  replace (24 <=? hh) with false by (symmetry; apply Z.leb_gt; lia).
  rewrite app_cons, app_nil_l. cbn [Time.expect]. rewrite Ascii.eqb_refl.
  cbn [Time.bind].
  rewrite getnum_appendInt by lia. cbn [Time.bind].
  replace (60 <=? mi) with false by (symmetry; apply Z.leb_gt; lia).
  rewrite app_cons, app_nil_l. cbn [Time.expect]. rewrite Ascii.eqb_refl.
  cbn [Time.bind].
  rewrite <- (append_nil_r (Time.appendInt ss 2)).
  rewrite getnum_appendInt by lia. cbn [Time.bind].
  replace (60 <=? ss) with false by (symmetry; apply Z.leb_gt; lia).
  cbn [Time.fraction].
  replace ((d <? 1) || (Time.daysIn m y <? d)) with false
    by (symmetry; apply orb_false_iff; split; apply Z.ltb_ge; lia).
  rewrite Hinv. f_equal. f_equal. lia.
Qed.

(** The stamp is made of digits, dashes, colons and a [T]. *)
Lemma digit_no_newline (n : Z) : notNewline (Time.digit n) = true.
Proof.
  unfold Time.digit.
  assert (H : (Z.to_nat (n mod 10) < 10)%nat).
  { pose proof (Z.mod_pos_bound n 10 ltac:(lia)). lia. }
  destruct (Z.to_nat (n mod 10)) as [|[|[|[|[|[|[|[|[|[|k]]]]]]]]]];
    try reflexivity. lia.
Qed.

Lemma digitsFuel_no_newline (fuel : nat) (n : Z) (acc : string) :
  allBytes notNewline acc = true ->
  allBytes notNewline (Time.digitsFuel fuel n acc) = true.
Proof.
  revert n acc. induction fuel as [|f IH]; intros n acc H; [exact H|].
  cbn [Time.digitsFuel].
  assert (H' : allBytes notNewline (String (Time.digit n) acc) = true).
  { cbn [allBytes]. now rewrite digit_no_newline, H. }
  destruct (n <? 10); [exact H' | now apply IH].
Qed.

Lemma zeros_no_newline (k : nat) : allBytes notNewline (Time.zeros k) = true.
Proof. induction k as [|k IH]; [reflexivity|]. cbn. exact IH. Qed.

Lemma appendInt_no_newline (x : Z) (w : nat) :
  allBytes notNewline (Time.appendInt x w) = true.
Proof.
  unfold Time.appendInt. rewrite !allBytes_app.
  rewrite zeros_no_newline.
  unfold Time.itoa. rewrite digitsFuel_no_newline by reflexivity.
  destruct (x <? 0); reflexivity.
Qed.

Lemma Format_no_newline (t : Time.t) :
  allBytes notNewline (Time.Format t) = true.
Proof.
  unfold Time.Format.
  destruct (Time.civilFromDays _) as [[y m] d].
  rewrite !allBytes_app, !appendInt_no_newline. reflexivity.
Qed.

End TimeFacts.


(** ** The metadata record: [writeTrashInfo] and [parseTrashInfo] *)

Section Record.
Import OS Trash.

Lemma specEscape_eq (s : string) :
  Strings.ReplacePlus (URL.QueryEscape s) = specEscape s.
Proof.
  induction s as [|c s IH]; [reflexivity|].
  rewrite encode_cons, IH. cbn [specEscape]. f_equal.
  destruct c as [[] [] [] [] [] [] [] []]; reflexivity.
Qed.

Lemma trashInfoContent_record (originalPath : string) (t : Time.t) :
  trashInfoContent originalPath t =
  record (specEscape originalPath) (Time.Format (Time.mk (Time.unixSec t) 0 0)).
Proof. unfold trashInfoContent, record. now rewrite specEscape_eq. Qed.

Lemma specEscape_no_newline (s : string) :
  allBytes notNewline (specEscape s) = true.
Proof. rewrite <- specEscape_eq. apply encoded_no_newline. Qed.

Lemma specEscape_noBlankNoPlus (s : string) :
  allBytes noBlankNoPlus (specEscape s) = true.
Proof.
  rewrite <- specEscape_eq.
  apply (allBytes_impl plainByte); [|apply encoded_plain].
  intros c Hc. destruct (plainByte_not c Hc) as (_ & Hb & Hp).
  unfold noBlankNoPlus. now rewrite Hb, Hp.
Qed.

Lemma record_lines (enc stamp : string) :
  allBytes notNewline enc = true ->
  allBytes notNewline stamp = true ->
  Strings.SplitLines (record enc stamp) =
  ["[Trash Info]"; "Path=" +:+ enc; "DeletionDate=" +:+ stamp; ""].
Proof.
  intros He Hs. unfold record.
  rewrite SplitLines_line by reflexivity.
  rewrite <- append_assoc.
  rewrite SplitLines_line by (rewrite allBytes_app, He; reflexivity).
  rewrite <- append_assoc.
  rewrite SplitLines_line by (rewrite allBytes_app, Hs; reflexivity).
  reflexivity.
Qed.

Lemma WriteFile_spec (p content : string) (mode : Z) (w : World) :
  exists res,
    log (snd (WriteFile p content mode w)) =
      log w ++ [(CWriteFile p content mode, res)] /\
    env (snd (WriteFile p content mode w)) = env w /\
    pkg (snd (WriteFile p content mode w)) = pkg w /\
    (fst (WriteFile p content mode w) = None ->
     exists n,
       fs (snd (WriteFile p content mode w)) =
         <[resolve (env w) p := n]> (fs w) /\
       kind n = KFile /\ data n = content /\
       (fs w !! resolve (env w) p = None -> perm n = mode)).
Proof.
  unfold WriteFile, errOnly, call.
  destruct (denied (env w) (CWriteFile p content mode)) as [e|].
  { eexists. cbn. repeat split; try reflexivity. discriminate. }
  unfold createTrunc.
  destruct (fs w !! resolve (env w) p) as [n|] eqn:Hq.
  - destruct (kind n); cbn;
      (eexists; repeat split; try reflexivity; try discriminate).
    intros _. eexists. repeat split; try reflexivity. discriminate.
  - destruct (parentIsDir (fs w) (resolve (env w) p)) as [e|pn]; cbn;
      (eexists; repeat split; try reflexivity; try discriminate).
    intros _. eexists. repeat split; reflexivity.
Qed.

Lemma ReadFile_file (p : string) (w : World) (n : Node) :
  denied (env w) (CReadFile p) = None ->
  fs w !! resolve (env w) p = Some n ->
  kind n = KFile ->
  ReadFile p w = (inr (data n), pushLog w (CReadFile p) None).
Proof.
  intros Hd Hq Hk. unfold ReadFile, call. rewrite Hd.
  unfold maxLinks. cbn [follow]. rewrite Hq, Hk.
  unfold IsDir. rewrite Hk. cbn. unfold setFs, pushLog. now destruct w.
Qed.

Lemma lastField_snoc (key : string) (ls : list string) (x : string) :
  lastField key (ls ++ [x]) =
  if Strings.HasPrefix x key then Some (Strings.TrimPrefix x key)
  else lastField key ls.
Proof. unfold lastField. rewrite fold_left_app. reflexivity. Qed.

Lemma path_line_no_date (x : string) :
  Strings.HasPrefix x "Path=" = true ->
  Strings.HasPrefix x "DeletionDate=" = false.
Proof.
  destruct x as [|c x]; [discriminate|].
  unfold Strings.HasPrefix. cbn [String.prefix].
  destruct (ascii_dec "P" c) as [<-|]; [|discriminate].
  intros _. reflexivity.
Qed.

(** What the loop of [parseTrashInfo] leaves in its two variables. *)
Lemma fold_parseLine (ls : list string) (acc : string * Time.t) :
  fold_left parseLine ls acc =
  (match lastField "Path=" ls with
   | None => fst acc
   | Some v => match URL.QueryUnescape v with Some p => p | None => "" end
   end,
   match lastField "DeletionDate=" ls with
   | None => snd acc
   | Some v => match Time.Parse v with Some t => t | None => Time.zero end
   end).
Proof.
  induction ls as [|x ls IH] using rev_ind.
  - destruct acc; reflexivity.
  - rewrite fold_left_app. cbn [fold_left]. rewrite IH.
    rewrite !lastField_snoc. unfold parseLine.
    destruct (Strings.HasPrefix x "Path=") eqn:Hp.
    + rewrite (path_line_no_date x Hp). cbn [snd].
      destruct (URL.QueryUnescape _); reflexivity.
    + destruct (Strings.HasPrefix x "DeletionDate="); cbn [fst];
        [destruct (Time.Parse _)|]; reflexivity.
Qed.

Lemma parseContent_spec (content : string) :
  parseContent content =
  if (List.length (Strings.SplitLines content) <? 3)%nat ||
     negb (String.eqb (nth 0 (Strings.SplitLines content) "") "[Trash Info]")
  then inl ErrInvalidTrashInfo
  else
    match pathField content with
    | None => inl ErrInvalidTrashInfo
    | Some v =>
        match URL.QueryUnescape v with
        | None => inl ErrInvalidTrashInfo
        | Some p =>
            if String.eqb p "" then inl ErrInvalidTrashInfo
            else inr (p, dateOf (dateField content))
        end
    end.
Proof.
  unfold parseContent, pathField, dateField, dateOf.
  destruct (_ || _); [reflexivity|].
  rewrite fold_parseLine. cbn [fst snd].
  destruct (lastField "Path=" _) as [v|]; [|reflexivity].
  destruct (URL.QueryUnescape v) as [p|]; reflexivity.
Qed.

(** When [parseContent] fails: the four cases of the specification. *)
Lemma parseContent_invalid (content : string) :
  parseContent content = inl ErrInvalidTrashInfo <->
  nth 0 (Strings.SplitLines content) "" <> "[Trash Info]" \/
  (List.length (Strings.SplitLines content) < 3)%nat \/
  pathAbsent content \/ pathUnparsable content.
Proof.
  rewrite parseContent_spec. unfold pathAbsent, pathUnparsable.
  destruct (Nat.ltb_spec (List.length (Strings.SplitLines content)) 3) as [Hl|Hl].
  { cbn [orb]. split; [intros _; right; left; exact Hl | reflexivity]. }
  cbn [orb].
  destruct (String.eqb_spec (nth 0 (Strings.SplitLines content) "") "[Trash Info]")
    as [Hh|Hh]; cbn [negb].
  2:{ split; [intros _; left; exact Hh | reflexivity]. }
  destruct (pathField content) as [v|].
  2:{ split; [intros _; right; right; left; left; reflexivity | reflexivity]. }
  destruct (URL.QueryUnescape v) as [p|] eqn:Hu.
  2:{ split; [|reflexivity]. intros _. right; right; right.
      exists v. split; [reflexivity | exact Hu]. }
  destruct (String.eqb_spec p "") as [->|Hp].
  - split; [|reflexivity]. intros _. right; right; left; right.
    now rewrite (QueryUnescape_empty v Hu).
  - split; [discriminate|].
    intros [H|[H|[[H|H]|(v' & H & Hv')]]].
    + contradiction.
    + lia.
    + discriminate.
    + injection H as ->. cbn in Hu. injection Hu as <-. contradiction.
    + injection H as <-. congruence.
Qed.

Lemma parseContent_error (content : string) (e : error) :
  parseContent content = inl e -> e = ErrInvalidTrashInfo.
Proof.
  rewrite parseContent_spec.
  repeat match goal with
         | |- context [if ?b then _ else _] => destruct b
         | |- context [match ?o with Some _ => _ | None => _ end] => destruct o
         end; congruence.
Qed.

Lemma parseContent_date (content p : string) (t : Time.t) :
  parseContent content = inr (p, t) -> t = dateOf (dateField content).
Proof.
  rewrite parseContent_spec.
  repeat match goal with
         | |- context [if ?b then _ else _] => destruct b
         | |- context [match ?o with Some _ => _ | None => _ end] => destruct o
         end; congruence.
Qed.

(** C2, as the code has it. [writeTrashInfo] makes one call: it writes,
    with mode 0600, a record of exactly three lines, each ended by a
    newline: the header, the original path percent-escaped (no blank
    and no plus sign in it, a blank being [%20]), and the deletion
    time as the UTC date and time of the instant, whole seconds, no
    offset. A file this call creates has mode 0600 and holds the
    record. *)
Theorem C2_writeTrashInfo_record
    (infoPath originalPath : string) (t : Time.t) (w : World) :
  let stamp := Time.Format (Time.mk (Time.unixSec t) 0 0) in
  let content := record (specEscape originalPath) stamp in
  (exists res,
     log (snd (writeTrashInfo infoPath originalPath t w)) =
     log w ++ [(CWriteFile infoPath content 384, res)]) /\
  Strings.SplitLines content =
    ["[Trash Info]"; "Path=" +:+ specEscape originalPath;
     "DeletionDate=" +:+ stamp; ""] /\
  allBytes noBlankNoPlus (specEscape originalPath) = true /\
  (fs w !! resolve (env w) infoPath = None ->
   fst (writeTrashInfo infoPath originalPath t w) = None ->
   exists n,
     fs (snd (writeTrashInfo infoPath originalPath t w))
       !! resolve (env w) infoPath = Some n /\
     kind n = KFile /\ perm n = 384 /\ data n = content).
Proof.
  intros stamp content. unfold writeTrashInfo.
  rewrite trashInfoContent_record. fold stamp. fold content.
  destruct (WriteFile_spec infoPath content 384 w)
    as (res & Hlog & _ & _ & Hok).
  split; [exists res; exact Hlog|].
  split; [apply record_lines; [apply specEscape_no_newline
                              | apply Format_no_newline]|].
  split; [apply specEscape_noBlankNoPlus|].
  intros Hfree Hnone. destruct (Hok Hnone) as (n & Hfs & Hk & Hd & Hp).
  exists n. rewrite Hfs, lookup_insert_eq. auto.
Qed.

Lemma C2_writeTrashInfo_record_witness :
  exists n,
    fs (snd (writeTrashInfo "/tmp/new.trashinfo" "/tmp/a b.txt" Sample.clock
               (Sample.world0 Sample.nothingDenied)))
      !! ["tmp"; "new.trashinfo"] = Some n /\
    kind n = KFile /\ perm n = 384 /\
    data n = record "%2Ftmp%2Fa%20b.txt" "2024-10-31T04:00:00".
Proof.
  apply (C2_writeTrashInfo_record "/tmp/new.trashinfo" "/tmp/a b.txt"
           Sample.clock (Sample.world0 Sample.nothingDenied));
    vm_compute; reflexivity.
Defined.

(** C2 as the specification words it fails: for a clock one hour east
    of UTC the record carries the UTC time, not the local time. *)
Lemma C2_local_time_counterexample :
  trashInfoContent "/a" (Time.mk 0 0 3600) <>
  specTrashInfoContent "/a" (Time.mk 0 0 3600).
Proof. vm_compute. discriminate. Qed.

(** C5. Once the file is read, [parseTrashInfo] fails, and then with
    [ErrInvalidTrashInfo], exactly when the first line is not the
    header, or there are fewer than three lines, or the path field is
    absent or does not unescape. The date field plays no part in that:
    when it is missing or does not parse, the item carries the zero
    time. *)
Theorem C5_parseTrashInfo_invalid
    (infoPath trashDir content : string) (w w1 : World) :
  ReadFile infoPath w = (inr content, w1) ->
  (fst (parseTrashInfo infoPath trashDir w) = inl ErrInvalidTrashInfo <->
   nth 0 (Strings.SplitLines content) "" <> "[Trash Info]" \/
   (List.length (Strings.SplitLines content) < 3)%nat \/
   pathAbsent content \/ pathUnparsable content) /\
  (forall e, fst (parseTrashInfo infoPath trashDir w) = inl e ->
             e = ErrInvalidTrashInfo) /\
  (forall item, fst (parseTrashInfo infoPath trashDir w) = inr item ->
     DeletionDate item = dateOf (dateField content) /\
     (dateField content = None \/
      (exists v, dateField content = Some v /\ Time.Parse v = None) ->
      DeletionDate item = Time.zero)).
Proof.
  intros Hread. unfold parseTrashInfo, bind. rewrite Hread.
  rewrite <- parseContent_invalid.
  destruct (parseContent content) as [e|[p t]] eqn:Hpc; cbn [ret fst].
  - pose proof (parseContent_error _ _ Hpc) as ->.
    split; [tauto|]. split; [congruence|]. discriminate.
  - split; [split; discriminate|]. split; [discriminate|].
    intros item [= <-]. cbn [DeletionDate].
    pose proof (parseContent_date _ _ _ Hpc) as ->.
    split; [reflexivity|].
    intros [Hn|(v & Hv & Hp)]; rewrite ?Hn, ?Hv; unfold dateOf;
      rewrite ?Hp; reflexivity.
Qed.

Lemma C5_parseTrashInfo_invalid_witness :
  exists item,
    fst (parseTrashInfo "/tmp/odd.trashinfo" "/tmp" Sample.worldOdd) = inr item /\
    OriginalPath item = "/tmp/old" /\
    DeletionDate item = Time.zero.
Proof.
  pose proof (C5_parseTrashInfo_invalid "/tmp/odd.trashinfo" "/tmp"
                Sample.oddRecord Sample.worldOdd
                (pushLog Sample.worldOdd (CReadFile "/tmp/odd.trashinfo") None)
                ltac:(vm_compute; reflexivity)) as (_ & _ & H).
  eexists. split; [vm_compute; reflexivity|].
  split; [reflexivity|].
  refine (proj2 (H _ _) _); [vm_compute; reflexivity|].
  right. exists "yesterday". split; vm_compute; reflexivity.
Defined.

Lemma HasPrefix_app (k v : string) : Strings.HasPrefix (k +:+ v) k = true.
Proof.
  unfold Strings.HasPrefix.
  induction k as [|c k IH]; [now destruct v|].
  rewrite app_cons. cbn [String.prefix].
  destruct (ascii_dec c c); [exact IH | contradiction].
Qed.

Lemma drop_app (k v : string) : Strings.drop (String.length k) (k +:+ v) = v.
Proof. induction k as [|c k IH]; [now destruct v | exact IH]. Qed.

Lemma parseLine_path (acc : string * Time.t) (enc : string) :
  parseLine acc ("Path=" +:+ enc) =
  (match URL.QueryUnescape enc with Some p => p | None => "" end, snd acc).
Proof.
  unfold parseLine, Strings.TrimPrefix. rewrite HasPrefix_app, drop_app.
  destruct (URL.QueryUnescape enc); reflexivity.
Qed.

Lemma parseLine_date (acc : string * Time.t) (stamp : string) :
  parseLine acc ("DeletionDate=" +:+ stamp) =
  (fst acc, match Time.Parse stamp with Some t => t | None => Time.zero end).
Proof.
  unfold parseLine, Strings.TrimPrefix.
  replace (Strings.HasPrefix ("DeletionDate=" +:+ stamp) "Path=")
    with false by reflexivity.
  rewrite HasPrefix_app, drop_app.
  destruct (Time.Parse stamp); reflexivity.
Qed.

Lemma parseLine_empty (acc : string * Time.t) : parseLine acc "" = acc.
Proof. reflexivity. Qed.



End Record.


(** ** Programs and the log *)

Section LogFacts.
Import OS.

Lemma relog_log (w : World) : relog w (log w) = w.
Proof. now destruct w. Qed.

Lemma relog_relog (w : World) (l l' : list (Call * option Errno)) :
  relog (relog w l) l' = relog w l'.
Proof. reflexivity. Qed.

Lemma pushLog_relog (w : World) (c : Call) (r : option Errno) :
  pushLog w c r = relog w (log w ++ [(c, r)]).
Proof. reflexivity. Qed.

Lemma Uniform_ret {A} (a : A) : Uniform (ret a).
Proof. intros w l. exists l. reflexivity. Qed.

Lemma Uniform_bind {A B} (m : M A) (k : A -> M B) :
  Uniform m -> (forall a, Uniform (k a)) -> Uniform (bind m k).
Proof.
  intros Hm Hk w l. unfold bind.
  destruct (Hm w l) as (l1 & ->).
  destruct (m w) as [a w1]. cbn [fst snd].
  destruct (Hk a w1 l1) as (l2 & ->).
  exists l2. destruct (k a w1); reflexivity.
Qed.

Lemma ReadOnly_ret {A} (a : A) : ReadOnly (ret a).
Proof. intros w. exists (log w). cbn. now rewrite relog_log. Qed.

Lemma ReadOnly_bind {A B} (m : M A) (k : A -> M B) :
  ReadOnly m -> (forall a, ReadOnly (k a)) -> ReadOnly (bind m k).
Proof.
  intros Hm Hk w. unfold bind.
  destruct (Hm w) as (l1 & H1). destruct (m w) as [a w1]. cbn [snd] in H1.
  subst w1. destruct (Hk a (relog w l1)) as (l2 & H2).
  exists l2. rewrite H2. reflexivity.
Qed.

(** A call whose outcome on the tree does not look at the log. *)
Lemma Uniform_call {A} (c : Call) (sem : World -> (Errno + A) * tree) :
  (forall w l, sem (relog w l) = sem w) -> Uniform (call c sem).
Proof.
  intros Hsem w l. unfold call. cbn [env relog].
  destruct (denied (env w) c).
  - eexists. reflexivity.
  - rewrite Hsem. destruct (sem w) as [[e|a] m]; eexists; reflexivity.
Qed.

Lemma ReadOnly_call {A} (c : Call) (sem : World -> (Errno + A) * tree) :
  (forall w, snd (sem w) = fs w) -> ReadOnly (call c sem).
Proof.
  intros Hsem w. unfold call.
  destruct (denied (env w) c).
  - eexists. reflexivity.
  - specialize (Hsem w). destruct (sem w) as [[e|a] m]; cbn in Hsem; subst m;
      eexists; cbn [snd]; destruct w; reflexivity.
Qed.

Lemma Uniform_errOnly (m : M (error + unit)) : Uniform m -> Uniform (errOnly m).
Proof.
  intros Hm w l. unfold errOnly. destruct (Hm w l) as (l' & ->).
  destruct (m w) as [[e|u] w1]; exists l'; reflexivity.
Qed.

Lemma ReadOnly_errOnly (m : M (error + unit)) : ReadOnly m -> ReadOnly (errOnly m).
Proof.
  intros Hm w. unfold errOnly. destruct (Hm w) as (l' & H).
  destruct (m w) as [[e|u] w1]; exists l'; exact H.
Qed.

Lemma Uniform_env {A} (f : Env -> M A) :
  (forall e, Uniform (f e)) -> Uniform (fun w => f (env w) w).
Proof. intros H w l. apply (H (env w)). Qed.

Lemma Uniform_pkg {A} (f : Globals -> M A) :
  (forall g, Uniform (f g)) -> Uniform (fun w => f (pkg w) w).
Proof. intros H w l. apply (H (pkg w)). Qed.

Lemma Uniform_result {A} (m : M A) (w : World) (l : list (Call * option Errno)) :
  Uniform m -> fst (m (relog w l)) = fst (m w).
Proof. intros H. destruct (H w l) as (l' & ->). reflexivity. Qed.

Lemma Uniform_tree {A} (m : M A) (w : World) (l : list (Call * option Errno)) :
  Uniform m -> fs (snd (m (relog w l))) = fs (snd (m w)).
Proof. intros H. destruct (H w l) as (l' & ->). reflexivity. Qed.

End LogFacts.

(** Goals [Uniform m] and [ReadOnly m] are settled along the structure
    of [m]. *)
Ltac uniform :=
  repeat match goal with
         | |- Uniform (OS.ret _) => apply Uniform_ret
         | |- Uniform (OS.bind _ _) => apply Uniform_bind; [|intros ?]
         | |- Uniform (match ?x with _ => _ end) => destruct x
         | |- Uniform (if ?b then _ else _) => destruct b
         | |- Uniform _ => solve [auto with uniform]
         end.

Ltac readonly :=
  repeat match goal with
         | |- ReadOnly (OS.ret _) => apply ReadOnly_ret
         | |- ReadOnly (OS.bind _ _) => apply ReadOnly_bind; [|intros ?]
         | |- ReadOnly (match ?x with _ => _ end) => destruct x
         | |- ReadOnly (if ?b then _ else _) => destruct b
         | |- ReadOnly _ => solve [auto with readonly]
         end.

Section Primitives.
Import OS.

Lemma Uniform_Lstat p : Uniform (Lstat p).
Proof. apply Uniform_call. reflexivity. Qed.
Lemma Uniform_Stat p : Uniform (Stat p).
Proof. apply Uniform_call. reflexivity. Qed.
Lemma Uniform_ReadFile p : Uniform (ReadFile p).
Proof. apply Uniform_call. reflexivity. Qed.
Lemma Uniform_ReadDir p : Uniform (ReadDir p).
Proof. apply Uniform_call. reflexivity. Qed.
Lemma Uniform_Readlink p : Uniform (Readlink p).
Proof. apply Uniform_call. reflexivity. Qed.
Lemma Uniform_MkdirAll p mode : Uniform (MkdirAll p mode).
Proof. apply Uniform_errOnly, Uniform_call. reflexivity. Qed.
Lemma Uniform_WriteFile p c mode : Uniform (WriteFile p c mode).
Proof. apply Uniform_errOnly, Uniform_call. reflexivity. Qed.
Lemma Uniform_Create p : Uniform (Create p).
Proof. apply Uniform_errOnly, Uniform_call. reflexivity. Qed.
Lemma Uniform_Rename a b : Uniform (Rename a b).
Proof. apply Uniform_errOnly, Uniform_call. reflexivity. Qed.
Lemma Uniform_Remove p : Uniform (Remove p).
Proof. apply Uniform_errOnly, Uniform_call. reflexivity. Qed.
Lemma Uniform_RemoveAll p : Uniform (RemoveAll p).
Proof. apply Uniform_errOnly, Uniform_call. reflexivity. Qed.
Lemma Uniform_Symlink t p : Uniform (Symlink t p).
Proof. apply Uniform_errOnly, Uniform_call. reflexivity. Qed.
Lemma Uniform_Open p : Uniform (Open p).
Proof. apply Uniform_errOnly, Uniform_call. reflexivity. Qed.
Lemma Uniform_OpenExcl p mode : Uniform (OpenExcl p mode).
Proof. apply Uniform_errOnly, Uniform_call. reflexivity. Qed.
Lemma Uniform_WriteString p c : Uniform (WriteString p c).
Proof. apply Uniform_errOnly, Uniform_call. reflexivity. Qed.
Lemma Uniform_Close p : Uniform (Close p).
Proof. apply Uniform_errOnly, Uniform_call. reflexivity. Qed.
Lemma Uniform_Chtimes p t : Uniform (Chtimes p t).
Proof. apply Uniform_errOnly, Uniform_call. reflexivity. Qed.

Lemma Uniform_Copy dst src : Uniform (Copy dst src).
Proof.
  intros w l. unfold Copy. cbn [env fs relog].
  destruct (follow _ _ _ _) as [e|[q n]]; [eexists; reflexivity|].
  destruct (IsDir n); [eexists; reflexivity|].
  destruct (denied _ _); eexists; reflexivity.
Qed.

Lemma Uniform_timeNow : Uniform timeNow.
Proof. intros w l. exists l. reflexivity. Qed.
Lemma Uniform_randRead n : Uniform (randRead n).
Proof. intros w l. exists l. reflexivity. Qed.
Lemma Uniform_UserHomeDir : Uniform UserHomeDir.
Proof.
  intros w l. exists l. unfold UserHomeDir. cbn [env relog].
  destruct (String.eqb _ _); reflexivity.
Qed.
Lemma Uniform_userCurrent : Uniform userCurrent.
Proof.
  intros w l. exists l. unfold userCurrent. cbn [env relog].
  destruct (currentUser _); reflexivity.
Qed.
Lemma Uniform_Abs p : Uniform (Abs p).
Proof.
  intros w l. exists l. unfold Abs. cbn [env relog].
  destruct (Filepath.IsAbs p); reflexivity.
Qed.
Lemma Uniform_getMountPoints : Uniform Mount.getMountPoints.
Proof.
  intros w l. exists l. unfold Mount.getMountPoints. cbn [env relog].
  destruct (procMounts _); [|reflexivity].
  destruct (existsb _ _); reflexivity.
Qed.

Lemma ReadOnly_Lstat p : ReadOnly (Lstat p).
Proof.
  apply ReadOnly_call. intros w. now destruct (fs w !! _).
Qed.
Lemma ReadOnly_Stat p : ReadOnly (Stat p).
Proof.
  apply ReadOnly_call. intros w. now destruct (follow _ _ _ _) as [|[]].
Qed.
Lemma ReadOnly_ReadFile p : ReadOnly (ReadFile p).
Proof.
  apply ReadOnly_call. intros w.
  destruct (follow _ _ _ _) as [|[q n]]; [reflexivity|].
  now destruct (IsDir n).
Qed.
Lemma ReadOnly_ReadDir p : ReadOnly (ReadDir p).
Proof.
  apply ReadOnly_call. intros w.
  destruct (follow _ _ _ _) as [|[q n]]; [reflexivity|].
  now destruct (IsDir n).
Qed.
Lemma ReadOnly_getMountPoints : ReadOnly Mount.getMountPoints.
Proof.
  intros w. exists (log w). unfold Mount.getMountPoints.
  destruct (procMounts _); [|now rewrite relog_log].
  destruct (existsb _ _); now rewrite relog_log.
Qed.

End Primitives.

Create HintDb uniform.
Create HintDb readonly.

#[export] Hint Resolve
  Uniform_Lstat Uniform_Stat Uniform_ReadFile Uniform_ReadDir Uniform_Readlink
  Uniform_MkdirAll Uniform_WriteFile Uniform_Create Uniform_Rename
  Uniform_Remove Uniform_RemoveAll Uniform_Symlink Uniform_Open
  Uniform_OpenExcl Uniform_WriteString Uniform_Close Uniform_Chtimes
  Uniform_Copy Uniform_timeNow Uniform_randRead Uniform_UserHomeDir
  Uniform_userCurrent Uniform_Abs Uniform_getMountPoints : uniform.

#[export] Hint Resolve
  ReadOnly_Lstat ReadOnly_Stat ReadOnly_ReadFile ReadOnly_ReadDir
  ReadOnly_getMountPoints : readonly.


(** ** The catalogue: listing and finding entries *)

Section Catalogue.
Import OS Trash.

Lemma Uniform_getHomeTrash : Uniform getHomeTrash.
Proof. intros w l. exists l. reflexivity. Qed.

Lemma Uniform_getUid : Uniform getUid.
Proof. intros w l. exists l. reflexivity. Qed.

Lemma ReadOnly_getHomeTrash : ReadOnly getHomeTrash.
Proof. intros w. exists (log w). cbn. now rewrite relog_log. Qed.

Lemma ReadOnly_getUid : ReadOnly getUid.
Proof. intros w. exists (log w). cbn. now rewrite relog_log. Qed.

Hint Resolve Uniform_getHomeTrash Uniform_getUid : uniform.
Hint Resolve ReadOnly_getHomeTrash ReadOnly_getUid : readonly.

Lemma Uniform_parseTrashInfo p d : Uniform (parseTrashInfo p d).
Proof. unfold parseTrashInfo. uniform. Qed.

Lemma ReadOnly_parseTrashInfo p d : ReadOnly (parseTrashInfo p d).
Proof. unfold parseTrashInfo. readonly. Qed.

Hint Resolve Uniform_parseTrashInfo : uniform.
Hint Resolve ReadOnly_parseTrashInfo : readonly.

Lemma Uniform_listEntries i d es : Uniform (listEntries i d es).
Proof. induction es as [|e es IH]; cbn [listEntries]; uniform. Qed.

Hint Resolve Uniform_listEntries : uniform.

Lemma Uniform_listTrashDir d : Uniform (listTrashDir d).
Proof. unfold listTrashDir. uniform. Qed.

Hint Resolve Uniform_listTrashDir : uniform.

Lemma Uniform_listMounts u ms : Uniform (listMounts u ms).
Proof. induction ms as [|m ms IH]; cbn [listMounts]; uniform. Qed.

Hint Resolve Uniform_listMounts : uniform.

Lemma Uniform_mkdirEach ds : Uniform (mkdirEach ds).
Proof. induction ds as [|d ds IH]; cbn [mkdirEach]; uniform. Qed.

Hint Resolve Uniform_mkdirEach : uniform.

Lemma Uniform_setInitErr e : Uniform (setInitErr e).
Proof. intros w l. exists l. reflexivity. Qed.
Lemma Uniform_setHomeTrash p : Uniform (setHomeTrash p).
Proof. intros w l. exists l. reflexivity. Qed.
Lemma Uniform_setUid u : Uniform (setUid u).
Proof. intros w l. exists l. reflexivity. Qed.
Lemma Uniform_GetenvXDG : Uniform GetenvXDG_DATA_HOME.
Proof. intros w l. exists l. reflexivity. Qed.

Hint Resolve Uniform_setInitErr Uniform_setHomeTrash Uniform_setUid
  Uniform_GetenvXDG : uniform.

Lemma Uniform_initialize : Uniform initialize.
Proof. unfold initialize, ensureTrashDirs. uniform. Qed.

Lemma Uniform_ensureInitialized : Uniform ensureInitialized.
Proof.
  intros w l. unfold ensureInitialized. cbn [pkg relog].
  destruct (initDone (pkg w)); [exists l; reflexivity|].
  destruct (Uniform_initialize w l) as (l' & ->).
  destruct (initialize w) as [u w1]. exists l'. reflexivity.
Qed.

Hint Resolve Uniform_ensureInitialized : uniform.

Lemma Uniform_List : Uniform List.
Proof. unfold List. uniform. Qed.

Lemma ReadOnly_findInMounts n u ms : ReadOnly (findInMounts n u ms).
Proof. induction ms as [|m ms IH]; cbn [findInMounts]; readonly. Qed.

Hint Resolve ReadOnly_findInMounts : readonly.

Lemma ReadOnly_findTrashItem n : ReadOnly (findTrashItem n).
Proof. unfold findTrashItem. readonly. Qed.

Lemma ensureInitialized_done (w : World) :
  initDone (pkg w) = true ->
  ensureInitialized w = (initErr (pkg w), w).
Proof. intros H. unfold ensureInitialized. now rewrite H. Qed.

Lemma Lstat_found (p : string) (w : World) (n : Node) :
  fs w !! resolve (env w) p = Some n ->
  denied (env w) (CLstat p) = None ->
  fst (Lstat p w) = inr n.
Proof. intros Hq Hd. unfold Lstat, call. now rewrite Hd, Hq. Qed.



End Catalogue.


(** ** Name generation *)

Section Names.
Import OS Trash.

Lemma Lstat_run (p : string) (w : World) :
  exists r, Lstat p w = (fst (Lstat p w), relog w (log w ++ [(CLstat p, r)])).
Proof.
  unfold Lstat, call. destruct (denied (env w) (CLstat p)).
  - eexists. reflexivity.
  - destruct (fs w !! resolve (env w) p); eexists; cbn; destruct w; reflexivity.
Qed.

Lemma lstatAbsent_relog (w : World) l (p : string) :
  lstatAbsent (relog w l) p = lstatAbsent w p.
Proof. unfold lstatAbsent. now rewrite Uniform_result by apply Uniform_Lstat. Qed.

Lemma nameFree_relog (w : World) l (d n : string) :
  nameFree (relog w l) d n = nameFree w d n.
Proof. unfold nameFree. now rewrite !lstatAbsent_relog. Qed.

Lemma candidates_seq (s : string) :
  candidates s = map (candidate s) (seq 0 100).
Proof. reflexivity. Qed.

Lemma find_same {A} (f g : A -> bool) (l : list A) :
  (forall x, f x = g x) -> find f l = find g l.
Proof.
  intros H. induction l as [|x l IH]; [reflexivity|].
  cbn [find]. now rewrite H, IH.
Qed.

Lemma probesOneOf_here d c rest ev :
  fst ev = CLstat (Filepath.Join [d; "files"; c]) \/
  fst ev = CLstat (Filepath.Join [d; "info"; c +:+ ".trashinfo"]) ->
  probesOneOf d (c :: rest) ev.
Proof. intros H. exists c. split; [now left | exact H]. Qed.

Lemma probesOneOf_later d c rest l :
  Forall (probesOneOf d rest) l -> Forall (probesOneOf d (c :: rest)) l.
Proof.
  intros HF. eapply Forall_impl; [exact HF|].
  intros ev (cand & Hin & H). exists cand. split; [now right | exact H].
Qed.

(** The loop returns the first free name among those it tries, looks
    at nothing else, and changes nothing. *)
Lemma probe_spec (s d : string) (n i : nat) (w : World) :
  exists l,
    probe n i s d w =
      (find (nameFree w d) (map (candidate s) (seq i n)),
       relog w (log w ++ l)) /\
    Forall (probesOneOf d (map (candidate s) (seq i n))) l.
Proof.
  revert i w. induction n as [|n IH]; intros i w.
  { exists []. cbn. rewrite app_nil_r, relog_log. split; [reflexivity|constructor]. }
  cbn [probe seq map find]. unfold bind.
  set (pf := Filepath.Join [d; "files"; candidate s i]).
  set (pi := Filepath.Join [d; "info"; candidate s i +:+ ".trashinfo"]).
  destruct (Lstat_run pf w) as (r1 & H1). rewrite H1.
  unfold nameFree at 1. fold pf pi. unfold lstatAbsent at 1.
  destruct (notExist (fst (Lstat pf w))) eqn:Ha; cbn [andb].
  - destruct (Lstat_run pi (relog w (log w ++ [(CLstat pf, r1)]))) as (r2 & H2).
    rewrite H2.
    change (notExist (fst (Lstat pi (relog w (log w ++ [(CLstat pf, r1)])))))
      with (lstatAbsent (relog w (log w ++ [(CLstat pf, r1)])) pi).
    rewrite lstatAbsent_relog, relog_relog. cbn [log relog].
    destruct (lstatAbsent w pi) eqn:Hb.
    + exists [(CLstat pf, r1); (CLstat pi, r2)]. cbn [ret].
      rewrite <- app_assoc. split; [reflexivity|].
      repeat constructor; apply probesOneOf_here; cbn; auto.
    + destruct (IH (S i) (relog w ((log w ++ [(CLstat pf, r1)]) ++ [(CLstat pi, r2)])))
        as (l & Hp & Hl).
      rewrite Hp, relog_relog. cbn [log relog].
      exists ((CLstat pf, r1) :: (CLstat pi, r2) :: l).
      rewrite <- !app_assoc. split.
      * f_equal. apply find_same. intros x. apply nameFree_relog.
      * repeat constructor; try (apply probesOneOf_here; cbn; auto).
        now apply probesOneOf_later.
  - destruct (IH (S i) (relog w (log w ++ [(CLstat pf, r1)]))) as (l & Hp & Hl).
    rewrite Hp, relog_relog. cbn [log relog].
    exists ((CLstat pf, r1) :: l). rewrite <- !app_assoc. split.
    * f_equal. apply find_same. intros x. apply nameFree_relog.
    * constructor; [apply probesOneOf_here; cbn; auto|].
      now apply probesOneOf_later.
Qed.

(** C4. The base name is sanitised first: the empty name becomes
    [unnamed] and the name [.] becomes [dot]. The result is the first
    of the hundred names [s], [s.1], ..., [s.99] for which [Lstat]
    reports neither a data entry nor a metadata entry; when none is
    free, it is [s], a dot and the sixteen hexadecimal digits of
    eight random bytes. Every existence check made is on one of the
    hundred names, so the fallback name is never checked. *)
Theorem C4_generateTrashNameInDir (baseName trashDir : string) (w : World) :
  sanitizeFilename "" = "unnamed" /\
  sanitizeFilename "." = "dot" /\
  let s := sanitizeFilename baseName in
  candidates s =
    s :: map (fun i => s +:+ "." +:+ Time.itoa (Z.of_nat i)) (seq 1 99) /\
  List.length (candidates s) = 100%nat /\
  fst (generateTrashNameInDir baseName trashDir w) =
    match firstFree w trashDir s with
    | Some name => name
    | None =>
        s +:+ "." +:+
        hexEncode (map (fun i => entropy (env w) (drawn w + i)%nat) (seq 0 8))
    end /\
  String.length
    (hexEncode (map (fun i => entropy (env w) (drawn w + i)%nat) (seq 0 8)))
    = 16%nat /\
  fs (snd (generateTrashNameInDir baseName trashDir w)) = fs w /\
  exists l,
    log (snd (generateTrashNameInDir baseName trashDir w)) = log w ++ l /\
    Forall (probesOneOf trashDir (candidates s)) l.
Proof.
  split; [reflexivity|]. split; [reflexivity|]. intros s.
  split; [reflexivity|]. split; [reflexivity|].
  unfold generateTrashNameInDir, bind. fold s.
  destruct (probe_spec s trashDir 100 0 w) as (l & Hp & Hl).
  rewrite Hp. rewrite <- candidates_seq in *. fold (firstFree w trashDir s).
  destruct (firstFree w trashDir s) as [name|]; cbn [ret randRead fst snd].
  - split; [reflexivity|]. split; [reflexivity|]. split; [reflexivity|].
    exists l. split; [reflexivity | exact Hl].
  - split; [reflexivity|]. split; [reflexivity|]. split; [reflexivity|].
    exists l. split; [reflexivity | exact Hl].
Qed.

End Names.


(** ** What programs log *)

Section Logging.
Import OS.

Lemma Logs_ret (Q : Call * option Errno -> Prop) {A} (a : A) : Logs Q (ret a).
Proof.
  intros w. exists []. cbn. rewrite app_nil_r.
  split; [reflexivity|]. split; [constructor | reflexivity].
Qed.

Lemma Logs_bind (Q : Call * option Errno -> Prop) {A B} (m : M A) (k : A -> M B) :
  Logs Q m -> (forall a, Logs Q (k a)) -> Logs Q (bind m k).
Proof.
  intros Hm Hk w. unfold bind. destruct (Hm w) as (l1 & H1 & F1 & E1).
  destruct (m w) as [a w1]. cbn [snd] in H1, E1.
  destruct (Hk a w1) as (l2 & H2 & F2 & E2).
  exists (l1 ++ l2). rewrite H2, H1, E2, E1, app_assoc. split; [reflexivity|].
  split; [|reflexivity]. apply Forall_app. split; assumption.
Qed.

Lemma Logs_weaken (Q Q' : Call * option Errno -> Prop) {A} (m : M A) :
  (forall ev, Q ev -> Q' ev) -> Logs Q m -> Logs Q' m.
Proof.
  intros HQ Hm w. destruct (Hm w) as (l & H & F & E). exists l.
  split; [exact H|]. split; [|exact E].
  eapply Forall_impl; [exact F | exact HQ].
Qed.

(** A call is logged once, with its outcome, which is also what the
    caller gets. *)
Lemma call_run {A} (c : Call) (sem : World -> (Errno + A) * tree) (w : World) :
  exists r,
    log (snd (call c sem w)) = log w ++ [(c, r)] /\
    env (snd (call c sem w)) = env w /\
    pkg (snd (call c sem w)) = pkg w /\
    drawn (snd (call c sem w)) = drawn w /\
    match fst (call c sem w), r with
    | inl err, Some e => err = PathError c e
    | inr _, None => True
    | _, _ => False
    end.
Proof.
  unfold call. destruct (denied (env w) c) as [e|].
  - exists (Some e). cbn. auto.
  - destruct (sem w) as [[e|a] m].
    + exists (Some e). cbn. auto.
    + exists None. cbn. auto.
Qed.

Lemma errOnly_call_run (c : Call) (sem : World -> (Errno + unit) * tree) (w : World) :
  exists r,
    log (snd (errOnly (call c sem) w)) = log w ++ [(c, r)] /\
    env (snd (errOnly (call c sem) w)) = env w /\
    pkg (snd (errOnly (call c sem) w)) = pkg w /\
    drawn (snd (errOnly (call c sem) w)) = drawn w /\
    fst (errOnly (call c sem) w) = option_map (PathError c) r.
Proof.
  destruct (call_run c sem w) as (r & Hl & He & Hp & Hd & Hr).
  exists r. unfold errOnly.
  destruct (call c sem w) as [[err|u] w1]; cbn [fst snd] in *;
    destruct r; try contradiction; subst; auto.
Qed.

Lemma Logs_call (Q : Call * option Errno -> Prop) {A} (c : Call) (sem : World -> (Errno + A) * tree) :
  (forall r, Q (c, r)) -> Logs Q (call c sem).
Proof.
  intros HQ w. destruct (call_run c sem w) as (r & Hl & He & _).
  exists [(c, r)]. split; [exact Hl|].
  split; [repeat constructor; apply HQ | exact He].
Qed.

Lemma Logs_errOnly_call (Q : Call * option Errno -> Prop) (c : Call) (sem : World -> (Errno + unit) * tree) :
  (forall r, Q (c, r)) -> Logs Q (errOnly (call c sem)).
Proof.
  intros HQ w. destruct (errOnly_call_run c sem w) as (r & Hl & He & _).
  exists [(c, r)]. split; [exact Hl|].
  split; [repeat constructor; apply HQ | exact He].
Qed.

(** A program that logs nothing. *)
Lemma Logs_silent (Q : Call * option Errno -> Prop) {A} (m : M A) :
  (forall w, log (snd (m w)) = log w /\ env (snd (m w)) = env w) ->
  Logs Q m.
Proof.
  intros H w. exists []. rewrite app_nil_r. destruct (H w) as [Hl He].
  split; [exact Hl|]. split; [constructor | exact He].
Qed.

End Logging.

Ltac logs :=
  repeat match goal with
         | |- Logs _ (OS.ret _) => apply Logs_ret
         | |- Logs _ (OS.bind _ _) => apply Logs_bind; [|intros ?]
         | |- Logs _ (match ?x with _ => _ end) => destruct x
         | |- Logs _ (if ?b then _ else _) => destruct b
         | |- Logs _ (OS.call _ _) => apply Logs_call; intros ?; exact I
         | |- Logs _ (OS.errOnly (OS.call _ _)) =>
             apply Logs_errOnly_call; intros ?; exact I
         | |- Logs _ _ => solve [auto with logs]
         | |- Logs _ _ => solve [apply Logs_silent; intros ?; split; reflexivity]
         end.

Create HintDb logs.

Section Silent.
Import OS.
Variable Q : Call * option Errno -> Prop.

Lemma Logs_Abs (p : string) : Logs Q (Abs p).
Proof.
  apply Logs_silent. intros w. unfold Abs.
  destruct (Filepath.IsAbs p); split; reflexivity.
Qed.

Lemma Logs_getMountPoints : Logs Q Mount.getMountPoints.
Proof.
  apply Logs_silent. intros w. unfold Mount.getMountPoints.
  destruct (procMounts _); [|split; reflexivity].
  destruct (existsb _ _); split; reflexivity.
Qed.

Lemma Logs_userCurrent : Logs Q userCurrent.
Proof.
  apply Logs_silent. intros w. unfold userCurrent.
  destruct (currentUser _); split; reflexivity.
Qed.

Lemma Logs_UserHomeDir : Logs Q UserHomeDir.
Proof.
  apply Logs_silent. intros w. unfold UserHomeDir.
  destruct (String.eqb _ _); split; reflexivity.
Qed.

Lemma Logs_Getuid : Logs Q Getuid.
Proof. apply Logs_silent. intros w. split; reflexivity. Qed.

Lemma Logs_GetenvXDG : Logs Q GetenvXDG_DATA_HOME.
Proof. apply Logs_silent. intros w. split; reflexivity. Qed.

Lemma Logs_timeNow : Logs Q timeNow.
Proof. apply Logs_silent. intros w. split; reflexivity. Qed.

Lemma Logs_randRead (n : nat) : Logs Q (randRead n).
Proof. apply Logs_silent. intros w. split; reflexivity. Qed.

End Silent.

#[export] Hint Resolve Logs_Abs Logs_getMountPoints Logs_userCurrent
  Logs_UserHomeDir Logs_Getuid Logs_GetenvXDG Logs_timeNow Logs_randRead : logs.


(** ** Restore *)

Section RestoreFacts.
Import OS Trash.

Lemma Logs_query_Lstat p : Logs isQuery (Lstat p).
Proof. unfold Lstat. logs. Qed.
Lemma Logs_query_Stat p : Logs isQuery (Stat p).
Proof. unfold Stat. logs. Qed.
Lemma Logs_query_ReadFile p : Logs isQuery (ReadFile p).
Proof. unfold ReadFile. logs. Qed.
Lemma Logs_query_ReadDir p : Logs isQuery (ReadDir p).
Proof. unfold ReadDir. logs. Qed.

Hint Resolve Logs_query_Lstat Logs_query_Stat Logs_query_ReadFile
  Logs_query_ReadDir : logs.

Lemma Logs_query_parseTrashInfo p d : Logs isQuery (parseTrashInfo p d).
Proof. unfold parseTrashInfo. logs. Qed.

Hint Resolve Logs_query_parseTrashInfo : logs.

Lemma Logs_query_findInMounts n u ms : Logs isQuery (findInMounts n u ms).
Proof. induction ms as [|m ms IH]; cbn [findInMounts]; logs. Qed.

Hint Resolve Logs_query_findInMounts : logs.

Lemma Logs_query_findTrashItem n : Logs isQuery (findTrashItem n).
Proof. unfold findTrashItem. logs. Qed.

Lemma Logs_mkdirEach ds : Logs isQueryOrMkdir (mkdirEach ds).
Proof.
  induction ds as [|d ds IH]; cbn [mkdirEach]; logs.
  unfold MkdirAll. logs.
Qed.

Lemma Logs_initialize : Logs isQueryOrMkdir initialize.
Proof.
  unfold initialize, ensureTrashDirs. logs. apply Logs_mkdirEach.
Qed.

Lemma Logs_ensureInitialized : Logs isQueryOrMkdir ensureInitialized.
Proof.
  intros w. unfold ensureInitialized.
  destruct (initDone (pkg w)).
  - exists []. rewrite app_nil_r.
    split; [reflexivity|]. split; [constructor | reflexivity].
  - destruct (Logs_initialize w) as (l & Hl & F & E).
    destruct (initialize w) as [u w1]. exists l.
    split; [exact Hl|]. split; [exact F | exact E].
Qed.

Lemma query_not_Remove ev p e : isQuery ev -> ev <> (CRemove p, Some e).
Proof. intros H ->. exact H. Qed.

Lemma queryOrMkdir_not_Remove ev p e :
  isQueryOrMkdir ev -> ev <> (CRemove p, Some e).
Proof. intros H ->. exact H. Qed.

Lemma Forall_not_In {A} (P : A -> Prop) (l : list A) (x : A) :
  Forall P l -> (forall y, P y -> y <> x) -> ~ In x l.
Proof.
  intros F H Hin. rewrite Forall_forall in F.
  apply (H x); [|reflexivity]. apply F. now apply list_elem_of_In.
Qed.

(** C3, as the code has it. When a run of [Restore] logs a failed
    removal, that removal is of the entry's metadata record and comes
    right after the successful move of the data object to its
    original path; the one call after it is the move of the data
    object back into the trash, whatever its outcome; and the caller
    gets the removal's error wrapped with context, which is not
    [ErrRestoreFailed]. *)
Theorem C3_restore_compensation
    (trashName : string) (w : World) (p : string) (e : Errno)
    (l : list (Call * option Errno)) :
  log (snd (Restore trashName w)) = log w ++ l ->
  In (CRemove p, Some e) l ->
  exists item l0 back,
    l = l0 ++ [(CRename (FilePath item) (OriginalPath item), None);
               (CRemove (InfoPath item), Some e);
               (CRename (OriginalPath item) (FilePath item), back)] /\
    p = InfoPath item /\
    fst (Restore trashName w) =
      Some (Wrapf "failed to remove info file"
              (PathError (CRemove (InfoPath item)) e)) /\
    errorsIs (Wrapf "failed to remove info file"
                (PathError (CRemove (InfoPath item)) e))
             ErrRestoreFailed = false.
Proof.
  intros Hlog Hin. unfold Restore, bind in *.
  destruct (Logs_ensureInitialized w) as (li & Hli & Fi & _).
  destruct (ensureInitialized w) as [i wi]. cbn [snd] in Hli.
  assert (Hni : ~ In (CRemove p, Some e) li)
    by (eapply Forall_not_In; [exact Fi|]; intros; now apply queryOrMkdir_not_Remove).
  destruct i as [e0|].
  { cbn in Hlog. rewrite Hli in Hlog. apply app_inv_head in Hlog. now subst. }
  destruct (Logs_query_findTrashItem trashName wi) as (lf & Hlf & Ff & _).
  destruct (findTrashItem trashName wi) as [f wf]. cbn [snd] in Hlf.
  assert (Hnf : ~ In (CRemove p, Some e) lf)
    by (eapply Forall_not_In; [exact Ff|]; intros; now apply query_not_Remove).
  destruct f as [e1|item].
  { cbn in Hlog. rewrite Hlf, Hli, <- app_assoc in Hlog.
    apply app_inv_head in Hlog. subst l.
    apply in_app_or in Hin. tauto. }
  unfold Lstat in *.
  destruct (call_run (CLstat (OriginalPath item))
              (fun w0 => match fs w0 !! resolve (env w0) (OriginalPath item) with
                         | Some n => (inr n, fs w0)
                         | None => (inl ENOENT, fs w0)
                         end) wf) as (r1 & Hl1 & _).
  destruct (call _ _ wf) as [ls w1]. cbn [snd] in Hl1.
  destruct ls as [e2|n].
  2:{ cbn in Hlog. rewrite Hl1, Hlf, Hli, <- !app_assoc in Hlog.
      apply app_inv_head in Hlog. subst l.
      apply in_app_or in Hin as [|Hin]; [tauto|].
      apply in_app_or in Hin as [|[Hin|[]]]; [tauto|discriminate]. }
  unfold MkdirAll in *.
  destruct (errOnly_call_run (CMkdirAll (Filepath.Dir (OriginalPath item)) 493)
              (fun w0 => mkdirAllFrom (env w0) 493 (fs w0) []
                           (resolve (env w0) (Filepath.Dir (OriginalPath item)))
                           (rootDev (fs w0))) w1) as (r2 & Hl2 & _).
  destruct (errOnly _ w1) as [mk w2]. cbn [snd] in Hl2.
  destruct mk as [e3|].
  { cbn in Hlog. rewrite Hl2, Hl1, Hlf, Hli, <- !app_assoc in Hlog.
    apply app_inv_head in Hlog. subst l.
    apply in_app_or in Hin as [|Hin]; [tauto|].
    apply in_app_or in Hin as [|[Hin|[Hin|[]]]]; [tauto|discriminate..]. }
  unfold Rename at 1 in Hlog. unfold Rename at 1.
  destruct (errOnly_call_run (CRename (FilePath item) (OriginalPath item))
              (fun w0 => renameSem (fs w0) (resolve (env w0) (FilePath item))
                           (resolve (env w0) (OriginalPath item))) w2)
    as (r3 & Hl3 & _ & _ & _ & Hr3).
  destruct (errOnly _ w2) as [rn w3]. cbn [fst snd] in Hl3, Hr3.
  destruct rn as [e4|].
  { cbn in Hlog. rewrite Hl3, Hl2, Hl1, Hlf, Hli, <- !app_assoc in Hlog.
    apply app_inv_head in Hlog. subst l.
    apply in_app_or in Hin as [|Hin]; [tauto|].
    apply in_app_or in Hin as [|[Hin|[Hin|[Hin|[]]]]]; [tauto|discriminate..]. }
  destruct r3 as [?|]; [discriminate|].
  unfold Remove in *.
  destruct (errOnly_call_run (CRemove (InfoPath item))
              (fun w0 => let q := resolve (env w0) (InfoPath item) in
                         match fs w0 !! q with
                         | None => (inl ENOENT, fs w0)
                         | Some n =>
                             if IsDir n && hasChildren (fs w0) q
                             then (inl ENOTEMPTY, fs w0)
                             else (inr tt, delete q (fs w0))
                         end) w3) as (r4 & Hl4 & _ & _ & _ & Hr4).
  destruct (errOnly _ w3) as [rm w4]. cbn [fst snd] in Hl4, Hr4.
  destruct rm as [e5|].
  2:{ destruct r4; [discriminate|].
      cbn in Hlog. rewrite Hl4, Hl3, Hl2, Hl1, Hlf, Hli, <- !app_assoc in Hlog.
      apply app_inv_head in Hlog. subst l.
      apply in_app_or in Hin as [|Hin]; [tauto|].
      apply in_app_or in Hin as [|[Hin|[Hin|[Hin|[Hin|[]]]]]]; [tauto|discriminate..]. }
  destruct r4 as [e6|]; [|discriminate]. cbn in Hr4. injection Hr4 as ->.
  unfold Rename in *.
  destruct (errOnly_call_run (CRename (OriginalPath item) (FilePath item))
              (fun w0 => renameSem (fs w0) (resolve (env w0) (OriginalPath item))
                           (resolve (env w0) (FilePath item))) w4)
    as (r5 & Hl5 & _).
  destruct (errOnly _ w4) as [bk w5]. cbn [fst snd] in Hl5.
  cbn in Hlog. rewrite Hl5, Hl4, Hl3, Hl2, Hl1, Hlf, Hli, <- !app_assoc in Hlog.
  apply app_inv_head in Hlog. subst l.
  assert (e6 = e /\ p = InfoPath item) as [-> ->].
  { apply in_app_or in Hin as [|Hin]; [tauto|].
    apply in_app_or in Hin as [|[Hin|[Hin|[Hin|[Hin|[Hin|[]]]]]]];
      [tauto|try discriminate..].
    injection Hin as -> ->. split; reflexivity. }
  exists item, (li ++ lf ++ [(CLstat (OriginalPath item), r1);
                              (CMkdirAll (Filepath.Dir (OriginalPath item)) 493, r2)]), r5.
  split; [now rewrite <- !app_assoc|].
  split; [reflexivity|]. split; reflexivity.
Qed.

Lemma C3_restore_compensation_witness :
  exists item l0 back,
    drop 9 (log (snd (Restore "a b.txt" Sample.worldStuckInfo))) =
      l0 ++ [(CRename (FilePath item) (OriginalPath item), None);
             (CRemove (InfoPath item), Some EACCES);
             (CRename (OriginalPath item) (FilePath item), back)] /\
    "/home/u/.local/share/Trash/info/a b.txt.trashinfo" = InfoPath item /\
    fst (Restore "a b.txt" Sample.worldStuckInfo) =
      Some (Wrapf "failed to remove info file"
              (PathError (CRemove (InfoPath item)) EACCES)) /\
    errorsIs (Wrapf "failed to remove info file"
                (PathError (CRemove (InfoPath item)) EACCES))
             ErrRestoreFailed = false.
Proof.
  apply (C3_restore_compensation "a b.txt" Sample.worldStuckInfo
           "/home/u/.local/share/Trash/info/a b.txt.trashinfo" EACCES
           (drop 9 (log (snd (Restore "a b.txt" Sample.worldStuckInfo))))).
  - vm_compute. reflexivity.
  - vm_compute. do 5 right. left. reflexivity.
Defined.

(** C3 as the specification words it fails: with the metadata record
    stuck, the data object is moved out and back, and the error the
    caller gets is not the restore-failed condition. *)
Lemma C3_restore_failed_counterexample :
  exists err,
    fst (Restore "a b.txt" Sample.worldStuckInfo) = Some err /\
    In (CRename "/home/u/.local/share/Trash/files/a b.txt" "/tmp/a b.txt", None)
       (log (snd (Restore "a b.txt" Sample.worldStuckInfo))) /\
    In (CRemove "/home/u/.local/share/Trash/info/a b.txt.trashinfo", Some EACCES)
       (log (snd (Restore "a b.txt" Sample.worldStuckInfo))) /\
    errorsIs err ErrRestoreFailed = false.
Proof.
  eexists. split; [vm_compute; reflexivity|].
  split; [vm_compute; do 13 right; left; reflexivity|].
  split; [vm_compute; do 14 right; left; reflexivity|].
  vm_compute. reflexivity.
Qed.

End RestoreFacts.


(** ** Trash: metadata first, then the move *)

Section TrashFacts.
Import OS Trash.

Lemma query_queryOrMkdir ev : isQuery ev -> isQueryOrMkdir ev.
Proof. destruct ev as [[] r]; cbn; auto. Qed.

Lemma Logs_qm_Lstat p : Logs isQueryOrMkdir (Lstat p).
Proof. unfold Lstat. logs. Qed.
Lemma Logs_qm_Stat p : Logs isQueryOrMkdir (Stat p).
Proof. unfold Stat. logs. Qed.
Lemma Logs_qm_MkdirAll p m : Logs isQueryOrMkdir (MkdirAll p m).
Proof. unfold MkdirAll. logs. Qed.

Hint Resolve Logs_qm_Lstat Logs_qm_Stat Logs_qm_MkdirAll Logs_mkdirEach : logs.

Lemma Logs_getMountPoint (Q : Call * option Errno -> Prop) (p : string) :
  Logs Q (Mount.getMountPoint p).
Proof. unfold Mount.getMountPoint. logs. Qed.

Hint Resolve Logs_getMountPoint : logs.

Lemma Logs_checkTrashDirSecurity d :
  Logs isQueryOrMkdir (checkTrashDirSecurity d).
Proof. unfold checkTrashDirSecurity. logs. Qed.

Hint Resolve Logs_checkTrashDirSecurity : logs.

Lemma Logs_getTrashDirForPath p : Logs isQueryOrMkdir (getTrashDirForPath p).
Proof. unfold getTrashDirForPath. logs. Qed.

Lemma Logs_probe n i s d : Logs isQueryOrMkdir (probe n i s d).
Proof. revert i. induction n as [|n IH]; intros i; cbn [probe]; logs. Qed.

Hint Resolve Logs_probe : logs.

Lemma Logs_generateTrashNameInDir b d :
  Logs isQueryOrMkdir (generateTrashNameInDir b d).
Proof. unfold generateTrashNameInDir. logs. Qed.

Lemma Logs_any_Copy (d s : string) : Logs anyCall (Copy d s).
Proof.
  intros w. unfold Copy.
  destruct (follow _ _ _ _) as [e|[q n]].
  { eexists [_]. cbn. repeat split. repeat constructor. }
  destruct (IsDir n).
  { eexists [_]. cbn. repeat split. repeat constructor. }
  destruct (denied _ _); eexists [_]; cbn; repeat split; repeat constructor.
Qed.

Lemma Logs_any_call {A} (c : Call) (sem : World -> (Errno + A) * tree) :
  Logs anyCall (call c sem).
Proof. apply Logs_call. intros r. exact I. Qed.

Lemma Logs_any_errOnly (c : Call) (sem : World -> (Errno + unit) * tree) :
  Logs anyCall (errOnly (call c sem)).
Proof. apply Logs_errOnly_call. intros r. exact I. Qed.

Hint Resolve Logs_any_Copy : logs.
Hint Extern 1 (Logs anyCall (Lstat _)) => apply Logs_any_call : logs.
Hint Extern 1 (Logs anyCall (Stat _)) => apply Logs_any_call : logs.
Hint Extern 1 (Logs anyCall (ReadDir _)) => apply Logs_any_call : logs.
Hint Extern 1 (Logs anyCall (ReadFile _)) => apply Logs_any_call : logs.
Hint Extern 1 (Logs anyCall (Readlink _)) => apply Logs_any_call : logs.
Hint Extern 1 (Logs anyCall (MkdirAll _ _)) => apply Logs_any_errOnly : logs.
Hint Extern 1 (Logs anyCall (Rename _ _)) => apply Logs_any_errOnly : logs.
Hint Extern 1 (Logs anyCall (Remove _)) => apply Logs_any_errOnly : logs.
Hint Extern 1 (Logs anyCall (RemoveAll _)) => apply Logs_any_errOnly : logs.
Hint Extern 1 (Logs anyCall (Symlink _ _)) => apply Logs_any_errOnly : logs.
Hint Extern 1 (Logs anyCall (Open _)) => apply Logs_any_errOnly : logs.
Hint Extern 1 (Logs anyCall (OpenExcl _ _)) => apply Logs_any_errOnly : logs.
Hint Extern 1 (Logs anyCall (Close _)) => apply Logs_any_errOnly : logs.
Hint Extern 1 (Logs anyCall (Chtimes _ _)) => apply Logs_any_errOnly : logs.
Hint Extern 1 (Logs anyCall (Create _)) => apply Logs_any_errOnly : logs.
Hint Extern 1 (Logs anyCall (WriteString _ _)) => apply Logs_any_errOnly : logs.
Hint Extern 1 (Logs anyCall (WriteFile _ _ _)) => apply Logs_any_errOnly : logs.

Lemma Logs_any_copyFile (s d : string) (i : Node) : Logs anyCall (copyFileAcrossDevices s d i).
Proof. unfold copyFileAcrossDevices. logs. Qed.

Hint Resolve Logs_any_copyFile : logs.

Lemma Logs_any_copyDir (fuel : nat) (s d : string) : Logs anyCall (copyDirAcrossDevices fuel s d).
Proof.
  revert s d. induction fuel as [|fuel IH]; intros s d;
    cbn [copyDirAcrossDevices]; [logs|].
  apply Logs_bind; [auto with logs|]. intros [e|]; [logs|].
  apply Logs_bind; [auto with logs|]. intros [e|entries]; [logs|].
  apply Logs_bind; [|intros ?; logs].
  induction entries as [|entry rest IHr]; [logs|].
  apply Logs_bind; [|intros [e|]; [logs | exact IHr]].
  destruct (IsSymlink _); [auto with logs|].
  destruct (IsDir _); [apply IH | auto with logs].
Qed.

(** The move starts with the rename, and a rename that fails leaves
    the tree alone. *)
Lemma moveToTrash_starts (src dst : string) (info : Node) (w : World) :
  exists r0 rest,
    log (snd (moveToTrash src dst info w)) =
      log w ++ (CRename src dst, r0) :: rest /\
    env (snd (moveToTrash src dst info w)) = env w.
Proof.
  unfold moveToTrash, bind, Rename.
  destruct (errOnly_call_run (CRename src dst)
              (fun w0 => renameSem (fs w0) (resolve (env w0) src)
                           (resolve (env w0) dst)) w)
    as (r0 & Hl & He & _).
  destruct (errOnly _ w) as [r w1]. cbn [snd] in Hl, He.
  destruct r as [err|].
  2:{ exists r0, []. cbn. auto. }
  destruct (negb (isCrossDeviceError err)).
  { exists r0, []. cbn. auto. }
  destruct (IsDir info).
  - destruct (Logs_any_copyDir (depthBound w1) src dst w1) as (l & H & _ & E).
    exists r0, l. rewrite H, E, Hl, He, <- app_assoc. auto.
  - destruct (Logs_any_copyFile src dst info w1) as (l & H & _ & E).
    exists r0, l. rewrite H, E, Hl, He, <- app_assoc. auto.
Qed.

Lemma renameSem_error (m : tree) (qs qd : list string) (e : Errno) :
  fst (renameSem m qs qd) = inl e -> snd (renameSem m qs qd) = m.
Proof.
  unfold renameSem.
  repeat match goal with
         | |- context [match ?x with _ => _ end] => destruct x
         end; cbn; congruence.
Qed.

Lemma Rename_error_tree (src dst : string) (w : World) (err : error) :
  fst (Rename src dst w) = Some err -> fs (snd (Rename src dst w)) = fs w.
Proof.
  unfold Rename, errOnly, call.
  destruct (denied _ _); [reflexivity|].
  pose proof (renameSem_error (fs w) (resolve (env w) src) (resolve (env w) dst)) as H.
  destruct (renameSem _ _ _) as [[e|u] m]; cbn in *; [|discriminate].
  intros _. now apply (H e).
Qed.

Lemma moveToTrash_rename_error (src dst : string) (info : Node) (w : World)
    (e0 : error) :
  fst (Rename src dst w) = Some e0 ->
  isCrossDeviceError e0 = false ->
  fst (moveToTrash src dst info w) = Some e0 /\
  fs (snd (moveToTrash src dst info w)) = fs w.
Proof.
  intros Hr Hx. pose proof (Rename_error_tree src dst w e0 Hr) as Ht.
  unfold moveToTrash, bind. destruct (Rename src dst w) as [r w1].
  cbn [fst snd] in Hr, Ht. subst r. rewrite Hx. cbn. auto.
Qed.

Lemma preMove_of_queryOrMkdir (l : list (Call * option Errno)) :
  Forall isQueryOrMkdir l -> Forall isPreMove l.
Proof. intros F. eapply Forall_impl; [exact F|]. intros ev H. now left. Qed.

Ltac stage lem l Hl F E r w' :=
  destruct lem as (l & Hl & F & E);
  match type of Hl with
  | log (snd (?m ?w0)) = _ =>
      destruct (m w0) as [r w']; cbn [snd fst] in Hl, E
  end.

Ltac stopped :=
  left; split; [discriminate|]; eexists; split;
  [cbn [snd ret]; repeat match goal with H : log _ = _ |- _ => rewrite H; clear H end;
   rewrite <- ?app_assoc; reflexivity
  | repeat (apply Forall_app; split); auto using preMove_of_queryOrMkdir ].

(** C1, as the code has it. A run of [Trash] either stops before
    anything is moved, having only looked, made directories or failed
    to write the record; or it has written the record of the absolute
    path, with success, before the move starts with its rename. When
    the move then fails, one more call is made, the removal of the
    record just written, whatever its outcome, and the caller gets
    the error of the move, wrapped. When it is the rename that fails,
    for another reason than a cross-device one, the move leaves the
    tree as it was. *)
Theorem C1_trash_metadata_first (path : string) (w : World) :
  (fst (Trash path w) <> None /\
   exists l, log (snd (Trash path w)) = log w ++ l /\ Forall isPreMove l)
  \/
  exists absPath trashDir name info pre w2,
    let infoPath := Filepath.Join [trashDir; "info"; name +:+ ".trashinfo"] in
    let filesPath := Filepath.Join [trashDir; "files"; name] in
    let moved := moveToTrash absPath filesPath info w2 in
    fst (Abs path w) = inr absPath /\
    log w2 = log w ++ pre ++
             [(CWriteFile infoPath (trashInfoContent absPath (now (env w))) 384,
               None)] /\
    Forall isQueryOrMkdir pre /\
    (exists r0 rest,
       log (snd moved) = log w2 ++ (CRename absPath filesPath, r0) :: rest) /\
    match fst moved with
    | None => Trash path w = (None, snd moved)
    | Some err =>
        fst (Trash path w) = Some (Wrapf "failed to move to trash" err) /\
        (exists rr, log (snd (Trash path w)) =
                    log (snd moved) ++ [(CRemove infoPath, rr)]) /\
        (forall e0, fst (Rename absPath filesPath w2) = Some e0 ->
                    isCrossDeviceError e0 = false ->
                    err = e0 /\ fs (snd moved) = fs w2)
    end.
Proof.
  unfold Trash, bind.
  stage (Logs_ensureInitialized w) l Hl F E r wa.
  destruct r as [err|]; [stopped|].
  assert (Habs : forall w', env w' = env w -> Abs path w' = (fst (Abs path w), w')).
  { intros w' He. unfold Abs. rewrite He. now destruct (Filepath.IsAbs path). }
  rewrite (Habs wa E). destruct (fst (Abs path w)) as [err|absPath] eqn:Ha;
    [stopped|].
  stage (Logs_qm_Lstat absPath wa) l0 Hl0 F0 E0 r wb.
  destruct r as [err|info]; [stopped|].
  stage (Logs_getTrashDirForPath absPath wb) l1 Hl1 F1 E1 r wc.
  destruct r as [err|trashDir]; [stopped|].
  unfold ensureTrashDirs.
  stage (Logs_mkdirEach [Filepath.Join [trashDir; "files"];
                         Filepath.Join [trashDir; "info"]] wc) l2 Hl2 F2 E2 r wd.
  destruct r as [err|]; [stopped|].
  stage (Logs_generateTrashNameInDir (Filepath.Base absPath) trashDir wd)
        l3 Hl3 F3 E3 r w5.
  rename r into name. cbn [timeNow].
  unfold writeTrashInfo, WriteFile.
  set (infoPath := Filepath.Join [trashDir; "info"; name +:+ ".trashinfo"]).
  set (filesPath := Filepath.Join [trashDir; "files"; name]).
  assert (Hnow : now (env w5) = now (env w)) by congruence.
  rewrite Hnow.
  set (content := trashInfoContent absPath (now (env w))).
  destruct (errOnly_call_run (CWriteFile infoPath content 384)
              (fun w0 => createTrunc (env w0) (fs w0) (resolve (env w0) infoPath)
                           content 384) w5)
    as (rw & Hlw & Ew & _ & _ & Hrw).
  destruct (errOnly _ w5) as [wr w6]. cbn [fst snd] in Hlw, Ew, Hrw.
  destruct wr as [err|].
  { destruct rw as [e|]; [|discriminate].
    left. split; [discriminate|]. eexists. split.
    - cbn [snd ret]. rewrite Hlw, Hl3, Hl2, Hl1, Hl0, Hl, <- !app_assoc.
      reflexivity.
    - repeat (apply Forall_app; split);
        try (apply preMove_of_queryOrMkdir; assumption).
      constructor; [right; eauto | constructor]. }
  destruct rw; [discriminate|].
  right. exists absPath, trashDir, name, info, (l ++ l0 ++ l1 ++ l2 ++ l3), w6.
  cbn zeta. fold infoPath filesPath.
  split; [reflexivity|].
  split; [rewrite Hlw, Hl3, Hl2, Hl1, Hl0, Hl, <- !app_assoc; reflexivity|].
  split; [repeat (apply Forall_app; split); assumption|].
  destruct (moveToTrash_starts absPath filesPath info w6) as (r0 & rest & Hm & _).
  split; [exists r0, rest; exact Hm|].
  pose proof (moveToTrash_rename_error absPath filesPath info w6) as Hre.
  destruct (moveToTrash absPath filesPath info w6) as [mv w7].
  cbn [fst snd] in *. destruct mv as [err|]; [|reflexivity].
  unfold Remove.
  destruct (errOnly_call_run (CRemove infoPath)
              (fun w0 => let q := resolve (env w0) infoPath in
                         match fs w0 !! q with
                         | None => (inl ENOENT, fs w0)
                         | Some n =>
                             if IsDir n && hasChildren (fs w0) q
                             then (inl ENOTEMPTY, fs w0)
                             else (inr tt, delete q (fs w0))
                         end) w7) as (rr & Hlr & _).
  destruct (errOnly _ w7) as [rm w8]. cbn [fst snd ret] in *.
  split; [reflexivity|]. split; [exists rr; exact Hlr|].
  intros e0 He0 Hx. destruct (Hre e0 He0 Hx) as [H1 H2].
  split; [congruence | exact H2].
Qed.

(** C1 as the specification words it fails in its last part: an empty
    directory on a drive mounted read-only is copied into the home
    trash, cannot be removed from the drive, and stays in the trash
    although the move failed and the record was taken back. *)
Lemma C1_orphan_data_counterexample :
  fst (Trash "/mnt/usb/empty" Sample.worldReadOnlyDrive) =
    Some (Wrapf "failed to move to trash"
            (PathError (CRemoveAll "/mnt/usb/empty") EROFS)) /\
  fs Sample.worldReadOnlyDrive !! Sample.homeFiles "empty" = None /\
  (exists n,
     fs (snd (Trash "/mnt/usb/empty" Sample.worldReadOnlyDrive))
       !! Sample.homeFiles "empty" = Some n /\ kind n = KDir) /\
  fs (snd (Trash "/mnt/usb/empty" Sample.worldReadOnlyDrive))
    !! Sample.homeInfo "empty.trashinfo" = None.
Proof.
  split; [vm_compute; reflexivity|]. split; [vm_compute; reflexivity|].
  split; [|vm_compute; reflexivity].
  eexists. split; vm_compute; reflexivity.
Qed.

(** C7 at the input where the code departs from it: a regular file on
    a drive mounted read-only. The copy is made and complete, the
    removal of the source fails, and the error is returned while the
    destination stays: no removal of it is attempted. *)
Lemma C7_source_removal_failure :
  let src := "/mnt/usb/x" in
  let dst := "/home/u/.local/share/Trash/files/x" in
  let run := copyFileAcrossDevices src dst (Sample.file "xx" 2)
               Sample.worldReadOnlyReady in
  fst run = Some (PathError (CRemove src) EROFS) /\
  drop 2 (log (snd run)) =
    [(COpen src, None); (COpenExcl dst 420, None); (CCopy dst src, None);
     (CClose dst, None); (CChtimes dst Sample.clock, None);
     (CRemove src, Some EROFS); (CClose src, None)] /\
  fs (snd run) !! Sample.homeFiles "x" = Some (Sample.file "xx" 1) /\
  fs (snd run) !! ["mnt"; "usb"; "x"] = Some (Sample.file "xx" 2).
Proof. vm_compute. repeat split; reflexivity. Qed.

End TrashFacts.


(** ** Put: the move first, then the metadata *)

Section PutFacts.
Import OS TrashLinux.

Hint Resolve Logs_qm_Lstat Logs_qm_Stat Logs_qm_MkdirAll : logs.

Lemma Logs_climb (fuel : nat) (d : Z) (dir : string) :
  Logs isQueryOrMkdir (climb fuel d dir).
Proof. revert dir. induction fuel as [|f IH]; intros dir; cbn [climb]; logs. Qed.

Hint Resolve Logs_climb : logs.

Lemma Logs_findMountPoint (p : string) : Logs isQueryOrMkdir (findMountPoint p).
Proof. unfold findMountPoint. logs. Qed.

Hint Resolve Logs_findMountPoint : logs.

Lemma Logs_xdgTrashDir (p : string) : Logs isQueryOrMkdir (xdgTrashDir p).
Proof.
  unfold xdgTrashDir. logs.
Qed.

Lemma Logs_nextFree (fuel : nat) (i : Z) (d n e : string) :
  Logs isQueryOrMkdir (nextFree fuel i d n e).
Proof. revert i. induction fuel as [|f IH]; intros i; cbn [nextFree]; logs. Qed.

Hint Resolve Logs_nextFree : logs.

Lemma Logs_uniqueTrashName (fuel : nat) (d o : string) :
  Logs isQueryOrMkdir (uniqueTrashName fuel d o).
Proof. unfold uniqueTrashName. logs. Qed.

Lemma Logs_createTrashInfoFile (t o : string) :
  Logs isInfoCall (createTrashInfoFile t o).
Proof.
  unfold createTrashInfoFile, MkdirAll, Create, WriteString, Close. logs.
Qed.

Lemma mkdirAllFrom_keeps (e : Env) (mode : Z) (todo : list string) :
  forall (m : tree) (done : list string) (d : Z) (k : list string) (n : Node),
    m !! k = Some n ->
    snd (mkdirAllFrom e mode m done todo d) !! k = Some n.
Proof.
  induction todo as [|c rest IH]; intros m done d k n Hk; [exact Hk|].
  cbn [mkdirAllFrom].
  destruct (m !! (done ++ [c])) as [n0|] eqn:Hq.
  - destruct (follow maxLinks e m (done ++ [c])) as [err|[q n1]]; [exact Hk|].
    destruct (IsDir n1); [now apply IH | exact Hk].
  - apply IH. rewrite lookup_insert_ne; [exact Hk|]. congruence.
Qed.

Lemma createTrunc_keeps (e : Env) (m : tree) (q k : list string)
    (content : string) (mode : Z) (n : Node) :
  q <> k -> m !! k = Some n ->
  snd (createTrunc e m q content mode) !! k = Some n.
Proof.
  intros Hne Hk. unfold createTrunc.
  destruct (m !! q) as [n0|].
  - destruct (kind n0); cbn; [rewrite lookup_insert_ne by exact Hne| |];
      exact Hk.
  - destruct (parentIsDir m q); cbn; [|rewrite lookup_insert_ne by exact Hne];
      exact Hk.
Qed.

Lemma setData_keeps (m : tree) (q k : list string) (content : string) (n : Node) :
  q <> k -> m !! k = Some n -> setData m q content !! k = Some n.
Proof.
  intros Hne Hk. unfold setData. destruct (m !! q); [|exact Hk].
  now rewrite lookup_insert_ne by exact Hne.
Qed.

(** Writing the record leaves every other path as it is. *)
Lemma createTrashInfoFile_keeps (trashed orig : string) (w : World)
    (k : list string) (n : Node) :
  resolve (env w) (infoPathOf trashed) <> k ->
  fs w !! k = Some n ->
  fs (snd (createTrashInfoFile trashed orig w)) !! k = Some n.
Proof.
  intros Hne Hk. unfold createTrashInfoFile, bind, infoPathOf in *.
  set (infoDir := Filepath.Join [Filepath.Dir (Filepath.Dir trashed); "info"]) in *.
  set (infoPath := Filepath.Join [infoDir; Filepath.Base trashed +:+ ".trashinfo"]) in *.
  assert (H1 : fs (snd (MkdirAll infoDir 448 w)) !! k = Some n /\
               env (snd (MkdirAll infoDir 448 w)) = env w).
  { unfold MkdirAll, errOnly, call. destruct (denied _ _); [now split|].
    pose proof (mkdirAllFrom_keeps (env w) 448 (resolve (env w) infoDir)
                  (fs w) [] (rootDev (fs w)) k n Hk) as H.
    destruct (mkdirAllFrom _ _ _ _ _ _) as [[err|u] m]; cbn in *; now split. }
  destruct (MkdirAll infoDir 448 w) as [mk w1]. cbn [snd] in H1.
  destruct H1 as [H1 E1]. destruct mk; [exact H1|].
  assert (Ha : Abs orig w1 = (fst (Abs orig w1), w1)).
  { unfold Abs. now destruct (Filepath.IsAbs orig). }
  rewrite Ha. cbn [timeNow].
  set (content := linuxInfoContent _ _).
  assert (H2 : fs (snd (Create infoPath w1)) !! k = Some n /\
               env (snd (Create infoPath w1)) = env w).
  { unfold Create, errOnly, call. destruct (denied _ _); [now split|].
    assert (Hne1 : resolve (env w1) infoPath <> k) by now rewrite E1.
    pose proof (createTrunc_keeps (env w1) (fs w1) (resolve (env w1) infoPath) k
                  "" 438 n Hne1 H1) as H.
    destruct (createTrunc _ _ _ _ _) as [[err|u] m]; cbn in *; now split. }
  destruct (Create infoPath w1) as [cr w2]. cbn [snd] in H2.
  destruct H2 as [H2 E2]. destruct cr; [exact H2|].
  assert (H3 : fs (snd (WriteString infoPath content w2)) !! k = Some n).
  { unfold WriteString, errOnly, call. destruct (denied _ _); [exact H2|].
    rewrite E2. destruct (fs w2 !! resolve (env w) infoPath); cbn; [|exact H2].
    now apply setData_keeps. }
  destruct (WriteString infoPath content w2) as [ws w3]. cbn [snd] in H3.
  unfold Close, errOnly, call. destruct (denied _ _); cbn; exact H3.
Qed.

Lemma prePut_of_queryOrMkdir (l : list (Call * option Errno)) :
  Forall isQueryOrMkdir l -> Forall isPrePut l.
Proof. intros F. eapply Forall_impl; [exact F|]. intros ev H. now left. Qed.

Ltac stage lem l Hl F E r w' :=
  destruct lem as (l & Hl & F & E);
  match type of Hl with
  | log (snd (?m ?w0)) = _ =>
      destruct (m w0) as [r w']; cbn [snd fst] in Hl, E
  end.

Ltac stopped :=
  left; split; [reflexivity|]; split; [discriminate|]; eexists; split;
  [cbn [snd ret]; repeat match goal with H : log _ = _ |- _ => rewrite H; clear H end;
   rewrite <- ?app_assoc; reflexivity
  | repeat (apply Forall_app; split); auto using prePut_of_queryOrMkdir ].


(** The drive has no room for the record: the file is in the trash,
    the record is not, and [Put] returns the path and an error. *)
Lemma Put_without_record :
  fst (Put 5 "/mnt/usb/x" Sample.worldFullDrive) =
    Some ("/mnt/usb/.Trash-1000/files/x",
          Some (Printf "trash: file trashed but failed to write .trashinfo"
                  (PathError (CCreate "/mnt/usb/.Trash-1000/info/x.trashinfo")
                     ENOSPC))) /\
  fs (snd (Put 5 "/mnt/usb/x" Sample.worldFullDrive))
    !! ["mnt"; "usb"; ".Trash-1000"; "files"; "x"] = Some (Sample.file "xx" 2) /\
  fs (snd (Put 5 "/mnt/usb/x" Sample.worldFullDrive))
    !! ["mnt"; "usb"; ".Trash-1000"; "info"; "x.trashinfo"] = None /\
  fs (snd (Put 5 "/mnt/usb/x" Sample.worldFullDrive))
    !! ["mnt"; "usb"; "x"] = None.
Proof. vm_compute. repeat split; reflexivity. Qed.

End PutFacts.


(** ** Paths: joining a name to a directory *)

Section Paths.
Import OS Filepath.

Lemma splitSep_nonempty (s : string) : splitSep s <> [].
Proof.
  destruct s as [|c s]; cbn; [discriminate|].
  destruct (Ascii.eqb c "/"); [discriminate|].
  destruct (splitSep s); discriminate.
Qed.

Lemma splitSep_piece (a rest : string) :
  noSep a = true ->
  splitSep (a +:+ String "/" rest) = a :: splitSep rest.
Proof.
  induction a as [|x a IH]; intros H; [reflexivity|].
  cbn in H. apply andb_true_iff in H as [Hx Ha]. apply negb_true_iff in Hx.
  rewrite app_cons. cbn [splitSep]. rewrite Hx, (IH Ha). reflexivity.
Qed.

Lemma splitSep_single (a : string) : noSep a = true -> splitSep a = [a].
Proof.
  induction a as [|x a IH]; intros H; [reflexivity|].
  cbn in H. apply andb_true_iff in H as [Hx Ha]. apply negb_true_iff in Hx.
  cbn [splitSep]. rewrite Hx, (IH Ha). reflexivity.
Qed.

Lemma splitSep_noSep (s : string) :
  Forall (fun c => noSep c = true) (splitSep s).
Proof.
  induction s as [|c s IH]; [repeat constructor|].
  cbn [splitSep]. destruct (Ascii.eqb c "/") eqn:Hc.
  - constructor; [reflexivity | exact IH].
  - destruct (splitSep s) as [|l ls]; [repeat constructor; cbn; now rewrite Hc|].
    inversion IH; subst. constructor; [|assumption].
    cbn. now rewrite Hc.
Qed.

Lemma splitSep_app (d n : string) :
  noSep n = true ->
  splitSep (d +:+ String "/" n) = splitSep d ++ [n].
Proof.
  intros Hn. induction d as [|c d IH].
  - rewrite app_nil_l. cbn [splitSep]. cbn. now rewrite splitSep_single.
  - rewrite app_cons. cbn [splitSep]. rewrite IH.
    destruct (Ascii.eqb c "/"); [reflexivity|].
    destruct (splitSep d) as [|l ls] eqn:Hd; [now apply splitSep_nonempty in Hd|].
    reflexivity.
Qed.

(** The stack of [Clean] never holds an empty element or a dot. *)
Lemma cleanStep_proper (r : bool) (stack : list string) (c : string) :
  Forall properElem stack -> Forall properElem (cleanStep r stack c).
Proof.
  intros H. unfold cleanStep.
  destruct (String.eqb_spec c ""); [exact H|].
  destruct (String.eqb_spec c "."); [exact H|]. cbn [orb].
  destruct (String.eqb_spec c "..") as [->|].
  - destruct stack as [|top below].
    + destruct r; repeat constructor; discriminate.
    + destruct (String.eqb top "..").
      * constructor; [split; discriminate | exact H].
      * now inversion H.
  - constructor; [split; assumption | exact H].
Qed.

Lemma fold_cleanStep_proper (r : bool) (elems stack : list string) :
  Forall properElem stack ->
  Forall properElem (fold_left (cleanStep r) elems stack).
Proof.
  revert stack. induction elems as [|c elems IH]; intros stack H; [exact H|].
  cbn [fold_left]. apply IH. now apply cleanStep_proper.
Qed.

Lemma cleanStep_noSep (r : bool) (stack : list string) (c : string) :
  Forall (fun x => noSep x = true) stack -> noSep c = true ->
  Forall (fun x => noSep x = true) (cleanStep r stack c).
Proof.
  intros H Hc. unfold cleanStep.
  destruct (_ || _); [exact H|].
  destruct (String.eqb c "..").
  - destruct stack as [|top below].
    + destruct r; repeat constructor; exact Hc.
    + destruct (String.eqb top ".."); [constructor; assumption | now inversion H].
  - constructor; assumption.
Qed.

Lemma fold_cleanStep_noSep (r : bool) (elems stack : list string) :
  Forall (fun x => noSep x = true) stack ->
  Forall (fun x => noSep x = true) elems ->
  Forall (fun x => noSep x = true) (fold_left (cleanStep r) elems stack).
Proof.
  revert stack. induction elems as [|c elems IH]; intros stack H He; [exact H|].
  inversion He; subst. cbn [fold_left]. apply IH; [|assumption].
  now apply cleanStep_noSep.
Qed.

Lemma validName_spec (c : string) :
  validName c = true <->
  c <> "" /\ c <> "." /\ c <> ".." /\ noSep c = true.
Proof.
  unfold validName. rewrite !andb_true_iff, !negb_true_iff.
  rewrite !String.eqb_neq. tauto.
Qed.

(** Rooted cleaning keeps a stack of file names. *)
Lemma cleanStep_valid (stack : list string) (c : string) :
  Forall (fun x => validName x = true) stack -> noSep c = true ->
  Forall (fun x => validName x = true) (cleanStep true stack c).
Proof.
  intros H Hc. unfold cleanStep.
  destruct (String.eqb_spec c ""); [exact H|].
  destruct (String.eqb_spec c "."); [exact H|]. cbn [orb].
  destruct (String.eqb_spec c "..") as [->|].
  - destruct stack as [|top below]; [constructor|].
    inversion H as [|? ? Ht Hb]; subst.
    apply validName_spec in Ht as (_ & _ & Ht & _).
    apply String.eqb_neq in Ht. now rewrite Ht.
  - constructor; [|exact H]. apply validName_spec. auto.
Qed.

Lemma fold_cleanStep_valid (elems stack : list string) :
  Forall (fun x => validName x = true) stack ->
  Forall (fun x => noSep x = true) elems ->
  Forall (fun x => validName x = true) (fold_left (cleanStep true) elems stack).
Proof.
  revert stack. induction elems as [|c elems IH]; intros stack H He; [exact H|].
  inversion He; subst. cbn [fold_left]. apply IH; [|assumption].
  now apply cleanStep_valid.
Qed.

Lemma validName_noSep (c : string) : validName c = true -> noSep c = true.
Proof. intros H. now apply validName_spec in H. Qed.

(** The elements a path resolves to are file names. *)
Lemma resolve_valid (e : Env) (p : string) :
  Forall (fun x => validName x = true) (cwd e) ->
  Forall (fun x => validName x = true) (resolve e p).
Proof.
  intros Hcwd. unfold resolve, cleanElems. apply Forall_rev.
  apply fold_cleanStep_valid; [constructor|].
  apply Forall_app. split; [|apply splitSep_noSep].
  destruct (IsAbs p); [constructor|].
  eapply Forall_impl; [exact Hcwd|]. intros x. apply validName_noSep.
Qed.

Lemma cleanStep_skip (r : bool) (stack : list string) (c : string) :
  c = "" \/ c = "." -> cleanStep r stack c = stack.
Proof. intros [->| ->]; reflexivity. Qed.

Lemma cleanStep_push (r : bool) (stack : list string) (c : string) :
  c <> "" -> c <> "." -> c <> ".." -> cleanStep r stack c = c :: stack.
Proof.
  intros H1 H2 H3. unfold cleanStep.
  apply String.eqb_neq in H1, H2, H3. now rewrite H1, H2, H3.
Qed.

Lemma cleanStep_up_pop (r : bool) (top : string) (below : list string) :
  top <> ".." -> cleanStep r (top :: below) ".." = below.
Proof.
  intros H. unfold cleanStep. cbn. apply String.eqb_neq in H. now rewrite H.
Qed.

(** Cleaning first changes nothing for rooted cleaning afterwards. *)
Lemma fold_clean_norm (S T0 : list string) :
  fold_left (cleanStep true) (cleanElems false S) T0 =
  fold_left (cleanStep true) S T0.
Proof.
  unfold cleanElems. induction S as [|c S IH] using rev_ind; [reflexivity|].
  rewrite !fold_left_app. cbn [fold_left]. rewrite <- IH.
  pose proof (fold_cleanStep_proper false S [] ltac:(constructor)) as Hp.
  set (U := fold_left (cleanStep false) S []) in *. clearbody U. clear IH.
  destruct (String.eqb_spec c "") as [->|H1]; [reflexivity|].
  destruct (String.eqb_spec c ".") as [->|H2]; [reflexivity|].
  destruct (String.eqb_spec c "..") as [->|H3].
  - destruct U as [|top below]; [reflexivity|].
    destruct (String.eqb_spec top "..") as [->|Htop].
    + change (cleanStep false (".." :: below) "..") with (".." :: ".." :: below).
      cbn [rev]. rewrite !fold_left_app. reflexivity.
    + rewrite cleanStep_up_pop by exact Htop.
      cbn [rev]. rewrite fold_left_app. cbn [fold_left].
      inversion Hp as [|? ? [Ht1 Ht2] _]; subst.
      rewrite (cleanStep_push true _ top) by assumption.
      now rewrite cleanStep_up_pop.
  - rewrite (cleanStep_push false) by assumption.
    cbn [rev]. rewrite fold_left_app. reflexivity.
Qed.

Lemma concat_cons2 (a b : string) (l : list string) :
  Strings.Join "/" (a :: b :: l) = a +:+ String "/" (Strings.Join "/" (b :: l)).
Proof. reflexivity. Qed.

Lemma splitSep_joined (E : list string) :
  E <> [] -> Forall (fun x => noSep x = true) E ->
  splitSep (Strings.Join "/" E) = E.
Proof.
  induction E as [|a E IH]; [congruence|]. intros _ H.
  inversion H as [|? ? Ha HE]; subst.
  destruct E as [|b E].
  - cbn. now apply splitSep_single.
  - rewrite concat_cons2, splitSep_piece by exact Ha.
    rewrite IH; [reflexivity | discriminate | exact HE].
Qed.

Lemma IsAbs_joined (a : string) (E : list string) :
  a <> "" -> noSep a = true -> IsAbs (Strings.Join "/" (a :: E)) = false.
Proof.
  intros Hne Ha. destruct a as [|c a]; [congruence|].
  cbn in Ha. apply andb_true_iff in Ha as [Hc _]. apply negb_true_iff in Hc.
  assert (Hs : exists rest, Strings.Join "/" (String c a :: E) = String c rest).
  { destruct E; [now exists a|]. rewrite concat_cons2, app_cons. eauto. }
  destruct Hs as (rest & ->). unfold IsAbs, Strings.HasPrefix.
  cbn [String.prefix].
  destruct (ascii_dec "/" c) as [<-|]; [discriminate | reflexivity].
Qed.

Lemma fold_cleanStep_names (E T : list string) :
  Forall (fun x => validName x = true) E ->
  fold_left (cleanStep true) E T = rev E ++ T.
Proof.
  revert T. induction E as [|a E IH]; intros T H; [reflexivity|].
  inversion H as [|? ? Ha HE]; subst. cbn [fold_left rev].
  apply validName_spec in Ha as (H1 & H2 & H3 & _).
  rewrite cleanStep_push by assumption.
  rewrite IH by exact HE. now rewrite <- app_assoc.
Qed.

Lemma IsAbs_rooted (rest : string) : IsAbs (String "/" rest) = true.
Proof.
  unfold IsAbs, Strings.HasPrefix. cbn [String.prefix].
  destruct (ascii_dec "/" "/"); [now destruct rest | contradiction].
Qed.

(** The kernel finds the same place under a path and under its
    cleaned form. *)
Lemma resolve_Clean (e : Env) (x : string) :
  resolve e (Clean x) = resolve e x.
Proof.
  unfold Clean.
  pose proof (fold_cleanStep_proper (IsAbs x) (splitSep x) [] ltac:(constructor)) as Hp.
  pose proof (fold_cleanStep_noSep (IsAbs x) (splitSep x) []
                ltac:(constructor) (splitSep_noSep x)) as Hn.
  apply Forall_rev in Hp, Hn. fold (cleanElems (IsAbs x) (splitSep x)) in Hp, Hn.
  destruct (IsAbs x) eqn:Habs.
  - (* rooted *)
    assert (Hv : Forall (fun c => validName c = true) (cleanElems true (splitSep x))).
    { unfold cleanElems. apply Forall_rev.
      apply fold_cleanStep_valid; [constructor | apply splitSep_noSep]. }
    transitivity (cleanElems true (splitSep x)).
    2:{ unfold resolve. now rewrite Habs. }
    set (E := cleanElems true (splitSep x)) in *. clearbody E.
    destruct E as [|a E]; [reflexivity|].
    unfold render, resolve. rewrite app_cons, app_nil_l, IsAbs_rooted.
    cbn [app splitSep]. change (Ascii.eqb "/" "/") with true. cbn iota.
    rewrite splitSep_joined by (discriminate || exact Hn).
    unfold cleanElems.
    change (fold_left (cleanStep true) ("" :: a :: E) [])
      with (fold_left (cleanStep true) (a :: E) (cleanStep true [] "")).
    rewrite (cleanStep_skip true [] "") by now left.
    rewrite fold_cleanStep_names by exact Hv.
    now rewrite app_nil_r, rev_involutive.
  - (* relative *)
    transitivity (rev (fold_left (cleanStep true) (cleanElems false (splitSep x))
                         (fold_left (cleanStep true) (cwd e) []))).
    2:{ rewrite fold_clean_norm. unfold resolve, cleanElems.
        now rewrite Habs, fold_left_app. }
    set (E := cleanElems false (splitSep x)) in *. clearbody E.
    destruct E as [|a E].
    + unfold render, resolve, cleanElems. cbn [IsAbs Strings.HasPrefix].
      change (IsAbs ".") with false. cbn iota.
      rewrite fold_left_app. reflexivity.
    + inversion Hp as [|? ? [Ha _] _]; subst. inversion Hn as [|? ? Hna _]; subst.
      unfold render, resolve. rewrite IsAbs_joined by assumption.
      rewrite splitSep_joined by (discriminate || exact Hn).
      unfold cleanElems. now rewrite fold_left_app.
Qed.

Lemma prefix_nil (s : string) : String.prefix "" s = true.
Proof. now destruct s. Qed.

Lemma IsAbs_app (d rest : string) :
  d <> "" -> IsAbs (d +:+ rest) = IsAbs d.
Proof.
  intros Hd. destruct d as [|c d]; [congruence|].
  rewrite app_cons. unfold IsAbs, Strings.HasPrefix. cbn [String.prefix].
  destruct (ascii_dec "/" c); [now rewrite !prefix_nil | reflexivity].
Qed.

(** A name joined to a directory resolves to the directory's place
    and the name. *)
Lemma resolve_Join (e : Env) (d n : string) :
  validName n = true ->
  resolve e (Join [d; n]) = resolve e d ++ [n].
Proof.
  intros Hn. apply validName_spec in Hn as (H1 & H2 & H3 & Hs).
  assert (Hpush : forall pre,
             cleanElems true (pre ++ [n]) = cleanElems true pre ++ [n]).
  { intros pre. unfold cleanElems. rewrite fold_left_app. cbn [fold_left].
    now rewrite cleanStep_push by assumption. }
  cbn [Join].
  destruct (String.eqb_spec d "") as [->|Hd].
  - apply String.eqb_neq in H1. rewrite H1.
    change (Strings.Join "/" [n]) with n.
    rewrite resolve_Clean. unfold resolve.
    rewrite (IsAbs_joined n [] ltac:(now apply String.eqb_neq) Hs : IsAbs n = false).
    change (IsAbs "") with false. cbn iota.
    rewrite splitSep_single by exact Hs. rewrite Hpush.
    cbn [splitSep]. unfold cleanElems at 2. rewrite fold_left_app.
    reflexivity.
  - rewrite resolve_Clean.
    change (Strings.Join "/" [d; n]) with (d +:+ String "/" n).
    unfold resolve. rewrite IsAbs_app by exact Hd.
    rewrite splitSep_app by exact Hs. rewrite app_assoc. apply Hpush.
Qed.

End Paths.


(** ** Directories and their entries *)

Section Entries.
Import OS.

Lemma stripPrefix_spec (q k r : list string) :
  stripPrefix q k = Some r <-> k = q ++ r.
Proof.
  revert k. induction q as [|a q IH]; intros k; cbn [stripPrefix app].
  - split; [now intros [= ->] | now intros ->].
  - destruct k as [|b k]; [split; discriminate|].
    destruct (String.eqb_spec a b) as [->|Hne].
    + rewrite IH. split; [now intros -> | now intros [= ->]].
    + split; [discriminate | intros [= ? ?]; congruence].
Qed.

Lemma childName_spec (q k : list string) (n : string) :
  childName q k = Some n <-> k = q ++ [n].
Proof.
  unfold childName. destruct (stripPrefix q k) as [r|] eqn:Hs.
  - apply stripPrefix_spec in Hs. subst k.
    destruct r as [|x [|y r]]; split; try discriminate.
    + intros H. apply (f_equal List.length) in H.
      rewrite !length_app in H. cbn in H. lia.
    + now intros [= ->].
    + intros H. now apply app_inv_head in H as [= ->].
    + intros H. apply app_inv_head in H. discriminate.
  - split; [discriminate|]. intros ->.
    assert (H : stripPrefix q (q ++ [n]) = Some [n]) by now apply stripPrefix_spec.
    congruence.
Qed.

Lemma elem_insertSorted (x s : string) (l : list string) :
  x ∈ insertSorted s l <-> x = s \/ x ∈ l.
Proof.
  induction l as [|y l IH]; cbn [insertSorted].
  - rewrite list_elem_of_singleton. rewrite elem_of_nil. tauto.
  - destruct (String.leb s y); rewrite !elem_of_cons; [tauto|].
    rewrite IH. tauto.
Qed.

Lemma elem_sortNames (x : string) (l : list string) :
  x ∈ sortNames l <-> x ∈ l.
Proof.
  induction l as [|y l IH]; cbn [sortNames fold_right]; [reflexivity|].
  fold (sortNames l). rewrite elem_insertSorted, IH, elem_of_cons. tauto.
Qed.

Lemma children_spec (m : tree) (q : list string) (n : string) :
  n ∈ children m q <-> is_Some (m !! (q ++ [n])).
Proof.
  unfold children. rewrite elem_sortNames, list_elem_of_omap. split.
  - intros ([k v] & Hin & Hc). apply elem_of_map_to_list in Hin.
    cbn in Hc. apply childName_spec in Hc. subst k. eauto.
  - intros [v Hv]. exists (q ++ [n], v). split.
    + now apply elem_of_map_to_list.
    + cbn. now apply childName_spec.
Qed.

Lemma entriesOf_elem (m : tree) (q : list string) (n : string) (v : Node) :
  m !! (q ++ [n]) = Some v -> (n, v) ∈ entriesOf m q.
Proof.
  intros Hv. unfold entriesOf. apply list_elem_of_omap. exists n. split.
  - apply children_spec. eauto.
  - now rewrite Hv.
Qed.

Lemma entriesOf_child (m : tree) (q : list string) (en : DirEntry) :
  en ∈ entriesOf m q -> m !! (q ++ [fst en]) = Some (snd en).
Proof.
  unfold entriesOf. rewrite list_elem_of_omap. intros (n & _ & H).
  destruct (m !! (q ++ [n])) eqn:Hq; [|discriminate]. now injection H as <-.
Qed.

Lemma entriesOf_emptied (m : tree) (q : list string) :
  emptied m q -> entriesOf m q = [].
Proof.
  intros He. destruct (entriesOf m q) as [|en l] eqn:H; [reflexivity|].
  assert (Hin : en ∈ entriesOf m q) by (rewrite H; left).
  apply entriesOf_child in Hin. now rewrite He in Hin.
Qed.

Lemma removeTree_subseteq (m : tree) (q : list string) : removeTree m q ⊆ m.
Proof. apply map_filter_subseteq. Qed.

Lemma removeTree_gone (m : tree) (q k : list string) :
  q `prefix_of` k -> removeTree m q !! k = None.
Proof.
  intros Hp. unfold removeTree. apply map_lookup_filter_None. right.
  intros v _ Hn. now apply Hn.
Qed.

Lemma follow_mono (fuel : nat) (e : Env) (m' m : tree) (q : list string)
    (r : list string * Node) :
  m' ⊆ m -> follow fuel e m' q = inr r -> follow fuel e m q = inr r.
Proof.
  intros Hsub. revert q. induction fuel as [|f IH]; intros q; cbn [follow];
    destruct (m' !! q) as [n|] eqn:Hq; try discriminate;
    rewrite (lookup_weaken _ _ _ _ Hq Hsub);
    destruct (kind n); auto.
Qed.

Lemma emptied_mono (m' m : tree) (q : list string) :
  m' ⊆ m -> emptied m q -> emptied m' q.
Proof.
  intros Hsub He name. destruct (m' !! (q ++ [name])) as [v|] eqn:H; [|reflexivity].
  pose proof (lookup_weaken _ _ _ _ H Hsub) as H2.
  rewrite (He name) in H2. discriminate.
Qed.

End Entries.


(** ** Emptying a trash root *)

Section Emptying.
Import OS Trash.

Lemma shrinks_refl (w : World) : shrinks w w.
Proof. now split. Qed.

Lemma shrinks_trans (w1 w2 w3 : World) :
  shrinks w1 w2 -> shrinks w2 w3 -> shrinks w1 w3.
Proof.
  intros (H1 & E1 & P1) (H2 & E2 & P2). split; [|split; congruence].
  etransitivity; eassumption.
Qed.

Lemma shrinks_relog (w : World) l : shrinks w (relog w l).
Proof. now split. Qed.

Lemma ReadDir_inv (p : string) (w w' : World) (entries : list DirEntry) :
  ReadDir p w = (inr entries, w') ->
  denied (env w) (CReadDir p) = None /\
  exists q n,
    follow maxLinks (env w) (fs w) (resolve (env w) p) = inr (q, n) /\
    IsDir n = true /\ entries = entriesOf (fs w) q.
Proof.
  unfold ReadDir, call. destruct (denied _ _); [discriminate|].
  destruct (follow _ _ _ _) as [e|[q n]]; [discriminate|].
  destruct (IsDir n) eqn:Hd; [|discriminate].
  intros [= <- _]. split; [reflexivity|]. eauto.
Qed.

Lemma ReadDir_dir (p : string) (w : World) (n : Node) :
  denied (env w) (CReadDir p) = None ->
  fs w !! resolve (env w) p = Some n -> kind n = KDir ->
  ReadDir p w =
    (inr (entriesOf (fs w) (resolve (env w) p)), pushLog w (CReadDir p) None).
Proof.
  intros Hd Hq Hk. unfold ReadDir, call. rewrite Hd.
  unfold maxLinks. cbn [follow]. rewrite Hq, Hk.
  unfold IsDir. rewrite Hk. cbn. unfold setFs, pushLog. now destruct w.
Qed.

Lemma follow_dir (fuel : nat) (e : Env) (m : tree) (q : list string) (n : Node) :
  m !! q = Some n -> kind n = KDir -> follow fuel e m q = inr (q, n).
Proof. intros Hq Hk. destruct fuel; cbn [follow]; now rewrite Hq, Hk. Qed.

Lemma RemoveAll_inv (p : string) (w w' : World) :
  RemoveAll p w = (None, w') ->
  fs w' = removeTree (fs w) (resolve (env w) p) /\
  env w' = env w /\ pkg w' = pkg w.
Proof.
  unfold RemoveAll, errOnly, call. destruct (denied _ _); [discriminate|].
  intros [= <-]. now cbn.
Qed.

(** The loop of [emptyDir] removes every entry it is given. *)
Lemma removeEach_ok (dir : string) (entries : list DirEntry) :
  forall w w',
    removeEach dir entries w = (None, w') ->
    Forall (fun en => validName (fst en) = true) entries ->
    shrinks w w' /\
    forall en, en ∈ entries ->
      fs w' !! (resolve (env w) dir ++ [fst en]) = None.
Proof.
  induction entries as [|en0 rest IH]; intros w w' Hrun Hvalid.
  - injection Hrun as <-. split; [apply shrinks_refl|].
    intros en H. now apply elem_of_nil in H.
  - inversion Hvalid as [|? ? Hv Hvr]; subst.
    cbn [removeEach] in Hrun. unfold bind in Hrun.
    destruct (RemoveAll (Filepath.Join [dir; fst en0]) w) as [r w1] eqn:Hr.
    destruct r as [err|]; [discriminate|].
    apply RemoveAll_inv in Hr as (Hfs & He & Hp).
    rewrite resolve_Join in Hfs by exact Hv.
    destruct (IH w1 w' Hrun Hvr) as (Hs & Hgone).
    assert (Hs1 : shrinks w w1).
    { split; [|split; assumption]. rewrite Hfs. apply removeTree_subseteq. }
    split; [eapply shrinks_trans; eassumption|].
    intros en Hin. apply elem_of_cons in Hin as [->|Hin].
    + destruct Hs as (Hsub & _).
      destruct (fs w' !! _) as [v|] eqn:Hl; [|reflexivity].
      pose proof (lookup_weaken _ _ _ _ Hl Hsub) as H2.
      rewrite Hfs, removeTree_gone in H2 by reflexivity. discriminate.
    + rewrite <- He. now apply Hgone.
Qed.

Lemma validTree_child (m : tree) (q : list string) (name : string) (v : Node) :
  validTree m -> m !! (q ++ [name]) = Some v -> validName name = true.
Proof.
  intros Hv Hl. specialize (Hv _ _ Hl). rewrite Forall_forall in Hv.
  apply Hv. apply list_elem_of_In, in_or_app. right. now left.
Qed.

Lemma validTree_mono (m' m : tree) : m' ⊆ m -> validTree m -> validTree m'.
Proof.
  intros Hsub Hv k n Hk. apply (Hv k n). eapply lookup_weaken; eassumption.
Qed.

(** A directory that [emptyDir] went through has no entry left. *)
Lemma emptyDir_ok (dir : string) (w w' : World) :
  emptyDir dir w = (None, w') ->
  validTree (fs w) ->
  shrinks w w' /\
  denied (env w) (CReadDir dir) = None /\
  (dirAt (fs w) (resolve (env w) dir) ->
   emptied (fs w') (resolve (env w) dir)).
Proof.
  intros Hrun Hvalid. unfold emptyDir, bind in Hrun.
  destruct (ReadOnly_ReadDir dir w) as (l1 & Hw1).
  destruct (ReadDir dir w) as [rd w1] eqn:Hrd. cbn [snd] in Hw1. subst w1.
  destruct rd as [err|entries]; [discriminate|].
  apply ReadDir_inv in Hrd as (Hden & q & n & Hf & Hd & ->).
  assert (Hnames : Forall (fun en => validName (fst en) = true)
                     (entriesOf (fs w) q)).
  { apply Forall_forall. intros en Hin. apply entriesOf_child in Hin.
    eapply validTree_child; eassumption. }
  destruct (removeEach_ok dir _ _ _ Hrun Hnames) as (Hs & Hgone).
  cbn [env relog] in Hgone.
  split; [eapply shrinks_trans; [apply (shrinks_relog w l1) | exact Hs]|].
  split; [exact Hden|].
  intros (n0 & Hq & Hk) name.
  rewrite (follow_dir _ _ _ _ _ Hq Hk) in Hf. injection Hf as <- <-.
  destruct (fs w !! (resolve (env w) dir ++ [name])) as [v|] eqn:Hl.
  - apply (Hgone (name, v)). now apply entriesOf_elem.
  - destruct Hs as (Hsub & _). cbn [fs relog] in Hsub.
    destruct (fs w' !! _) as [v|] eqn:Hl'; [|reflexivity].
    pose proof (lookup_weaken _ _ _ _ Hl' Hsub) as H2. congruence.
Qed.

Lemma dirAt_mono (m' m : tree) (q : list string) :
  m' ⊆ m -> dirAt m' q -> dirAt m q.
Proof.
  intros Hsub (n & Hq & Hk). exists n. split; [|exact Hk].
  eapply lookup_weaken; eassumption.
Qed.

Lemma cleared_mono (e : Env) (m' m : tree) (root : string) :
  m' ⊆ m -> cleared e m root -> cleared e m' root.
Proof.
  intros Hsub (D1 & D2 & H1 & H2). split; [exact D1|]. split; [exact D2|].
  split; intros Hd; (eapply emptied_mono; [exact Hsub|]);
    [apply H1 | apply H2]; eapply dirAt_mono; eassumption.
Qed.

(** After [emptyTrashDir], the root is cleared. *)
Lemma emptyTrashDir_ok (root : string) (w w' : World) :
  emptyTrashDir root w = (None, w') ->
  validTree (fs w) ->
  shrinks w w' /\ cleared (env w') (fs w') root.
Proof.
  intros Hrun Hvalid. unfold emptyTrashDir, bind in Hrun.
  destruct (emptyDir (Filepath.Join [root; "files"]) w) as [f w1] eqn:Hf.
  destruct f as [err|]; [discriminate|].
  destruct (emptyDir_ok _ _ _ Hf Hvalid) as (S1 & D1 & E1).
  destruct (emptyDir (Filepath.Join [root; "info"]) w1) as [i w2] eqn:Hi.
  destruct i as [err|]; [discriminate|]. injection Hrun as <-.
  destruct S1 as (Sub1 & Env1 & Pkg1).
  destruct (emptyDir_ok _ _ _ Hi (validTree_mono _ _ Sub1 Hvalid))
    as (S2 & D2 & E2).
  destruct S2 as (Sub2 & Env2 & Pkg2).
  split.
  { split; [etransitivity; eassumption | split; congruence]. }
  rewrite Env2, Env1. rewrite Env1 in D2, E2.
  split; [exact D1|]. split; [exact D2|]. split.
  - intros Hd. eapply emptied_mono; [exact Sub2|]. apply E1.
    eapply dirAt_mono; [|exact Hd]. etransitivity; eassumption.
  - intros Hd. apply E2. eapply dirAt_mono; [exact Sub2 | exact Hd].
Qed.

Lemma Stat_inv (p : string) (w w' : World) (info : Node) :
  Stat p w = (inr info, w') ->
  denied (env w) (CStat p) = None /\
  exists q, follow maxLinks (env w) (fs w) (resolve (env w) p) = inr (q, info).
Proof.
  unfold Stat, call. destruct (denied _ _); [discriminate|].
  destruct (follow _ _ _ _) as [e|[q n]]; [discriminate|].
  intros [= <- _]. eauto.
Qed.

Lemma Stat_statsDir (p : string) (w : World) :
  statsDir (env w) (fs w) p ->
  exists info, fst (Stat p w) = inr info /\ IsDir info = true.
Proof.
  intros (Hd & q & n & Hf & Hi). exists n. unfold Stat, call.
  now rewrite Hd, Hf.
Qed.

Lemma statsDir_mono (e : Env) (m' m : tree) (p : string) :
  m' ⊆ m -> statsDir e m' p -> statsDir e m p.
Proof.
  intros Hsub (Hd & q & n & Hf & Hi). split; [exact Hd|].
  exists q, n. split; [|exact Hi]. eapply follow_mono; eassumption.
Qed.

(** After [emptyMounts], every trash root still found is cleared. *)
Lemma emptyMounts_ok (u : string) (mounts : list string) :
  forall w w',
    emptyMounts u mounts w = (None, w') ->
    validTree (fs w) ->
    shrinks w w' /\
    forall mount, In mount mounts -> mount <> "/" ->
      statsDir (env w') (fs w') (mountTrash mount u) ->
      cleared (env w') (fs w') (mountTrash mount u).
Proof.
  induction mounts as [|m0 rest IH]; intros w w' Hrun Hvalid.
  { injection Hrun as <-. split; [apply shrinks_refl | intros ? []]. }
  cbn [emptyMounts] in Hrun.
  destruct (String.eqb_spec m0 "/") as [->|Hm0].
  { destruct (IH w w' Hrun Hvalid) as (Hs & Hc). split; [exact Hs|].
    intros mount [<-|Hin] Hne; [contradiction | now apply Hc]. }
  unfold bind in Hrun.
  destruct (ReadOnly_Stat (mountTrash m0 u) w) as (l1 & Hw1).
  destruct (Stat (mountTrash m0 u) w) as [st w1] eqn:Hst.
  cbn [snd] in Hw1. subst w1.
  assert (Hskip : forall w'',
             emptyMounts u rest (relog w l1) = (None, w'') ->
             (forall info, st = inr info -> IsDir info = false) ->
             shrinks w w'' /\
             forall mount, In mount (m0 :: rest) -> mount <> "/" ->
               statsDir (env w'') (fs w'') (mountTrash mount u) ->
               cleared (env w'') (fs w'') (mountTrash mount u)).
  { intros w'' Hrest Hnot.
    destruct (IH (relog w l1) w'' Hrest Hvalid) as (Hs & Hc).
    split; [exact Hs|].
    intros mount [<-|Hin] Hne Hsd; [|now apply Hc].
    exfalso. destruct Hs as (Hsub & He & _). cbn [fs env relog] in Hsub, He.
    rewrite He in Hsd. apply (statsDir_mono _ _ _ _ Hsub) in Hsd.
    destruct (Stat_statsDir _ _ Hsd) as (info & Hi & Hdir).
    rewrite Hst in Hi. cbn in Hi. subst st.
    rewrite (Hnot info eq_refl) in Hdir. discriminate. }
  destruct st as [err|info]; [apply Hskip; [exact Hrun | discriminate]|].
  destruct (IsDir info) eqn:Hdir;
    [|apply Hskip; [exact Hrun | now intros ? [= <-]]].
  destruct (emptyTrashDir (mountTrash m0 u) (relog w l1)) as [r w2] eqn:He.
  destruct r as [err|]; [discriminate|].
  destruct (emptyTrashDir_ok _ _ _ He Hvalid) as (S1 & C1).
  destruct S1 as (Sub1 & Env1 & Pkg1). cbn [fs env pkg relog] in Sub1, Env1, Pkg1.
  destruct (IH w2 w' Hrun (validTree_mono _ _ Sub1 Hvalid)) as (S2 & Hc).
  destruct S2 as (Sub2 & Env2 & Pkg2).
  split.
  { split; [etransitivity; eassumption | split; congruence]. }
  intros mount [<-|Hin] Hne Hsd; [|now apply Hc].
  rewrite Env2. eapply cleared_mono; eassumption.
Qed.

(** *** The second run finds nothing to do *)

Lemma emptyDir_again (dir : string) (w : World) :
  denied (env w) (CReadDir dir) = None ->
  dirAt (fs w) (resolve (env w) dir) ->
  emptied (fs w) (resolve (env w) dir) ->
  emptyDir dir w = (None, relog w (log w ++ [(CReadDir dir, None)])).
Proof.
  intros Hd (n & Hq & Hk) He. unfold emptyDir, bind.
  rewrite (ReadDir_dir dir w n Hd Hq Hk), (entriesOf_emptied _ _ He).
  reflexivity.
Qed.

Lemma emptyTrashDir_again (root : string) (w : World) :
  cleared (env w) (fs w) root -> rootIntact (env w) (fs w) root ->
  exists l, emptyTrashDir root w = (None, relog w l).
Proof.
  intros (D1 & D2 & E1 & E2) (I1 & I2). unfold emptyTrashDir, bind.
  rewrite (emptyDir_again _ w D1 I1 (E1 I1)).
  rewrite (emptyDir_again _ (relog w _) D2 I2 (E2 I2)).
  eexists. reflexivity.
Qed.

Lemma emptyMounts_again (u : string) (mounts : list string) :
  forall w,
    (forall mount, In mount mounts -> mount <> "/" ->
       statsDir (env w) (fs w) (mountTrash mount u) ->
       cleared (env w) (fs w) (mountTrash mount u) /\
       rootIntact (env w) (fs w) (mountTrash mount u)) ->
    exists l, emptyMounts u mounts w = (None, relog w l).
Proof.
  induction mounts as [|m0 rest IH]; intros w Hall.
  { exists (log w). cbn. now rewrite relog_log. }
  cbn [emptyMounts].
  assert (Hrest : forall l0, exists l, emptyMounts u rest (relog w l0) = (None, relog w l)).
  { intros l0. destruct (IH (relog w l0)) as (l & Hl).
    - intros mount Hin. apply Hall. now right.
    - exists l. exact Hl. }
  destruct (String.eqb_spec m0 "/") as [->|Hm0].
  { destruct (Hrest (log w)) as (l & Hl). rewrite relog_log in Hl. eauto. }
  unfold bind.
  destruct (ReadOnly_Stat (mountTrash m0 u) w) as (l1 & Hw1).
  destruct (Stat (mountTrash m0 u) w) as [st w1] eqn:Hst.
  cbn [snd] in Hw1. subst w1.
  destruct st as [err|info]; [apply Hrest|].
  destruct (IsDir info) eqn:Hdir; [|apply Hrest].
  apply Stat_inv in Hst as (Hden & q & Hf).
  destruct (Hall m0 (or_introl eq_refl) Hm0) as (Hc & Hi).
  { split; [exact Hden|]. exists q, info. now split. }
  destruct (emptyTrashDir_again (mountTrash m0 u) (relog w l1) Hc Hi) as (l2 & ->).
  rewrite relog_relog. apply Hrest.
Qed.

Lemma listTrashDir_again (root : string) (w : World) :
  cleared (env w) (fs w) root -> rootIntact (env w) (fs w) root ->
  exists l, listTrashDir root w = (inr [], relog w l).
Proof.
  intros (_ & D2 & _ & E2) (_ & I2). unfold listTrashDir, bind.
  destruct I2 as (n & Hq & Hk).
  rewrite (ReadDir_dir _ w n D2 Hq Hk).
  rewrite (entriesOf_emptied _ _ (E2 (ex_intro _ n (conj Hq Hk)))).
  eexists. reflexivity.
Qed.

Lemma listMounts_again (u : string) (mounts : list string) :
  forall w,
    (forall mount, In mount mounts -> mount <> "/" ->
       statsDir (env w) (fs w) (mountTrash mount u) ->
       cleared (env w) (fs w) (mountTrash mount u) /\
       rootIntact (env w) (fs w) (mountTrash mount u)) ->
    exists l, listMounts u mounts w = ([], relog w l).
Proof.
  induction mounts as [|m0 rest IH]; intros w Hall.
  { exists (log w). cbn. now rewrite relog_log. }
  cbn [listMounts].
  assert (Hrest : forall l0, exists l, listMounts u rest (relog w l0) = ([], relog w l)).
  { intros l0. destruct (IH (relog w l0)) as (l & Hl).
    - intros mount Hin. apply Hall. now right.
    - exists l. exact Hl. }
  destruct (String.eqb_spec m0 "/") as [->|Hm0].
  { destruct (Hrest (log w)) as (l & Hl). rewrite relog_log in Hl. eauto. }
  unfold bind.
  destruct (ReadOnly_Stat (mountTrash m0 u) w) as (l1 & Hw1).
  destruct (Stat (mountTrash m0 u) w) as [st w1] eqn:Hst.
  cbn [snd] in Hw1. subst w1.
  destruct st as [err|info]; [apply Hrest|].
  destruct (IsDir info) eqn:Hdir; [|apply Hrest].
  apply Stat_inv in Hst as (Hden & q & Hf).
  destruct (Hall m0 (or_introl eq_refl) Hm0) as (Hc & Hi).
  { split; [exact Hden|]. exists q, info. now split. }
  destruct (listTrashDir_again (mountTrash m0 u) (relog w l1) Hc Hi) as (l2 & ->).
  rewrite relog_relog. destruct (Hrest l2) as (l3 & ->).
  exists l3. reflexivity.
Qed.

End Emptying.


(** ** Empty: a removal that fails ends the run *)

Section Aborting.
Import OS Trash.

Lemma query_not_failed (ev : Call * option Errno) :
  isQuery ev -> ~ failedRemoval ev.
Proof. intros H (p & e & ->). exact H. Qed.

Lemma queryOrMkdir_not_failed (ev : Call * option Errno) :
  isQueryOrMkdir ev -> ~ failedRemoval ev.
Proof. intros H (p & e & ->). exact H. Qed.

Lemma aborts_prepend shape r (l0 l : list (Call * option Errno)) :
  Forall (fun ev => ~ failedRemoval ev) l0 ->
  abortsOnFailure shape r l -> abortsOnFailure shape r (l0 ++ l).
Proof.
  intros H0 [H|(l1 & p & e & err & -> & H1 & Hr & Hs)].
  - left. apply Forall_app. now split.
  - right. exists (l0 ++ l1), p, e, err. rewrite app_assoc.
    split; [reflexivity|]. split; [|now split].
    apply Forall_app. now split.
Qed.

Lemma aborts_clean shape r (l : list (Call * option Errno)) :
  Forall (fun ev => ~ failedRemoval ev) l -> abortsOnFailure shape r l.
Proof. now left. Qed.

Lemma removeEach_aborts (dir : string) (entries : list DirEntry) (w : World) :
  exists l,
    log (snd (removeEach dir entries w)) = log w ++ l /\
    abortsOnFailure eq (fst (removeEach dir entries w)) l.
Proof.
  revert w. induction entries as [|en rest IH]; intros w.
  { exists []. cbn. rewrite app_nil_r. split; [reflexivity|]. left. constructor. }
  cbn [removeEach]. unfold bind, RemoveAll.
  destruct (errOnly_call_run (CRemoveAll (Filepath.Join [dir; fst en]))
              (fun w0 => (inr tt, removeTree (fs w0)
                                    (resolve (env w0) (Filepath.Join [dir; fst en]))))
              w) as (r & Hl & _ & _ & _ & Hr).
  destruct (errOnly _ w) as [res w1]. cbn [fst snd] in Hl, Hr.
  destruct r as [e|]; cbn in Hr; subst res.
  - exists [(CRemoveAll (Filepath.Join [dir; fst en]), Some e)].
    cbn [ret fst snd]. split; [exact Hl|]. right.
    exists [], (Filepath.Join [dir; fst en]), e, (PathError (CRemoveAll (Filepath.Join [dir; fst en])) e).
    repeat split. constructor.
  - destruct (IH w1) as (l & Hl1 & Ha).
    exists ((CRemoveAll (Filepath.Join [dir; fst en]), None) :: l).
    rewrite Hl1, Hl, <- app_assoc. split; [reflexivity|].
    apply (aborts_prepend _ _ [_]); [|exact Ha].
    repeat constructor. intros (p & e & [=]).
Qed.

Lemma emptyDir_aborts (dir : string) (w : World) :
  exists l,
    log (snd (emptyDir dir w)) = log w ++ l /\
    abortsOnFailure eq (fst (emptyDir dir w)) l.
Proof.
  unfold emptyDir, bind.
  destruct (Logs_query_ReadDir dir w) as (l1 & Hl1 & F1 & _).
  destruct (ReadDir dir w) as [rd w1]. cbn [snd] in Hl1.
  assert (C1 : Forall (fun ev => ~ failedRemoval ev) l1).
  { eapply Forall_impl; [exact F1 | apply query_not_failed]. }
  destruct rd as [err|entries].
  - exists l1. split; [exact Hl1 | now left].
  - destruct (removeEach_aborts dir entries w1) as (l & Hl & Ha).
    exists (l1 ++ l). rewrite Hl, Hl1, app_assoc. split; [reflexivity|].
    now apply aborts_prepend.
Qed.

Lemma aborts_wrap msg (r : option error) (l : list (Call * option Errno)) :
  abortsOnFailure eq r l ->
  abortsOnFailure wrappedOnce
    (match r with Some err => Some (Wrapf msg err) | None => None end) l.
Proof.
  intros [H|(l0 & p & e & err & -> & H0 & -> & <-)]; [now left|].
  right. exists l0, p, e, (Wrapf msg (PathError (CRemoveAll p) e)).
  repeat split; [exact H0|]. now exists msg.
Qed.

Lemma aborts_stop shape err (l0 : list (Call * option Errno)) p e :
  Forall (fun ev => ~ failedRemoval ev) l0 ->
  shape (PathError (CRemoveAll p) e) err ->
  abortsOnFailure shape (Some err) (l0 ++ [(CRemoveAll p, Some e)]).
Proof. intros H Hs. right. exists l0, p, e, err. auto. Qed.

Lemma emptyTrashDir_aborts (root : string) (w : World) :
  exists l,
    log (snd (emptyTrashDir root w)) = log w ++ l /\
    abortsOnFailure wrappedOnce (fst (emptyTrashDir root w)) l.
Proof.
  unfold emptyTrashDir, bind.
  destruct (emptyDir_aborts (Filepath.Join [root; "files"]) w) as (l1 & Hl1 & A1).
  destruct (emptyDir _ w) as [f w1]. cbn [fst snd] in Hl1, A1.
  destruct f as [err|].
  { exists l1. split; [exact Hl1|].
    apply (aborts_wrap "failed to empty files directory") in A1. exact A1. }
  destruct A1 as [C1|(? & ? & ? & ? & _ & _ & [=] & _)].
  destruct (emptyDir_aborts (Filepath.Join [root; "info"]) w1) as (l2 & Hl2 & A2).
  destruct (emptyDir _ w1) as [i w2]. cbn [fst snd] in Hl2, A2.
  exists (l1 ++ l2). split.
  { destruct i; cbn [ret snd]; now rewrite Hl2, Hl1, app_assoc. }
  apply aborts_prepend; [exact C1|].
  apply (aborts_wrap "failed to empty info directory") in A2.
  destruct i; exact A2.
Qed.

Lemma emptyMounts_aborts (u : string) (mounts : list string) (w : World) :
  exists l,
    log (snd (emptyMounts u mounts w)) = log w ++ l /\
    abortsOnFailure wrappedOnce (fst (emptyMounts u mounts w)) l.
Proof.
  revert w. induction mounts as [|m0 rest IH]; intros w.
  { exists []. cbn. rewrite app_nil_r. split; [reflexivity|]. left. constructor. }
  cbn [emptyMounts]. destruct (String.eqb m0 "/"); [apply IH|].
  unfold bind.
  destruct (Logs_query_Stat (mountTrash m0 u) w) as (l1 & Hl1 & F1 & _).
  destruct (Stat (mountTrash m0 u) w) as [st w1]. cbn [snd] in Hl1.
  assert (C1 : Forall (fun ev => ~ failedRemoval ev) l1).
  { eapply Forall_impl; [exact F1 | apply query_not_failed]. }
  assert (Hrest : exists l,
             log (snd (emptyMounts u rest w1)) = log w ++ l /\
             abortsOnFailure wrappedOnce (fst (emptyMounts u rest w1)) l).
  { destruct (IH w1) as (l & Hl & Ha). exists (l1 ++ l).
    rewrite Hl, Hl1, app_assoc. split; [reflexivity|]. now apply aborts_prepend. }
  destruct st as [err|info]; [exact Hrest|].
  destruct (IsDir info); [|exact Hrest].
  destruct (emptyTrashDir_aborts (mountTrash m0 u) w1) as (l2 & Hl2 & A2).
  destruct (emptyTrashDir _ w1) as [r w2]. cbn [fst snd] in Hl2, A2.
  destruct r as [err|].
  { exists (l1 ++ l2). cbn [ret fst snd]. rewrite Hl2, Hl1, app_assoc.
    split; [reflexivity|]. now apply aborts_prepend. }
  destruct A2 as [C2|(? & ? & ? & ? & _ & _ & [=] & _)].
  destruct (IH w2) as (l & Hl & Ha). exists (l1 ++ l2 ++ l).
  rewrite Hl, Hl2, Hl1, <- !app_assoc. split; [reflexivity|].
  apply aborts_prepend; [exact C1|]. now apply aborts_prepend.
Qed.

Lemma Empty_aborts (w : World) :
  exists l,
    log (snd (Empty w)) = log w ++ l /\
    abortsOnFailure wrappedOnce (fst (Empty w)) l.
Proof.
  unfold Empty, bind.
  destruct (Logs_ensureInitialized w) as (l0 & Hl0 & F0 & _).
  destruct (ensureInitialized w) as [i wi]. cbn [snd] in Hl0.
  assert (C0 : Forall (fun ev => ~ failedRemoval ev) l0).
  { eapply Forall_impl; [exact F0 | apply queryOrMkdir_not_failed]. }
  destruct i as [err|].
  { exists l0. split; [exact Hl0 | now left]. }
  cbn [getHomeTrash].
  destruct (emptyTrashDir_aborts (homeTrash (pkg wi)) wi) as (l1 & Hl1 & A1).
  destruct (emptyTrashDir _ wi) as [h wh]. cbn [fst snd] in Hl1, A1.
  destruct h as [err|].
  { exists (l0 ++ l1). cbn [ret fst snd]. rewrite Hl1, Hl0, app_assoc.
    split; [reflexivity|]. now apply aborts_prepend. }
  destruct A1 as [C1|(? & ? & ? & ? & _ & _ & [=] & _)].
  destruct (Logs_getMountPoints isQuery wh) as (l2 & Hl2 & F2 & _).
  destruct (Mount.getMountPoints wh) as [m wm]. cbn [snd] in Hl2.
  assert (C2 : Forall (fun ev => ~ failedRemoval ev) l2).
  { eapply Forall_impl; [exact F2 | apply query_not_failed]. }
  destruct m as [err|mountPoints].
  { exists (l0 ++ l1 ++ l2). cbn [ret fst snd].
    rewrite Hl2, Hl1, Hl0, <- !app_assoc. split; [reflexivity|].
    left. repeat (apply Forall_app; split); assumption. }
  cbn [getUid].
  destruct (emptyMounts_aborts (uid (pkg wm)) mountPoints wm) as (l3 & Hl3 & A3).
  exists (l0 ++ l1 ++ l2 ++ l3).
  rewrite Hl3, Hl2, Hl1, Hl0, <- !app_assoc. split; [reflexivity|].
  repeat (apply aborts_prepend; [assumption|]). exact A3.
Qed.

(** A failed removal inside a run that aborts on failure is the last
    call of the run. *)
Lemma aborts_last shape r (l l1 l2 : list (Call * option Errno)) p e :
  abortsOnFailure shape r l ->
  l = l1 ++ (CRemoveAll p, Some e) :: l2 ->
  l2 = [] /\ exists err, r = Some err /\ shape (PathError (CRemoveAll p) e) err.
Proof.
  intros [H|(l0 & p' & e' & err & Hl & H0 & Hr & Hs)] Heq.
  - exfalso. subst l. apply Forall_app in H as [_ H].
    inversion H as [|? ? Hx _]; subst. apply Hx. now exists p, e.
  - rewrite Heq in Hl. clear Heq.
    destruct l2 as [|ev l2] using rev_ind.
    + apply app_inj_tail in Hl as [_ [= <- <-]]. split; [reflexivity|]. eauto.
    + exfalso. clear IHl2.
      change (l1 ++ (CRemoveAll p, Some e) :: l2 ++ [ev])
        with (l1 ++ ((CRemoveAll p, Some e) :: l2) ++ [ev]) in Hl.
      rewrite app_assoc in Hl. apply app_inj_tail in Hl as [Hl _].
      subst l0. apply Forall_app in H0 as [_ H0].
      inversion H0 as [|? ? Hx _]; subst. apply Hx. now exists p, e.
Qed.

End Aborting.


(** ** Empty: initialisation keeps the tree well formed *)

Section Initialising.
Import OS Trash.

Lemma validTree_insert (m : tree) (q : list string) (n : Node) :
  validTree m -> Forall (fun c => validName c = true) q ->
  validTree (<[q := n]> m).
Proof.
  intros Hv Hq k v Hk. destruct (decide (k = q)) as [->|Hne]; [exact Hq|].
  rewrite lookup_insert_ne in Hk by congruence. now apply (Hv k v).
Qed.

Lemma mkdirAllFrom_valid (e : Env) (mode : Z) (todo : list string) :
  forall (m : tree) (done : list string) (d : Z),
    validTree m ->
    Forall (fun c => validName c = true) done ->
    Forall (fun c => validName c = true) todo ->
    validTree (snd (mkdirAllFrom e mode m done todo d)).
Proof.
  induction todo as [|c rest IH]; intros m done d Hv Hd Ht; [exact Hv|].
  inversion Ht as [|? ? Hc Hrest]; subst.
  assert (Hq : Forall (fun c => validName c = true) (done ++ [c])).
  { apply Forall_app. split; [exact Hd | now constructor]. }
  cbn [mkdirAllFrom].
  destruct (m !! (done ++ [c])) as [n0|] eqn:Hl.
  - destruct (follow maxLinks e m (done ++ [c])) as [err|[q n1]]; [exact Hv|].
    destruct (IsDir n1); [now apply IH | exact Hv].
  - apply IH; [|assumption..]. now apply validTree_insert.
Qed.

Lemma MkdirAll_valid (p : string) (mode : Z) (w : World) :
  validTree (fs w) ->
  Forall (fun c => validName c = true) (cwd (env w)) ->
  validTree (fs (snd (MkdirAll p mode w))).
Proof.
  intros Hv Hc. unfold MkdirAll, errOnly, call.
  destruct (denied (env w) (CMkdirAll p mode)); [exact Hv|].
  pose proof (mkdirAllFrom_valid (env w) mode (resolve (env w) p) (fs w) []
                (rootDev (fs w)) Hv (List.Forall_nil _) (resolve_valid _ p Hc)) as H.
  destruct (mkdirAllFrom _ _ _ _ _ _) as [[err|[]] m]; exact H.
Qed.

Lemma mkdirEach_valid (dirs : list string) :
  forall w,
    validTree (fs w) ->
    Forall (fun c => validName c = true) (cwd (env w)) ->
    validTree (fs (snd (mkdirEach dirs w))).
Proof.
  induction dirs as [|dir rest IH]; intros w Hv Hc; [exact Hv|].
  cbn [mkdirEach]. unfold bind.
  pose proof (MkdirAll_valid dir 448 w Hv Hc) as H1.
  destruct (Logs_qm_MkdirAll dir 448 w) as (l & _ & _ & He).
  destruct (MkdirAll dir 448 w) as [r w1]. cbn [snd] in H1, He.
  destruct r as [err|]; [exact H1|].
  apply IH; [exact H1 | now rewrite He].
Qed.

Lemma initialize_valid (w : World) :
  validTree (fs w) ->
  Forall (fun c => validName c = true) (cwd (env w)) ->
  validTree (fs (snd (initialize w))).
Proof.
  intros Hv Hc. unfold initialize, bind, UserHomeDir, GetenvXDG_DATA_HOME,
    setHomeTrash, getHomeTrash, ensureTrashDirs.
  destruct (String.eqb (envHOME (env w)) ""); [exact Hv|].
  cbn [fst snd pkg setPkg homeTrash].
  match goal with |- context [mkdirEach ?d ?w0] =>
    pose proof (mkdirEach_valid d w0 Hv Hc) as H1;
    destruct (mkdirEach d w0) as [r w1] end.
  cbn [snd] in H1. destruct r as [err|]; [exact H1|].
  unfold userCurrent. destruct (currentUser (env w1)); exact H1.
Qed.

(** What a successful [ensureInitialized] leaves. *)
Lemma ensureInitialized_ok (w wi : World) :
  ensureInitialized w = (None, wi) ->
  initDone (pkg wi) = true /\ initErr (pkg wi) = None /\
  env wi = env w /\
  (validTree (fs w) ->
   Forall (fun c => validName c = true) (cwd (env w)) ->
   validTree (fs wi)).
Proof.
  intros Hrun.
  destruct (Logs_ensureInitialized w) as (l & _ & _ & He).
  rewrite Hrun in He. cbn [snd] in He.
  unfold ensureInitialized in Hrun.
  destruct (initDone (pkg w)) eqn:Hd.
  - injection Hrun as Herr <-. auto.
  - pose proof (initialize_valid w) as Hv.
    destruct (initialize w) as [[] w1]. cbn [snd] in Hv.
    cbn in Hrun. injection Hrun as Herr <-. cbn. auto.
Qed.

Lemma getMountPoints_run (w : World) :
  Mount.getMountPoints w = (fst (Mount.getMountPoints w), w).
Proof.
  unfold Mount.getMountPoints. destruct (procMounts (env w)); [|reflexivity].
  now destruct (existsb _ _).
Qed.

Lemma getMountPoints_env (w w' : World) :
  env w' = env w ->
  fst (Mount.getMountPoints w') = fst (Mount.getMountPoints w).
Proof.
  intros He. unfold Mount.getMountPoints. rewrite He.
  destruct (procMounts (env w)); [|reflexivity].
  now destruct (existsb _ _).
Qed.

End Initialising.


(** ** Empty, twice *)

Section EmptyTwice.
Import OS Trash.

Lemma Empty_ok (w w1 : World) :
  Empty w = (None, w1) ->
  validTree (fs w) ->
  Forall (fun c => validName c = true) (cwd (env w)) ->
  initDone (pkg w1) = true /\ initErr (pkg w1) = None /\ allCleared w1.
Proof.
  intros Hrun Hv Hc. unfold Empty, bind in Hrun.
  destruct (ensureInitialized w) as [i wi] eqn:Hi.
  destruct i as [err|]; [discriminate|].
  destruct (ensureInitialized_ok _ _ Hi) as (Hdone & Herr & Henv & Hvi).
  specialize (Hvi Hv Hc). cbn [getHomeTrash] in Hrun.
  destruct (emptyTrashDir (homeTrash (pkg wi)) wi) as [h wh] eqn:Hh.
  destruct h as [err|]; [discriminate|].
  destruct (emptyTrashDir_ok _ _ _ Hh Hvi) as ((Sub & Env & Pkg) & Hcl).
  rewrite (getMountPoints_run wh) in Hrun.
  destruct (fst (Mount.getMountPoints wh)) as [err|mountPoints] eqn:Hm.
  - injection Hrun as <-. unfold allCleared. rewrite Pkg. split; [exact Hdone|].
    split; [exact Herr|]. split; [exact Hcl|].
    intros mounts mount Hm'. congruence.
  - cbn [getUid] in Hrun.
    destruct (emptyMounts_ok _ _ _ _ Hrun (validTree_mono _ _ Sub Hvi))
      as ((Sub2 & Env2 & Pkg2) & Hall).
    unfold allCleared. rewrite Pkg2, Pkg.
    split; [exact Hdone|]. split; [exact Herr|]. split.
    + rewrite Env2. eapply cleared_mono; eassumption.
    + intros mounts mount Hm'.
      rewrite (getMountPoints_env wh w1 Env2), Hm in Hm'.
      injection Hm' as <-. rewrite <- Pkg. apply Hall.
Qed.

Lemma Empty_again (w : World) :
  initDone (pkg w) = true -> initErr (pkg w) = None ->
  allCleared w -> rootsIntact w ->
  exists l, Empty w = (None, relog w l).
Proof.
  intros Hdone Herr (Hc & Hcs) (Hi & His). unfold Empty, bind.
  rewrite (ensureInitialized_done w Hdone), Herr. cbn [getHomeTrash].
  destruct (emptyTrashDir_again _ w Hc Hi) as (l1 & ->).
  rewrite (getMountPoints_run (relog w l1)).
  rewrite (getMountPoints_env w (relog w l1) eq_refl).
  destruct (fst (Mount.getMountPoints w)) as [err|mountPoints] eqn:Hm.
  { exists l1. reflexivity. }
  cbn [getUid relog pkg].
  destruct (emptyMounts_again (uid (pkg w)) mountPoints (relog w l1)) as (l2 & ->).
  - intros mount Hin Hne Hs. cbn [relog env fs] in *. split.
    + now apply (Hcs mountPoints).
    + now apply (His mountPoints).
  - rewrite relog_relog. now exists l2.
Qed.

Lemma List_again (w : World) :
  initDone (pkg w) = true -> initErr (pkg w) = None ->
  allCleared w -> rootsIntact w ->
  exists l, List w = (inr [], relog w l).
Proof.
  intros Hdone Herr (Hc & Hcs) (Hi & His). unfold List, bind.
  rewrite (ensureInitialized_done w Hdone), Herr. cbn [getHomeTrash].
  destruct (listTrashDir_again _ w Hc Hi) as (l1 & ->).
  rewrite (getMountPoints_run (relog w l1)).
  rewrite (getMountPoints_env w (relog w l1) eq_refl).
  destruct (fst (Mount.getMountPoints w)) as [err|mountPoints] eqn:Hm.
  { exists l1. reflexivity. }
  cbn [getUid relog pkg].
  destruct (listMounts_again (uid (pkg w)) mountPoints (relog w l1)) as (l2 & ->).
  - intros mount Hin Hne Hs. cbn [relog env fs] in *. split.
    + now apply (Hcs mountPoints).
    + now apply (His mountPoints).
  - rewrite relog_relog. now exists l2.
Qed.


Lemma isDirAt_spec (m : tree) (q : list string) :
  isDirAt m q = true -> dirAt m q.
Proof.
  unfold isDirAt, dirAt. destruct (m !! q) as [n|]; [|discriminate].
  destruct (kind n) eqn:Hk; try discriminate. intros _. now exists n.
Qed.

Lemma validPaths_spec (m : tree) : validPaths m = true -> validTree m.
Proof.
  unfold validPaths. intros H k n Hk.
  rewrite forallb_forall in H.
  apply elem_of_map_to_list, list_elem_of_In in Hk.
  specialize (H _ Hk). cbn [fst] in H.
  rewrite forallb_forall in H. apply List.Forall_forall. exact H.
Qed.


End EmptyTwice.


(** * The other functions *)

(** ** [mount_linux.go] *)

Section MountPoints.
Import OS Mount Aux2.

Lemma longest_step (absPath best m0 : string) :
  (longest absPath best m0 = best \/
   (longest absPath best m0 = m0 /\ Strings.HasPrefix absPath m0 = true)) /\
  (String.length best <= String.length (longest absPath best m0))%nat /\
  (Strings.HasPrefix absPath m0 = true ->
   (String.length m0 <= String.length (longest absPath best m0))%nat).
Proof.
  unfold longest. destruct (Strings.HasPrefix absPath m0); cbn [andb].
  - destruct (Nat.ltb_spec (String.length best) (String.length m0)).
    + split; [right; auto|]. split; lia.
    + split; [now left|]. split; [lia|]. intros _. lia.
  - split; [now left|]. split; [lia | discriminate].
Qed.

Lemma longest_fold (absPath : string) (mounts : list string) :
  forall best,
    let r := fold_left (longest absPath) mounts best in
    (r = best \/ (In r mounts /\ Strings.HasPrefix absPath r = true)) /\
    (String.length best <= String.length r)%nat /\
    (forall m, In m mounts -> Strings.HasPrefix absPath m = true ->
               (String.length m <= String.length r)%nat).
Proof.
  induction mounts as [|m0 rest IH]; intros best; cbn [fold_left].
  { split; [now left|]. split; [lia | intros m []]. }
  destruct (IH (longest absPath best m0)) as (H1 & H2 & H3).
  destruct (longest_step absPath best m0) as (S1 & S2 & S3).
  cbn zeta. split; [|split; [lia|]].
  - destruct H1 as [H1|[Hin Hpr]].
    + rewrite H1. destruct S1 as [->|[-> Hp]]; [now left|].
      right. split; [now left | exact Hp].
    + right. split; [now right | exact Hpr].
  - intros m [<-|Hin] Hm; [specialize (S3 Hm); lia | now apply H3].
Qed.

Lemma Abs_run (p : string) (w : World) :
  exists a, Abs p w = (inr a, w).
Proof. unfold Abs. destruct (Filepath.IsAbs p); eauto. Qed.

Lemma getMountPoint_run (path : string) (w : World) (mounts : list string) :
  fst (getMountPoints w) = inr mounts ->
  exists r, getMountPoint path w = (inr r, w).
Proof.
  intros Hm. destruct (Abs_run path w) as (a & Ha).
  unfold getMountPoint, bind. rewrite Ha, (getMountPoints_run w), Hm.
  destruct (String.eqb _ ""); eauto.
Qed.

Lemma getMountPoint_error (path : string) (w : World) (e : error) :
  fst (getMountPoints w) = inl e ->
  getMountPoint path w = (inl e, w).
Proof.
  intros Hm. destruct (Abs_run path w) as (a & Ha).
  unfold getMountPoint, bind. now rewrite Ha, (getMountPoints_run w), Hm.
Qed.

(** X1. [getMountPoint], when the mount table is read: the world is
    left as it was, and the mount point returned is an entry of the
    table that is a prefix, byte for byte, of the absolute path, and
    no entry that is a prefix is longer; or it is the root, when no
    entry but an empty one is a prefix. *)
Theorem X1_getMountPoint_longest
    (path : string) (w : World) (mounts : list string) :
  fst (getMountPoints w) = inr mounts ->
  exists absPath r,
    fst (Abs path w) = inr absPath /\
    getMountPoint path w = (inr r, w) /\
    ((In r mounts /\ Strings.HasPrefix absPath r = true) \/
     (r = "/" /\
      forall m, In m mounts -> Strings.HasPrefix absPath m = true -> m = "")) /\
    (forall m, In m mounts -> Strings.HasPrefix absPath m = true ->
               (String.length m <= String.length r)%nat).
Proof.
  intros Hm. destruct (Abs_run path w) as (a & Ha).
  exists a. unfold getMountPoint, bind. rewrite Ha.
  rewrite (getMountPoints_run w), Hm.
  destruct (longest_fold a mounts "") as (H1 & _ & H3). cbn zeta in H1, H3.
  destruct (String.eqb_spec (fold_left (longest a) mounts "") "") as [He|Hne].
  - exists "/". split; [reflexivity|]. split; [reflexivity|]. split.
    + right. split; [reflexivity|]. intros m Hin Hp.
      specialize (H3 m Hin Hp). rewrite He in H3.
      destruct m; [reflexivity | cbn in H3; lia].
    + intros m Hin Hp. specialize (H3 m Hin Hp). rewrite He in H3.
      cbn in *. lia.
  - exists (fold_left (longest a) mounts "").
    split; [reflexivity|]. split; [reflexivity|]. split; [|exact H3].
    left. destruct H1 as [H|H]; [contradiction | exact H].
Qed.

Lemma X1_getMountPoint_longest_witness :
  getMountPoint "/mnt/usb/dir/y" (Sample.world0 Sample.nothingDenied) =
    (inr "/mnt/usb", Sample.world0 Sample.nothingDenied) /\
  exists absPath r,
    fst (Abs "/mnt/usb/dir/y" (Sample.world0 Sample.nothingDenied)) = inr absPath /\
    getMountPoint "/mnt/usb/dir/y" (Sample.world0 Sample.nothingDenied) =
      (inr r, Sample.world0 Sample.nothingDenied) /\
    ((In r ["/"; "/mnt/usb"] /\ Strings.HasPrefix absPath r = true) \/
     (r = "/" /\
      forall m, In m ["/"; "/mnt/usb"] ->
                Strings.HasPrefix absPath m = true -> m = "")) /\
    (forall m, In m ["/"; "/mnt/usb"] -> Strings.HasPrefix absPath m = true ->
               (String.length m <= String.length r)%nat).
Proof.
  split; [vm_compute; reflexivity|].
  apply (X1_getMountPoint_longest "/mnt/usb/dir/y"
           (Sample.world0 Sample.nothingDenied) ["/"; "/mnt/usb"]).
  vm_compute. reflexivity.
Defined.

Lemma unescape_other (c : ascii) (s : string) :
  Ascii.eqb c "\" = false ->
  unescapeMountPoint (String c s) = String c (unescapeMountPoint s).
Proof.
  intros Hc. cbn [unescapeMountPoint].
  destruct s as [|a [|b [|d rest]]]; try reflexivity.
  rewrite Hc. reflexivity.
Qed.

Lemma octal3_decodes (c : ascii) (rest : string) :
  unescapeMountPoint (String "\" (octal3 c +:+ rest)) =
  String c (unescapeMountPoint rest).
Proof.
  unfold octal3. rewrite !app_cons, app_nil_l.
  cbn [unescapeMountPoint].
  assert (H : isOctal (octalDigit (nat_of_ascii c / 64)) &&
              isOctal (octalDigit (nat_of_ascii c / 8 mod 8)) &&
              isOctal (octalDigit (nat_of_ascii c mod 8)) = true /\
              ascii_of_nat
                (((nat_of_ascii (octalDigit (nat_of_ascii c / 64)) - 48) * 64 +
                  (nat_of_ascii (octalDigit (nat_of_ascii c / 8 mod 8)) - 48) * 8 +
                  (nat_of_ascii (octalDigit (nat_of_ascii c mod 8)) - 48)) mod 256) = c).
  { destruct c as [[] [] [] [] [] [] [] []]; vm_compute; split; reflexivity. }
  destruct H as (Ho & Hv).
  change (Ascii.eqb "\" "\") with true. cbn [andb].
  apply andb_true_iff in Ho as (Ho & H3). apply andb_true_iff in Ho as (H1 & H2).
  rewrite H1, H2, H3. cbn [andb]. now rewrite Hv.
Qed.

(** X2. [unescapeMountPoint] undoes the octal escaping of
    [/proc/mounts]: whatever bytes are escaped, as long as the
    backslash is among them, unescaping gives back the mount point,
    byte for byte. *)
Theorem X2_unescapeMountPoint_octalEscape (esc : ascii -> bool) (s : string) :
  esc "\"%char = true ->
  unescapeMountPoint (octalEscape esc s) = s.
Proof.
  intros Hesc. induction s as [|c s IH]; [reflexivity|].
  cbn [octalEscape]. destruct (esc c) eqn:Hc.
  - rewrite octal3_decodes. now rewrite IH.
  - rewrite unescape_other; [now rewrite IH|].
    destruct (Ascii.eqb_spec c "\"); [congruence | reflexivity].
Qed.

Lemma X2_unescapeMountPoint_octalEscape_witness :
  octalEscape (fun c => negb (notBackslash c) || Ascii.eqb c " ")
    "/mnt/my disk\x" = "/mnt/my\040disk\134x" /\
  unescapeMountPoint
    (octalEscape (fun c => negb (notBackslash c) || Ascii.eqb c " ")
       "/mnt/my disk\x") = "/mnt/my disk\x".
Proof.
  split; [vm_compute; reflexivity|].
  apply (X2_unescapeMountPoint_octalEscape
           (fun c => negb (notBackslash c) || Ascii.eqb c " ")).
  vm_compute. reflexivity.
Defined.

Lemma unescape_length_bounded (n : nat) :
  forall s, (String.length s <= n)%nat ->
            (String.length (unescapeMountPoint s) <= String.length s)%nat.
Proof.
  induction n as [|n IH]; intros s Hs.
  { destruct s; [cbn; lia | cbn in Hs; lia]. }
  destruct s as [|c s']; [cbn; lia|].
  assert (Hstep : (String.length (String c (unescapeMountPoint s')) <=
                   String.length (String c s'))%nat).
  { cbn [String.length] in *. specialize (IH s'). lia. }
  cbn [unescapeMountPoint].
  destruct s' as [|a [|b [|d rest]]]; try exact Hstep.
  destruct (_ && _); [|exact Hstep].
  cbn [String.length] in *. specialize (IH rest). lia.
Qed.

(** X3. [unescapeMountPoint] never makes a mount point longer, and a
    mount point without a backslash is returned as it is. *)
Theorem X3_unescapeMountPoint_plain (s : string) :
  (String.length (unescapeMountPoint s) <= String.length s)%nat /\
  (allBytes notBackslash s = true -> unescapeMountPoint s = s).
Proof.
  split; [now apply (unescape_length_bounded (String.length s))|].
  induction s as [|c s IH]; [reflexivity|].
  cbn [allBytes]. intros H. apply andb_true_iff in H as (Hc & Hs).
  rewrite unescape_other; [now rewrite IH|].
  unfold notBackslash in Hc. now apply negb_true_iff in Hc.
Qed.

Lemma X3_unescapeMountPoint_plain_witness :
  allBytes notBackslash "/mnt/usb" = true /\
  unescapeMountPoint "/mnt/usb" = "/mnt/usb".
Proof.
  split; [reflexivity|].
  apply (proj2 (X3_unescapeMountPoint_plain "/mnt/usb")). reflexivity.
Defined.

End MountPoints.


(** ** [trash.go]: names and initialisation *)

Section Initialisation.
Import OS Trash Aux2.

(** X4. [sanitizeFilename] never returns the name [.]; it returns the
    empty name exactly for a name that is not empty but all white
    space. *)
Theorem X4_sanitizeFilename_edges (name : string) :
  sanitizeFilename name <> "." /\
  (sanitizeFilename name = "" <->
   name <> "" /\ Strings.TrimSpace name = "").
Proof.
  unfold sanitizeFilename.
  destruct (String.eqb_spec name "") as [->|Hne].
  { split; [discriminate|]. split; [discriminate | intros [H _]; now elim H]. }
  destruct (Strings.HasPrefix (Strings.TrimSpace name) "." &&
            (String.length (Strings.TrimSpace name) =? 1)%nat) eqn:Hc.
  - split; [discriminate|]. split; [discriminate|].
    intros [_ Ht]. rewrite Ht in Hc. discriminate.
  - split.
    + intros Ht. rewrite Ht in Hc. discriminate.
    + split; [intros Ht; now split | intros [_ Ht]; exact Ht].
Qed.

Lemma ensureInitialized_after (w : World) :
  initDone (pkg (snd (ensureInitialized w))) = true /\
  initErr (pkg (snd (ensureInitialized w))) = fst (ensureInitialized w).
Proof.
  unfold ensureInitialized. destruct (initDone (pkg w)) eqn:Hd.
  - cbn. auto.
  - destruct (initialize w) as [[] w1]. cbn. auto.
Qed.

(** X5. Initialisation runs once. After a first [ensureInitialized],
    a second one returns the same result without a call and without
    a change; and when the first one failed, [Trash], [List],
    [Restore], [Delete] and [Empty] all return its error, without a
    call and without a change: a failed initialisation is never tried
    again. *)
Theorem X5_ensureInitialized_once (w : World) (path name : string) :
  let w1 := snd (ensureInitialized w) in
  ensureInitialized w1 = (fst (ensureInitialized w), w1) /\
  (forall e, fst (ensureInitialized w) = Some e ->
     Trash path w1 = (Some e, w1) /\
     List w1 = (inl e, w1) /\
     Restore name w1 = (Some e, w1) /\
     Delete name w1 = (Some e, w1) /\
     Empty w1 = (Some e, w1)).
Proof.
  intros w1. destruct (ensureInitialized_after w) as (Hd & He).
  fold w1 in Hd, He.
  assert (H1 : ensureInitialized w1 = (fst (ensureInitialized w), w1)).
  { rewrite (ensureInitialized_done w1 Hd). now rewrite He. }
  split; [exact H1|]. intros e Hfail. rewrite Hfail in H1.
  unfold Trash, List, Restore, Delete, Empty, bind. rewrite H1.
  repeat split; reflexivity.
Qed.

Lemma X5_ensureInitialized_once_witness :
  let w1 := snd (ensureInitialized Sample.worldNoHomeTrash) in
  let e := Wrapf "failed to create trash directory /home/u/.local/share/Trash/files"
             (PathError (CMkdirAll "/home/u/.local/share/Trash/files" 448)
                        EACCES) in
  fst (ensureInitialized Sample.worldNoHomeTrash) = Some e /\
  Trash "/tmp/a b.txt" w1 = (Some e, w1) /\
  List w1 = (inl e, w1) /\
  Restore "a b.txt" w1 = (Some e, w1) /\
  Delete "a b.txt" w1 = (Some e, w1) /\
  Empty w1 = (Some e, w1).
Proof.
  intros w1 e.
  assert (H : fst (ensureInitialized Sample.worldNoHomeTrash) = Some e)
    by (vm_compute; reflexivity).
  split; [exact H|].
  exact (proj2 (X5_ensureInitialized_once Sample.worldNoHomeTrash
                  "/tmp/a b.txt" "a b.txt") e H).
Defined.

Lemma mkdirAllFrom_leads (e : Env) (mode : Z) (todo : list string) :
  forall (m : tree) (done : list string) (d : Z) (m' : tree),
    mkdirAllFrom e mode m done todo d = (inr tt, m') ->
    m ⊆ m' /\
    (todo <> [] ->
     exists q n, follow maxLinks e m' (done ++ todo) = inr (q, n) /\
                 IsDir n = true).
Proof.
  induction todo as [|c rest IH]; intros m done d m' Hrun.
  { injection Hrun as <-. split; [reflexivity | congruence]. }
  cbn [mkdirAllFrom] in Hrun.
  destruct (m !! (done ++ [c])) as [n0|] eqn:Hq.
  - destruct (follow maxLinks e m (done ++ [c])) as [err|[q n1]] eqn:Hf;
      [discriminate|].
    destruct (IsDir n1) eqn:Hd; [|discriminate].
    destruct (IH _ _ _ _ Hrun) as (Hsub & Hlead). split; [exact Hsub|].
    intros _. destruct rest as [|c2 rest'].
    + injection Hrun as <-. exists q, n1. now split.
    + specialize (Hlead ltac:(discriminate)).
      rewrite <- app_assoc in Hlead. exact Hlead.
  - destruct (IH _ _ _ _ Hrun) as (Hsub & Hlead). split.
    + etransitivity; [|exact Hsub]. now apply insert_subseteq.
    + intros _. destruct rest as [|c2 rest'].
      * injection Hrun as <-.
        exists (done ++ [c]), (mkNode KDir mode (now e) "" d).
        split; [|reflexivity].
        apply follow_dir; [apply lookup_insert_eq | reflexivity].
      * specialize (Hlead ltac:(discriminate)).
        rewrite <- app_assoc in Hlead. exact Hlead.
Qed.

(** What a successful [MkdirAll] leaves. *)
Lemma MkdirAll_ok (p : string) (mode : Z) (w w' : World) :
  MkdirAll p mode w = (None, w') ->
  log w' = log w ++ [(CMkdirAll p mode, None)] /\
  env w' = env w /\ pkg w' = pkg w /\
  fs w ⊆ fs w' /\
  (resolve (env w) p <> [] -> leadsToDir (env w) (fs w') p).
Proof.
  unfold MkdirAll, errOnly, call.
  destruct (denied (env w) (CMkdirAll p mode)); [discriminate|].
  destruct (mkdirAllFrom _ _ _ _ _ _) as [[err|[]] m] eqn:Hm; [discriminate|].
  intros [= <-]. cbn.
  destruct (mkdirAllFrom_leads _ _ _ _ _ _ _ Hm) as (Hsub & Hlead).
  repeat split; try reflexivity; assumption.
Qed.

Lemma leadsToDir_mono (e : Env) (m m' : tree) (p : string) :
  m ⊆ m' -> leadsToDir e m p -> leadsToDir e m' p.
Proof.
  intros Hsub (q & n & Hf & Hd). exists q, n. split; [|exact Hd].
  eapply follow_mono; eassumption.
Qed.

Lemma resolve_Join_nonempty (e : Env) (d n : string) :
  validName n = true -> resolve e (Filepath.Join [d; n]) <> [].
Proof.
  intros Hn. rewrite (resolve_Join e d n Hn). now destruct (resolve e d).
Qed.

(** X6. The first [ensureInitialized], when it succeeds: the home
    trash is [Trash] under [$XDG_DATA_HOME], or under
    [$HOME/.local/share] when that variable is empty or unset; the
    user id is the current user's; the two calls made are the
    [MkdirAll] of [files] and of [info], mode 0700; afterwards both
    lead to directories, and nothing that was in the tree is removed
    or changed. *)
Theorem X6_initialize_home_trash (w w1 : World) :
  initDone (pkg w) = false ->
  ensureInitialized w = (None, w1) ->
  let dataHome :=
    if String.eqb (envXDG_DATA_HOME (env w)) ""
    then Filepath.Join [envHOME (env w); ".local"; "share"]
    else envXDG_DATA_HOME (env w) in
  let ht := Filepath.Join [dataHome; "Trash"] in
  homeTrash (pkg w1) = ht /\
  (exists u, currentUser (env w) = Some u /\ uid (pkg w1) = fst u) /\
  log w1 = log w ++ [(CMkdirAll (Filepath.Join [ht; "files"]) 448, None);
                     (CMkdirAll (Filepath.Join [ht; "info"]) 448, None)] /\
  leadsToDir (env w1) (fs w1) (Filepath.Join [ht; "files"]) /\
  leadsToDir (env w1) (fs w1) (Filepath.Join [ht; "info"]) /\
  fs w ⊆ fs w1.
Proof.
  intros Hd Hrun dataHome ht. unfold ensureInitialized in Hrun.
  rewrite Hd in Hrun.
  unfold initialize, bind, UserHomeDir, GetenvXDG_DATA_HOME, setHomeTrash,
    getHomeTrash, ensureTrashDirs in Hrun.
  destruct (String.eqb (envHOME (env w)) ""); [discriminate|].
  cbn [fst snd pkg setPkg homeTrash env] in Hrun.
  fold dataHome in Hrun. fold ht in Hrun.
  cbn [mkdirEach] in Hrun. unfold bind in Hrun.
  match type of Hrun with context [MkdirAll ?p ?mo ?w0] =>
    destruct (MkdirAll p mo w0) as [r1 wa] eqn:H1 end.
  destruct r1 as [err|]; [discriminate|].
  destruct (MkdirAll_ok _ _ _ _ H1) as (L1 & E1 & P1 & S1 & D1).
  cbn [log env pkg fs setPkg] in L1, E1, P1, S1, D1.
  destruct (MkdirAll (Filepath.Join [ht; "info"]) 448 wa) as [r2 wb] eqn:H2.
  destruct r2 as [err|]; [discriminate|].
  destruct (MkdirAll_ok _ _ _ _ H2) as (L2 & E2 & P2 & S2 & D2).
  cbn [ret] in Hrun. unfold userCurrent in Hrun.
  assert (Ewb : env wb = env w) by congruence.
  rewrite Ewb in Hrun.
  destruct (currentUser (env w)) as [u|] eqn:Hu; [|discriminate].
  cbn in Hrun. injection Hrun as _ <-. cbn [pkg setPkg homeTrash uid log fs env].
  rewrite P2, P1. cbn [homeTrash uid].
  split; [reflexivity|]. split; [exists u; auto|].
  split; [rewrite L2, L1, <- app_assoc; reflexivity|].
  rewrite Ewb. rewrite E1 in D2.
  split; [|split].
  - eapply leadsToDir_mono; [exact S2|]. apply D1.
    now apply resolve_Join_nonempty.
  - apply D2. now apply resolve_Join_nonempty.
  - etransitivity; eassumption.
Qed.

Lemma X6_initialize_home_trash_witness :
  homeTrash (pkg (snd (ensureInitialized (Sample.world0 Sample.nothingDenied)))) =
    "/home/u/.local/share/Trash" /\
  leadsToDir (Sample.envWith Sample.nothingDenied)
    (fs (snd (ensureInitialized (Sample.world0 Sample.nothingDenied))))
    "/home/u/.local/share/Trash/files".
Proof.
  destruct (X6_initialize_home_trash (Sample.world0 Sample.nothingDenied)
              (snd (ensureInitialized (Sample.world0 Sample.nothingDenied)))
              eq_refl)
    as (H1 & _ & _ & H4 & _).
  { vm_compute. reflexivity. }
  split; [exact H1 | exact H4].
Defined.

End Initialisation.


(** ** [trash.go]: where a path is trashed *)

Section Choosing.
Import OS Trash Aux2.

Lemma fs_relog (w : World) (l : list (Call * option Errno)) :
  fs (relog w l) = fs w.
Proof. reflexivity. Qed.

Lemma Stat_run (p : string) (w : World) :
  exists r, Stat p w = (fst (Stat p w), relog w (log w ++ [(CStat p, r)])) /\
            (r = None <-> exists info, fst (Stat p w) = inr info).
Proof.
  unfold Stat, call. destruct (denied (env w) (CStat p)).
  - eexists. split; [reflexivity|]. split; [discriminate | intros (? & [=])].
  - destruct (follow _ _ _ _) as [e|[q n]]; eexists; cbn;
      (split; [destruct w; reflexivity|]).
    + split; [discriminate | intros (? & [=])].
    + split; eauto.
Qed.

(** X7. [checkTrashDirSecurity] on a path where [Stat] finds
    something: that one call is all it makes, the tree is left as it
    was, and the check passes exactly when what was found is a
    directory with permission bits 0700. *)
Theorem X7_checkTrashDirSecurity_existing
    (trashDir : string) (w : World) (info : Node) :
  fst (Stat trashDir w) = inr info ->
  snd (checkTrashDirSecurity trashDir w) =
    relog w (log w ++ [(CStat trashDir, None)]) /\
  (fst (checkTrashDirSecurity trashDir w) = None <->
   IsDir info = true /\ perm info = 448).
Proof.
  intros Hst. unfold checkTrashDirSecurity, bind.
  destruct (Stat_run trashDir w) as (r & Hrun & Hr).
  rewrite Hrun, Hst. cbn [notExist].
  assert (r = None) as -> by (apply Hr; eauto).
  destruct (IsDir info); cbn [negb].
  - destruct (Z.eqb_spec (perm info) 448) as [Hp|Hp]; cbn [negb ret fst snd].
    + split; [reflexivity|]. split; auto.
    + split; [reflexivity|]. split; [discriminate | intros [_ H]; contradiction].
  - cbn [ret fst snd]. split; [reflexivity|].
    split; [discriminate | intros [H _]; discriminate].
Qed.

Lemma X7_checkTrashDirSecurity_existing_witness :
  fst (Stat "/mnt/usb/dir" Sample.worldTwoRoots) = inr (Sample.dir 2) /\
  fst (checkTrashDirSecurity "/mnt/usb/dir" Sample.worldTwoRoots) <> None /\
  fs (snd (checkTrashDirSecurity "/mnt/usb/dir" Sample.worldTwoRoots)) =
    fs Sample.worldTwoRoots.
Proof.
  assert (H : fst (Stat "/mnt/usb/dir" Sample.worldTwoRoots) = inr (Sample.dir 2))
    by (vm_compute; reflexivity).
  destruct (X7_checkTrashDirSecurity_existing "/mnt/usb/dir"
              Sample.worldTwoRoots (Sample.dir 2) H) as (Hw & Hiff).
  split; [exact H|]. split.
  - intros Hn. apply Hiff in Hn as [_ Hp]. vm_compute in Hp. discriminate.
  - rewrite Hw. apply fs_relog.
Defined.

(** X8. [getTrashDirForPath] does not fail once the mount table is
    read. For a path on the mount point of the home trash it returns
    the home trash and changes nothing. For a path on another mount
    point it returns that mount point's [.Trash-<uid>] when
    [checkTrashDirSecurity] accepts it, and the home trash when it
    does not. *)
Theorem X8_getTrashDirForPath_choice
    (path : string) (w : World) (mounts : list string) :
  fst (Mount.getMountPoints w) = inr mounts ->
  exists pathMount homeMount,
    Mount.getMountPoint path w = (inr pathMount, w) /\
    Mount.getMountPoint (homeTrash (pkg w)) w = (inr homeMount, w) /\
    (pathMount = homeMount ->
     getTrashDirForPath path w = (inr (homeTrash (pkg w)), w)) /\
    (pathMount <> homeMount ->
     let trashDir := mountTrash pathMount (uid (pkg w)) in
     snd (getTrashDirForPath path w) = snd (checkTrashDirSecurity trashDir w) /\
     fst (getTrashDirForPath path w) =
       inr (match fst (checkTrashDirSecurity trashDir w) with
            | None => trashDir
            | Some _ => homeTrash (pkg w)
            end)).
Proof.
  intros Hm.
  destruct (getMountPoint_run path w mounts Hm) as (pm & Hpm).
  destruct (getMountPoint_run (homeTrash (pkg w)) w mounts Hm) as (hm & Hhm).
  exists pm, hm. split; [exact Hpm|]. split; [exact Hhm|].
  unfold getTrashDirForPath, bind. rewrite Hpm. cbn [getHomeTrash].
  rewrite Hhm. split.
  - intros ->. now rewrite String.eqb_refl.
  - intros Hne. destruct (String.eqb_spec pm hm) as [|_]; [contradiction|].
    cbn [getUid]. cbn zeta.
    destruct (checkTrashDirSecurity _ w) as [[err|] w1]; split; reflexivity.
Qed.

Lemma X8_getTrashDirForPath_choice_witness :
  fst (getTrashDirForPath "/mnt/usb/dir/y" Sample.worldTrashed) =
    inr "/mnt/usb/.Trash-1000" /\
  fst (getTrashDirForPath "/tmp" Sample.worldTrashed) =
    inr "/home/u/.local/share/Trash".
Proof.
  destruct (X8_getTrashDirForPath_choice "/mnt/usb/dir/y" Sample.worldTrashed
              ["/"; "/mnt/usb"] ltac:(vm_compute; reflexivity))
    as (pm & hm & Hpm & Hhm & _ & Hother).
  destruct (X8_getTrashDirForPath_choice "/tmp" Sample.worldTrashed
              ["/"; "/mnt/usb"] ltac:(vm_compute; reflexivity))
    as (pm2 & hm2 & Hpm2 & Hhm2 & Hsame & _).
  apply (f_equal fst) in Hpm, Hhm, Hpm2, Hhm2. cbn [fst] in Hpm, Hhm, Hpm2, Hhm2.
  vm_compute in Hpm, Hhm, Hpm2, Hhm2.
  injection Hpm as <-. injection Hhm as <-.
  injection Hpm2 as <-. injection Hhm2 as <-.
  split.
  - destruct (Hother ltac:(discriminate)) as (_ & ->). vm_compute. reflexivity.
  - now rewrite (Hsame eq_refl).
Defined.



End Choosing.


(** ** [trash.go]: listing *)

Section Listing.
Import OS Trash Aux2.

Hint Resolve ReadOnly_getHomeTrash ReadOnly_getUid ReadOnly_parseTrashInfo
  : readonly.

Lemma ReadOnly_listEntries i d es : ReadOnly (listEntries i d es).
Proof. induction es as [|e es IH]; cbn [listEntries]; readonly. Qed.

Hint Resolve ReadOnly_listEntries : readonly.

Lemma ReadOnly_listTrashDir d : ReadOnly (listTrashDir d).
Proof. unfold listTrashDir. readonly. Qed.

Hint Resolve ReadOnly_listTrashDir : readonly.

Lemma ReadOnly_listMounts u ms : ReadOnly (listMounts u ms).
Proof. induction ms as [|m ms IH]; cbn [listMounts]; readonly. Qed.

Lemma parseContent_path (content p : string) (t : Time.t) :
  parseContent content = inr (p, t) -> p <> "".
Proof.
  unfold parseContent. destruct (_ || _); [discriminate|].
  destruct (fold_left _ _ _) as [op dd].
  destruct (String.eqb_spec op ""); [discriminate|]. congruence.
Qed.

Lemma parseTrashInfo_item (p d : string) (w : World) (item : TrashItem) :
  fst (parseTrashInfo p d w) = inr item ->
  InfoPath item = p /\ TrashDir item = d /\ OriginalPath item <> "" /\
  Name item = Strings.TrimSuffix (Filepath.Base p) ".trashinfo" /\
  FilePath item = Filepath.Join [d; "files"; Name item].
Proof.
  unfold parseTrashInfo, bind.
  destruct (ReadFile p w) as [[err|content] w1]; [discriminate|].
  destruct (parseContent content) as [err|[op dd]] eqn:Hpc; [discriminate|].
  cbn [ret fst]. intros [= <-]. cbn.
  repeat split. eapply parseContent_path; eassumption.
Qed.

Lemma listEntries_items (d : string) (entries : list DirEntry) :
  forall w,
    Forall (listedFrom d)
      (fst (listEntries (Filepath.Join [d; "info"]) d entries w)).
Proof.
  induction entries as [|entry rest IH]; intros w; cbn [listEntries].
  { constructor. }
  destruct (IsDir (snd entry)); cbn [orb]; [apply IH|].
  destruct (Strings.HasSuffix (fst entry) ".trashinfo") eqn:Hs; cbn [negb];
    [|apply IH].
  unfold bind.
  pose proof (parseTrashInfo_item (Filepath.Join [Filepath.Join [d; "info"]; fst entry])
                d w) as Hitem.
  destruct (parseTrashInfo _ d w) as [[err|item] w1]; [apply IH|].
  specialize (IH w1).
  destruct (listEntries _ d rest w1) as [items w2]. cbn [ret fst] in *.
  constructor; [|exact IH].
  destruct (Hitem item eq_refl) as (Hi & Hd & Ho & Hn & Hf).
  unfold listedFrom. rewrite Hi.
  split; [exact Hd|]. split; [exact Ho|]. split; [exact Hn|].
  split; [exact Hf|]. exists (fst entry). now split.
Qed.

Lemma listTrashDir_items (d : string) (w : World) (items : list TrashItem) :
  fst (listTrashDir d w) = inr items -> Forall (listedFrom d) items.
Proof.
  unfold listTrashDir, bind.
  destruct (ReadDir _ w) as [[err|entries] w1].
  - destruct (IsNotExist err); [|discriminate]. intros [= <-]. constructor.
  - pose proof (listEntries_items d entries w1) as H.
    destruct (listEntries _ d entries w1) as [its w2].
    cbn [ret fst] in *. now intros [= <-].
Qed.

Lemma listMounts_items (u : string) (mounts : list string) :
  forall w,
    Forall (fun item => exists mount, In mount mounts /\ mount <> "/" /\
                                      listedFrom (mountTrash mount u) item)
      (fst (listMounts u mounts w)).
Proof.
  induction mounts as [|m0 rest IH]; intros w; cbn [listMounts].
  { constructor. }
  assert (Hrest : forall w0,
             Forall (fun item => exists mount, In mount (m0 :: rest) /\
                                               mount <> "/" /\
                                               listedFrom (mountTrash mount u) item)
               (fst (listMounts u rest w0))).
  { intros w0. eapply Forall_impl; [apply IH|].
    intros item (mount & Hin & Hne & Hl). exists mount. split; [now right | auto]. }
  destruct (String.eqb_spec m0 "/") as [->|Hne]; [apply Hrest|].
  unfold bind. destruct (Stat (mountTrash m0 u) w) as [[err|info] w1];
    [apply Hrest|].
  destruct (IsDir info); [|apply Hrest].
  pose proof (listTrashDir_items (mountTrash m0 u) w1) as Hd.
  destruct (listTrashDir (mountTrash m0 u) w1) as [r w2]. cbn [fst] in Hd.
  specialize (Hrest w2).
  destruct (listMounts u rest w2) as [items w3]. cbn [fst] in Hrest.
  destruct r as [err|mountItems]; cbn [ret fst]; [exact Hrest|].
  apply Forall_app. split; [|exact Hrest].
  eapply Forall_impl; [exact (Hd mountItems eq_refl)|].
  intros item Hl. exists m0. split; [now left | auto].
Qed.



End Listing.


(** ** [trash.go]: finding and deleting *)

Section Finding.
Import OS Trash Aux2.

Lemma findInMounts_none (name u : string) (mounts : list string) :
  forall w,
    (forall mount, In mount mounts -> mount <> "/" ->
       exists e, fst (Stat (recordPath (mountTrash mount u) name) w) = inl e) ->
    exists l, findInMounts name u mounts w = (inl ErrFileNotInTrash, relog w l).
Proof.
  induction mounts as [|m0 rest IH]; intros w Hall; cbn [findInMounts].
  { exists (log w). cbn. now rewrite relog_log. }
  assert (Hrest : forall l0, exists l,
             findInMounts name u rest (relog w l0) =
             (inl ErrFileNotInTrash, relog w l)).
  { intros l0. destruct (IH (relog w l0)) as (l & Hl).
    - intros mount Hin Hne. destruct (Hall mount (or_intror Hin) Hne) as (e & He).
      exists e. rewrite <- He. apply Uniform_result, Uniform_Stat.
    - rewrite relog_relog in Hl. eauto. }
  destruct (String.eqb_spec m0 "/") as [->|Hne].
  { destruct (Hrest (log w)) as (l & Hl). rewrite relog_log in Hl. eauto. }
  unfold bind. fold (recordPath (mountTrash m0 u) name).
  destruct (Hall m0 (or_introl eq_refl) Hne) as (e & He).
  destruct (Stat_run (recordPath (mountTrash m0 u) name) w) as (r & Hrun & _).
  rewrite Hrun, He. apply Hrest.
Qed.

Lemma findTrashItem_none (name : string) (w : World) :
  noRecord w name ->
  exists l, findTrashItem name w = (inl ErrFileNotInTrash, relog w l).
Proof.
  intros ((e & He) & Hm). unfold findTrashItem, bind. cbn [getHomeTrash].
  fold (recordPath (homeTrash (pkg w)) name).
  destruct (Stat_run (recordPath (homeTrash (pkg w)) name) w) as (r & Hrun & _).
  rewrite Hrun, He.
  rewrite (getMountPoints_run (relog w _)).
  rewrite (getMountPoints_env w (relog w _) eq_refl).
  destruct (fst (Mount.getMountPoints w)) as [err|mountPoints] eqn:Hmp.
  { cbn [ret]. eauto. }
  cbn [getUid relog pkg].
  destruct (findInMounts_none name (uid (pkg w)) mountPoints (relog w (log w ++ [(CStat (recordPath (homeTrash (pkg w)) name), r)])))
    as (l & Hl).
  - intros mount Hin Hne. destruct (Hm mountPoints mount eq_refl Hin Hne) as (e' & He').
    exists e'. rewrite <- He'. apply Uniform_result, Uniform_Stat.
  - rewrite relog_relog in Hl. eauto.
Qed.



Lemma RemoveAll_run (p : string) (w : World) :
  (exists e,
     RemoveAll p w = (Some (PathError (CRemoveAll p) e),
                      pushLog w (CRemoveAll p) (Some e))) \/
  RemoveAll p w =
    (None, pushLog (setFs w (removeTree (fs w) (resolve (env w) p)))
                   (CRemoveAll p) None).
Proof.
  unfold RemoveAll, errOnly, call.
  destruct (denied (env w) (CRemoveAll p)) as [e|]; [left; eauto | now right].
Qed.

Lemma Remove_run (p : string) (w : World) :
  (exists e,
     Remove p w = (Some (PathError (CRemove p) e),
                   pushLog w (CRemove p) (Some e))) \/
  Remove p w =
    (None, pushLog (setFs w (delete (resolve (env w) p) (fs w)))
                   (CRemove p) None).
Proof.
  unfold Remove, errOnly, call.
  destruct (denied (env w) (CRemove p)) as [e|]; [left; eauto|].
  destruct (fs w !! resolve (env w) p) as [n|]; [|left; eexists; reflexivity].
  destruct (IsDir n && hasChildren (fs w) (resolve (env w) p));
    [left; eexists; reflexivity | now right].
Qed.



End Finding.


(** ** [trash.go]: what [Empty] reaches, and the mount table *)

Section Reach.
Import OS Trash Aux2.

Lemma removesOnly_refl (P : list string -> Prop) (w : World) l :
  removesOnly P w (relog w l).
Proof. split; [apply shrinks_relog | intros k n H; now left]. Qed.

Lemma removesOnly_same (P : list string -> Prop) (w : World) :
  removesOnly P w w.
Proof. split; [apply shrinks_refl | intros k n H; now left]. Qed.

Lemma removesOnly_trans (P : list string -> Prop) (w1 w2 w3 : World) :
  removesOnly P w1 w2 -> removesOnly P w2 w3 -> removesOnly P w1 w3.
Proof.
  intros (S1 & F1) (S2 & F2). split; [eapply shrinks_trans; eassumption|].
  intros k n Hk. destruct (F1 k n Hk) as [H|H]; [now apply F2 | now right].
Qed.

Lemma removesOnly_weaken (P Q : list string -> Prop) (w w' : World) :
  (forall k, P k -> Q k) -> removesOnly P w w' -> removesOnly Q w w'.
Proof.
  intros HPQ (S1 & F1). split; [exact S1|].
  intros k n Hk. destruct (F1 k n Hk); auto.
Qed.

Lemma removeTree_keeps (m : tree) (q k : list string) :
  ~ q `prefix_of` k -> removeTree m q !! k = m !! k.
Proof.
  intros Hn. unfold removeTree.
  destruct (m !! k) as [n|] eqn:Hk.
  - apply map_lookup_filter_Some. split; [exact Hk | exact Hn].
  - apply map_lookup_filter_None. now left.
Qed.

Lemma removeEach_frame (dir : string) (entries : list DirEntry) :
  forall w,
    Forall (fun en => validName (fst en) = true) entries ->
    removesOnly (strictlyBelow (resolve (env w) dir)) w
      (snd (removeEach dir entries w)).
Proof.
  induction entries as [|en rest IH]; intros w Hvalid.
  { cbn. apply removesOnly_same. }
  inversion Hvalid as [|? ? Hv Hvr]; subst.
  cbn [removeEach]. unfold bind.
  destruct (RemoveAll_run (Filepath.Join [dir; fst en]) w) as [(e & ->)| ->].
  { cbn [ret snd]. rewrite pushLog_relog. apply removesOnly_refl. }
  eapply removesOnly_trans; [|].
  2:{ specialize (IH (pushLog (setFs w (removeTree (fs w)
                        (resolve (env w) (Filepath.Join [dir; fst en]))))
                        (CRemoveAll (Filepath.Join [dir; fst en])) None) Hvr).
      exact IH. }
  rewrite (resolve_Join (env w) dir (fst en) Hv).
  split.
  - split; [|split; reflexivity]. cbn. apply removeTree_subseteq.
  - intros k n Hk. cbn [fs pushLog setFs].
    destruct (decide ((resolve (env w) dir ++ [fst en]) `prefix_of` k))
      as [[r ->]|Hn].
    + right. exists (fst en), r. now rewrite <- app_assoc.
    + left. now rewrite removeTree_keeps.
Qed.

Lemma emptyDir_frame (dir : string) (w : World) :
  validTree (fs w) ->
  removesOnly (strictlyBelow (resolve (env w) dir)) w (snd (emptyDir dir w)).
Proof.
  intros Hvalid. unfold emptyDir, bind.
  destruct (ReadOnly_ReadDir dir w) as (l1 & Hw1).
  destruct (ReadDir dir w) as [rd w1] eqn:Hrd. cbn [snd] in Hw1. subst w1.
  destruct rd as [err|entries]; [apply removesOnly_refl|].
  apply ReadDir_inv in Hrd as (_ & q & n & _ & _ & ->).
  eapply removesOnly_trans; [apply (removesOnly_refl _ w l1)|].
  apply (removeEach_frame dir _ (relog w l1)).
  apply Forall_forall. intros en Hin. apply entriesOf_child in Hin.
  eapply validTree_child; eassumption.
Qed.

Lemma removesOnly_valid (P : list string -> Prop) (w w' : World) :
  removesOnly P w w' -> validTree (fs w) -> validTree (fs w').
Proof. intros ((Hsub & _) & _). now apply validTree_mono. Qed.

Lemma removesOnly_env (P : list string -> Prop) (w w' : World) :
  removesOnly P w w' -> env w' = env w /\ pkg w' = pkg w.
Proof. now intros ((_ & He & Hp) & _). Qed.

Lemma emptyTrashDir_frame (root : string) (w : World) :
  validTree (fs w) ->
  removesOnly (insideRoot (env w) root) w (snd (emptyTrashDir root w)).
Proof.
  intros Hvalid. unfold emptyTrashDir, bind.
  pose proof (emptyDir_frame (Filepath.Join [root; "files"]) w Hvalid) as F1.
  destruct (emptyDir (Filepath.Join [root; "files"]) w) as [f w1].
  cbn [snd] in F1.
  assert (G1 : removesOnly (insideRoot (env w) root) w w1).
  { eapply removesOnly_weaken; [|exact F1]. intros k H. now left. }
  destruct f as [err|]; [exact G1|].
  pose proof (emptyDir_frame (Filepath.Join [root; "info"]) w1
                (removesOnly_valid _ _ _ F1 Hvalid)) as F2.
  destruct (removesOnly_env _ _ _ F1) as (E1 & _). rewrite E1 in F2.
  destruct (emptyDir (Filepath.Join [root; "info"]) w1) as [i w2].
  cbn [snd] in F2.
  assert (G2 : removesOnly (insideRoot (env w) root) w w2).
  { eapply removesOnly_trans; [exact G1|].
    eapply removesOnly_weaken; [|exact F2]. intros k H. now right. }
  destruct i; exact G2.
Qed.

Lemma emptyMounts_frame (u : string) (mounts : list string) :
  forall w,
    validTree (fs w) ->
    removesOnly
      (fun k => exists mount, In mount mounts /\ mount <> "/" /\
                              insideRoot (env w) (mountTrash mount u) k)
      w (snd (emptyMounts u mounts w)).
Proof.
  induction mounts as [|m0 rest IH]; intros w Hvalid; cbn [emptyMounts].
  { cbn. apply removesOnly_same. }
  assert (Hrest : forall w0,
             removesOnly
               (fun k => exists mount, In mount (m0 :: rest) /\ mount <> "/" /\
                                       insideRoot (env w) (mountTrash mount u) k)
               w w0 ->
             removesOnly
               (fun k => exists mount, In mount (m0 :: rest) /\ mount <> "/" /\
                                       insideRoot (env w) (mountTrash mount u) k)
               w (snd (emptyMounts u rest w0))).
  { intros w0 H0. eapply removesOnly_trans; [exact H0|].
    destruct (removesOnly_env _ _ _ H0) as (E0 & _).
    eapply removesOnly_weaken; [|apply IH; eapply removesOnly_valid; eassumption].
    cbn beta. intros k (mount & Hin & Hne & Hk). exists mount.
    rewrite <- E0. split; [now right | auto]. }
  destruct (String.eqb_spec m0 "/") as [->|Hne].
  { apply Hrest, removesOnly_same. }
  unfold bind.
  destruct (ReadOnly_Stat (mountTrash m0 u) w) as (l1 & Hw1).
  destruct (Stat (mountTrash m0 u) w) as [st w1]. cbn [snd] in Hw1. subst w1.
  destruct st as [err|info]; [apply Hrest, removesOnly_refl|].
  destruct (IsDir info); [|apply Hrest, removesOnly_refl].
  pose proof (emptyTrashDir_frame (mountTrash m0 u) (relog w l1) Hvalid) as F.
  destruct (emptyTrashDir (mountTrash m0 u) (relog w l1)) as [r w2].
  cbn [snd env relog] in F.
  assert (G : removesOnly
                (fun k => exists mount, In mount (m0 :: rest) /\ mount <> "/" /\
                                        insideRoot (env w) (mountTrash mount u) k)
                w w2).
  { eapply removesOnly_trans; [apply (removesOnly_refl _ w l1)|].
    eapply removesOnly_weaken; [|exact F].
    intros k Hk. exists m0. split; [now left | auto]. }
  destruct r as [err|]; [exact G | now apply Hrest].
Qed.



Lemma env_emptyTrashDir (root : string) (w : World) :
  env (snd (emptyTrashDir root w)) = env w.
Proof.
  destruct (emptyTrashDir_aborts root w) as (l & Hl & _).
  unfold emptyTrashDir, emptyDir, bind.
  assert (Hre : forall dir es w0, env (snd (removeEach dir es w0)) = env w0).
  { intros dir es. induction es as [|en es IH]; intros w0; [reflexivity|].
    cbn [removeEach]. unfold bind.
    destruct (RemoveAll_run (Filepath.Join [dir; fst en]) w0) as [(e & ->)| ->];
      [reflexivity|]. now rewrite IH. }
  assert (Hed : forall dir w0,
             env (snd (match ReadDir dir w0 with
                       | (inl err, w1) => ret (Some err) w1
                       | (inr entries, w1) => removeEach dir entries w1
                       end)) = env w0).
  { intros dir w0. destruct (ReadOnly_ReadDir dir w0) as (l1 & H1).
    destruct (ReadDir dir w0) as [[err|es] w1]; cbn [snd] in H1; subst w1;
      [reflexivity|]. now rewrite Hre. }
  pose proof (Hed (Filepath.Join [root; "files"]) w) as H1.
  destruct (ReadDir (Filepath.Join [root; "files"]) w) as [rd w1].
  destruct rd as [err|es].
  - exact H1.
  - destruct (removeEach _ es w1) as [f w2]. cbn [snd] in H1.
    destruct f as [err|]; [exact H1|].
    pose proof (Hed (Filepath.Join [root; "info"]) w2) as H2.
    destruct (ReadDir (Filepath.Join [root; "info"]) w2) as [rd2 w3].
    destruct rd2 as [err|es2].
    + cbn in H2 |- *. congruence.
    + destruct (removeEach _ es2 w3) as [i w4]. cbn [snd] in H2.
      destruct i; cbn; congruence.
Qed.



End Reach.


(** ** [trash.go]: moving across devices *)

Section Copying.
Import OS Trash Aux2.

Lemma follow_plain (fuel : nat) (e : Env) (m : tree) (q : list string) (n : Node) :
  m !! q = Some n -> IsSymlink n = false ->
  follow fuel e m q = inr (q, n).
Proof.
  unfold IsSymlink. intros Hq Hk.
  destruct fuel; cbn [follow]; rewrite Hq; destruct (kind n); congruence.
Qed.

Lemma setData_fresh (m : tree) (q : list string) (N : Node) (c : string) :
  setData (<[q := N]> m) q c =
  <[q := mkNode (kind N) (perm N) (mtime N) c (dev N)]> m.
Proof. unfold setData. now rewrite lookup_insert_eq, insert_insert_eq. Qed.

Lemma Open_ok (p : string) (w w' : World) :
  Open p w = (None, w') ->
  w' = pushLog w (COpen p) None /\
  exists q n, follow maxLinks (env w) (fs w) (resolve (env w) p) = inr (q, n).
Proof.
  unfold Open, errOnly, call. destruct (denied _ _); [discriminate|].
  destruct (follow _ _ _ _) as [e|[q n]] eqn:Hf; [discriminate|].
  intros [= <-]. split; [destruct w; reflexivity | eauto].
Qed.

Lemma OpenExcl_ok (p : string) (mode : Z) (w w' : World) :
  OpenExcl p mode w = (None, w') ->
  fs w !! resolve (env w) p = None /\
  exists pn,
    parentIsDir (fs w) (resolve (env w) p) = inr pn /\
    w' = pushLog (setFs w (<[resolve (env w) p :=
                               mkNode KFile mode (now (env w)) "" (dev pn)]> (fs w)))
                 (COpenExcl p mode) None.
Proof.
  unfold OpenExcl, errOnly, call. destruct (denied _ _); [discriminate|].
  cbn zeta. destruct (fs w !! resolve (env w) p); [discriminate|].
  destruct (parentIsDir _ _) as [e|pn]; [discriminate|].
  intros [= <-]. eauto.
Qed.

Lemma Copy_ok (dst src : string) (w w' : World) :
  Copy dst src w = (None, w') ->
  exists q n,
    follow maxLinks (env w) (fs w) (resolve (env w) src) = inr (q, n) /\
    IsDir n = false /\
    w' = pushLog (setFs w (setData (fs w) (resolve (env w) dst) (data n)))
                 (CCopy dst src) None.
Proof.
  unfold Copy. destruct (follow _ _ _ _) as [e|[q n]]; [discriminate|].
  destruct (IsDir n) eqn:Hd; [discriminate|].
  destruct (denied _ _); [discriminate|]. intros [= <-]. eauto.
Qed.

Lemma Close_ok (p : string) (w w' : World) :
  Close p w = (None, w') -> w' = pushLog w (CClose p) None.
Proof.
  unfold Close, errOnly, call. destruct (denied _ _); [discriminate|].
  intros [= <-]. now destruct w.
Qed.

Lemma Close_tree (p : string) (w : World) :
  fs (snd (Close p w)) = fs w /\ env (snd (Close p w)) = env w.
Proof.
  unfold Close, errOnly, call. destruct (denied _ _); cbn; auto.
Qed.

Lemma Chtimes_ok (p : string) (t : Time.t) (w w' : World) :
  Chtimes p t w = (None, w') ->
  exists q n,
    follow maxLinks (env w) (fs w) (resolve (env w) p) = inr (q, n) /\
    w' = pushLog (setFs w (<[q := mkNode (kind n) (perm n) t (data n) (dev n)]> (fs w)))
                 (CChtimes p t) None.
Proof.
  unfold Chtimes, errOnly, call. destruct (denied _ _); [discriminate|].
  destruct (follow _ _ _ _) as [e|[q n]]; [discriminate|].
  intros [= <-]. eauto.
Qed.

Lemma Remove_ok (p : string) (w w' : World) :
  Remove p w = (None, w') ->
  w' = pushLog (setFs w (delete (resolve (env w) p) (fs w))) (CRemove p) None.
Proof.
  intros H. destruct (Remove_run p w) as [(e & He)|He]; rewrite He in H;
    [discriminate | now injection H as <-].
Qed.

Lemma Symlink_ok (target p : string) (w w' : World) :
  Symlink target p w = (None, w') ->
  fs w !! resolve (env w) p = None /\
  exists pn,
    parentIsDir (fs w) (resolve (env w) p) = inr pn /\
    w' = pushLog (setFs w (<[resolve (env w) p :=
                               mkNode KSymlink 511 (now (env w)) target (dev pn)]>
                             (fs w)))
                 (CSymlink target p) None.
Proof.
  unfold Symlink, errOnly, call. destruct (denied _ _); [discriminate|].
  cbn zeta. destruct (fs w !! resolve (env w) p); [discriminate|].
  destruct (parentIsDir _ _) as [e|pn]; [discriminate|].
  intros [= <-]. eauto.
Qed.

Lemma Readlink_ok (p link : string) (w w' : World) :
  Readlink p w = (inr link, w') ->
  w' = pushLog w (CReadlink p) None /\
  exists n, fs w !! resolve (env w) p = Some n /\ IsSymlink n = true /\
            link = data n.
Proof.
  unfold Readlink, call. destruct (denied _ _); [discriminate|].
  destruct (fs w !! resolve (env w) p) as [n|]; [|discriminate].
  destruct (IsSymlink n) eqn:Hs; [|discriminate].
  intros [= <- <-]. split; [destruct w; reflexivity | eauto].
Qed.


Lemma run_eq {A} (x : A * World) (a : A) : fst x = a -> x = (a, snd x).
Proof. intros <-. now destruct x. Qed.


(** X16. The copy of a symbolic link across devices, when it
    succeeds: the link is not followed; the destination was free and
    its parent a directory, and afterwards it holds a symbolic link
    with the target of the source, whose modification time is that of
    the copy, not the source's; the source path is gone; nothing else
    has changed. *)
Theorem X16_copyFile_symlink
    (src dst : string) (info : Node) (w w' : World) :
  IsSymlink info = true ->
  copyFileAcrossDevices src dst info w = (None, w') ->
  let qs := resolve (env w) src in
  let qd := resolve (env w) dst in
  exists n pn,
    fs w !! qs = Some n /\ IsSymlink n = true /\
    fs w !! qd = None /\
    parentIsDir (fs w) qd = inr pn /\
    fs w' = delete qs (<[qd := mkNode KSymlink 511 (now (env w)) (data n)
                                      (dev pn)]> (fs w)).
Proof.
  intros Hsym Hrun qs qd. unfold copyFileAcrossDevices in Hrun.
  rewrite Hsym in Hrun. unfold bind in Hrun.
  destruct (Readlink src w) as [l w1] eqn:Hl. destruct l as [err|link];
    [discriminate|].
  apply Readlink_ok in Hl as (-> & n & Hn & Hs & ->).
  destruct (Symlink (data n) dst _) as [r w2] eqn:Hr.
  destruct r as [err|]; [discriminate|].
  apply Symlink_ok in Hr as (Hfree & pn & Hpar & ->).
  cbn [env fs pushLog setFs] in Hfree, Hpar.
  apply Remove_ok in Hrun as ->. cbn [env fs pushLog setFs].
  exists n, pn. auto.
Qed.

Lemma X16_copyFile_symlink_witness :
  exists n pn,
    fs Sample.worldLink !! resolve (env Sample.worldLink) "/mnt/usb/lnk" = Some n /\
    IsSymlink n = true /\
    fs Sample.worldLink
      !! resolve (env Sample.worldLink) "/home/u/.local/share/Trash/files/lnk"
      = None /\
    parentIsDir (fs Sample.worldLink)
      (resolve (env Sample.worldLink) "/home/u/.local/share/Trash/files/lnk")
      = inr pn /\
    fs (snd (copyFileAcrossDevices "/mnt/usb/lnk"
               "/home/u/.local/share/Trash/files/lnk"
               (mkNode KSymlink 511 Sample.clock "dir/y" 2) Sample.worldLink)) =
    delete (resolve (env Sample.worldLink) "/mnt/usb/lnk")
      (<[resolve (env Sample.worldLink) "/home/u/.local/share/Trash/files/lnk" :=
           mkNode KSymlink 511 (now (env Sample.worldLink)) (data n) (dev pn)]>
         (fs Sample.worldLink)).
Proof.
  apply (X16_copyFile_symlink "/mnt/usb/lnk"
           "/home/u/.local/share/Trash/files/lnk"
           (mkNode KSymlink 511 Sample.clock "dir/y" 2) Sample.worldLink).
  - reflexivity.
  - apply run_eq. vm_compute. reflexivity.
Defined.

Lemma OpenExcl_occupied (p : string) (mode : Z) (w : World) (n : Node) :
  fs w !! resolve (env w) p = Some n ->
  exists e, OpenExcl p mode w =
            (Some (PathError (COpenExcl p mode) e),
             pushLog w (COpenExcl p mode) (Some e)).
Proof.
  intros Hq. unfold OpenExcl, errOnly, call.
  destruct (denied _ _) as [e|]; [eauto|]. cbn zeta. rewrite Hq.
  exists EEXIST. cbn. now destruct w.
Qed.

Lemma Symlink_occupied (target p : string) (w : World) (n : Node) :
  fs w !! resolve (env w) p = Some n ->
  exists e, Symlink target p w =
            (Some (PathError (CSymlink target p) e),
             pushLog w (CSymlink target p) (Some e)).
Proof.
  intros Hq. unfold Symlink, errOnly, call.
  destruct (denied _ _) as [e|]; [eauto|]. cbn zeta. rewrite Hq.
  exists EEXIST. cbn. now destruct w.
Qed.

Hint Resolve ReadOnly_Lstat : readonly.

Lemma ReadOnly_Readlink p : ReadOnly (Readlink p).
Proof.
  apply ReadOnly_call. intros w.
  destruct (fs w !! _) as [n|]; [|reflexivity]. now destruct (IsSymlink n).
Qed.

Lemma ReadOnly_Open p : ReadOnly (Open p).
Proof.
  apply ReadOnly_errOnly, ReadOnly_call. intros w.
  now destruct (follow _ _ _ _) as [|[]].
Qed.

Lemma ReadOnly_Close p : ReadOnly (Close p).
Proof. apply ReadOnly_errOnly, ReadOnly_call. intros w. reflexivity. Qed.

(** X17. The copy across devices never overwrites: when something is
    at the destination path, of a regular file or of a symbolic link,
    the copy fails and the tree is left as it was. *)
Theorem X17_copyFile_never_overwrites
    (src dst : string) (info n0 : Node) (w : World) :
  fs w !! resolve (env w) dst = Some n0 ->
  fst (copyFileAcrossDevices src dst info w) <> None /\
  fs (snd (copyFileAcrossDevices src dst info w)) = fs w.
Proof.
  intros Hocc. unfold copyFileAcrossDevices, bind.
  destruct (IsSymlink info).
  - destruct (ReadOnly_Readlink src w) as (l1 & H1).
    destruct (Readlink src w) as [[err|link] w1]; cbn [snd] in H1; subst w1.
    { cbn. split; [discriminate | reflexivity]. }
    destruct (Symlink_occupied link dst (relog w l1) n0 Hocc) as (e & ->).
    cbn. split; [discriminate | reflexivity].
  - destruct (ReadOnly_Open src w) as (l1 & H1).
    destruct (Open src w) as [[err|] w1]; cbn [snd] in H1; subst w1.
    { cbn. split; [discriminate | reflexivity]. }
    destruct (OpenExcl_occupied dst (perm info) (relog w l1) n0 Hocc) as (e & ->).
    destruct (ReadOnly_Close src (pushLog (relog w l1) (COpenExcl dst (perm info)) (Some e)))
      as (l2 & H2).
    destruct (Close src _) as [c w2]. cbn [snd] in H2. subst w2.
    cbn. split; [discriminate | reflexivity].
Qed.

Lemma X17_copyFile_never_overwrites_witness :
  fst (copyFileAcrossDevices "/mnt/usb/x" "/mnt/usb/dir/y" (Sample.file "xx" 2)
         Sample.worldTrashed) <> None /\
  fs (snd (copyFileAcrossDevices "/mnt/usb/x" "/mnt/usb/dir/y"
             (Sample.file "xx" 2) Sample.worldTrashed)) =
  fs Sample.worldTrashed.
Proof.
  apply (X17_copyFile_never_overwrites "/mnt/usb/x" "/mnt/usb/dir/y"
           (Sample.file "xx" 2) (Sample.file "yy" 2) Sample.worldTrashed).
  vm_compute. reflexivity.
Defined.

(** X18. [moveToTrash] begins with the rename, and goes on to copy
    only after the rename has failed with [EXDEV]: when the rename
    succeeds, or fails with another error, it is the one call made,
    and its outcome is what [moveToTrash] returns. *)
Theorem X18_moveToTrash_fallback
    (src dst : string) (info : Node) (w : World) :
  exists r0 rest,
    log (snd (moveToTrash src dst info w)) =
      log w ++ (CRename src dst, r0) :: rest /\
    (r0 <> Some EXDEV ->
     rest = [] /\
     fst (moveToTrash src dst info w) =
       option_map (PathError (CRename src dst)) r0).
Proof.
  unfold moveToTrash, bind, Rename.
  destruct (errOnly_call_run (CRename src dst)
              (fun w0 => renameSem (fs w0) (resolve (env w0) src)
                           (resolve (env w0) dst)) w)
    as (r0 & Hl & _ & _ & _ & Hr).
  destruct (errOnly _ w) as [r w1]. cbn [fst snd] in Hl, Hr. subst r.
  destruct r0 as [e|]; cbn [option_map].
  2:{ cbn [ret fst snd]. exists None, []. split; [exact Hl | auto]. }
  unfold isCrossDeviceError. cbn [errorsIsErrno].
  destruct (decide (e = EXDEV)) as [->|Hne].
  - rewrite bool_decide_eq_true_2 by reflexivity. cbn [negb].
    destruct (IsDir info).
    + destruct (Logs_any_copyDir (depthBound w1) src dst w1) as (l & H & _).
      exists (Some EXDEV), l. split; [|intros Hx; now elim Hx].
      rewrite H, Hl, <- app_assoc. reflexivity.
    + destruct (Logs_any_copyFile src dst info w1) as (l & H & _).
      exists (Some EXDEV), l. split; [|intros Hx; now elim Hx].
      rewrite H, Hl, <- app_assoc. reflexivity.
  - rewrite bool_decide_eq_false_2 by exact Hne. cbn [negb ret fst snd].
    exists (Some e), []. split; [exact Hl | auto].
Qed.

Lemma X18_moveToTrash_fallback_witness :
  exists r0 rest,
    log (snd (moveToTrash "/tmp/a b.txt" "/home/u/.local/share/Trash/files/a"
                (Sample.file "hello" 1) (Sample.world0 Sample.nothingDenied))) =
      log (Sample.world0 Sample.nothingDenied) ++
      (CRename "/tmp/a b.txt" "/home/u/.local/share/Trash/files/a", r0) :: rest /\
    (r0 <> Some EXDEV ->
     rest = [] /\
     fst (moveToTrash "/tmp/a b.txt" "/home/u/.local/share/Trash/files/a"
            (Sample.file "hello" 1) (Sample.world0 Sample.nothingDenied)) =
       option_map
         (PathError (CRename "/tmp/a b.txt" "/home/u/.local/share/Trash/files/a"))
         r0).
Proof.
  exact (X18_moveToTrash_fallback "/tmp/a b.txt"
           "/home/u/.local/share/Trash/files/a" (Sample.file "hello" 1)
           (Sample.world0 Sample.nothingDenied)).
Defined.

End Copying.


(** ** [trash_linux.go] *)

Section Linux.
Import OS Trash TrashLinux Aux2.

Lemma nextFree_spec (d nameOnly ext : string) (fuel : nat) :
  forall (k : nat) (w : World),
    let cand := fun i : nat =>
      Filepath.Join [d; nameOnly +:+ "_" +:+ Time.appendInt (Z.of_nat i) 0 +:+ ext] in
    (exists l, snd (nextFree fuel (Z.of_nat k) d nameOnly ext w) = relog w l) /\
    match fst (nextFree fuel (Z.of_nat k) d nameOnly ext w) with
    | Some dest =>
        exists i, (k <= i < k + fuel)%nat /\ dest = cand i /\
                  lstatAbsent w dest = true /\
                  forall j, (k <= j < i)%nat -> lstatAbsent w (cand j) = false
    | None =>
        forall j, (k <= j < k + fuel)%nat -> lstatAbsent w (cand j) = false
    end.
Proof.
  induction fuel as [|fuel IH]; intros k w cand.
  { cbn. split; [exists (log w); now rewrite relog_log | intros j Hj; lia]. }
  cbn [nextFree]. unfold bind. fold (cand k).
  destruct (Lstat_run (cand k) w) as (r & Hrun). rewrite Hrun.
  destruct (notExist (fst (Lstat (cand k) w))) eqn:Hne.
  - cbn [ret fst snd]. split; [eauto|]. exists k.
    split; [lia|]. split; [reflexivity|]. split; [exact Hne | intros j Hj; lia].
  - replace (Z.of_nat k + 1) with (Z.of_nat (S k)) by lia.
    destruct (IH (S k) (relog w (log w ++ [(CLstat (cand k), r)]))) as ((l & Hl) & Hres).
    split; [exists l; now rewrite Hl, relog_relog|].
    destruct (fst (nextFree fuel _ d nameOnly ext _)) as [dest|].
    + destruct Hres as (i & Hi & Hd & Ha & Hb). exists i.
      split; [lia|]. split; [exact Hd|].
      rewrite lstatAbsent_relog in Ha. split; [exact Ha|].
      intros j Hj. destruct (Nat.eq_dec j k) as [->|Hjk]; [exact Hne|].
      rewrite <- (lstatAbsent_relog w (log w ++ [(CLstat (cand k), r)])).
      apply Hb. lia.
    + intros j Hj. destruct (Nat.eq_dec j k) as [->|Hjk]; [exact Hne|].
      rewrite <- (lstatAbsent_relog w (log w ++ [(CLstat (cand k), r)])).
      apply Hres. lia.
Qed.

(** X19. [uniqueTrashName] returns the first name, among the base
    name and the base name with [_1], [_2], ... before its extension,
    at which [Lstat] reports that nothing exists, and it changes
    nothing. The search has no bound of its own: within a bound of
    [fuel] suffixes it does not end exactly when all the names up to
    that suffix are taken. *)
Theorem X19_uniqueTrashName_first_free
    (fuel : nat) (trashDir origName : string) (w : World) :
  (exists l, snd (uniqueTrashName fuel trashDir origName w) = relog w l) /\
  match fst (uniqueTrashName fuel trashDir origName w) with
  | Some dest =>
      exists i, (i <= fuel)%nat /\
                dest = linuxCandidate trashDir origName i /\
                lstatAbsent w dest = true /\
                forall j, (j < i)%nat ->
                          lstatAbsent w (linuxCandidate trashDir origName j) = false
  | None =>
      forall j, (j <= fuel)%nat ->
                lstatAbsent w (linuxCandidate trashDir origName j) = false
  end.
Proof.
  unfold uniqueTrashName, bind.
  set (base := Filepath.Base origName).
  destruct (Lstat_run (Filepath.Join [trashDir; base]) w) as (r & Hrun).
  rewrite Hrun.
  destruct (notExist (fst (Lstat (Filepath.Join [trashDir; base]) w))) eqn:Hne.
  { cbn [ret fst snd]. split; [eauto|]. exists O.
    split; [lia|]. split; [reflexivity|]. split; [exact Hne | intros j Hj; lia]. }
  destruct (nextFree_spec trashDir (Strings.TrimSuffix base (Filepath.Ext base))
              (Filepath.Ext base) fuel 1
              (relog w (log w ++ [(CLstat (Filepath.Join [trashDir; base]), r)])))
    as ((l & Hl) & Hres).
  change (Z.of_nat 1) with 1 in Hl, Hres.
  split; [exists l; now rewrite Hl, relog_relog|].
  assert (Hcand : forall j, (1 <= j)%nat ->
             linuxCandidate trashDir origName j =
             Filepath.Join
               [trashDir;
                Strings.TrimSuffix base (Filepath.Ext base) +:+ "_" +:+
                Time.appendInt (Z.of_nat j) 0 +:+ Filepath.Ext base]).
  { intros j Hj. destruct j; [lia | reflexivity]. }
  destruct (fst (nextFree fuel 1 trashDir _ _ _)) as [dest|].
  - destruct Hres as (i & Hi & Hd & Ha & Hb). exists i.
    split; [lia|]. split; [now rewrite Hcand by lia|].
    rewrite lstatAbsent_relog in Ha. split; [exact Ha|].
    intros j Hj. destruct j as [|j]; [exact Hne|].
    rewrite Hcand by lia.
    rewrite <- (lstatAbsent_relog w (log w ++ [(CLstat (Filepath.Join [trashDir; base]), r)])).
    apply Hb. lia.
  - intros j Hj. destruct j as [|j]; [exact Hne|].
    rewrite Hcand by lia.
    rewrite <- (lstatAbsent_relog w (log w ++ [(CLstat (Filepath.Join [trashDir; base]), r)])).
    apply Hres. lia.
Qed.

Lemma Create_ok (p : string) (w w' : World) :
  Create p w = (None, w') ->
  env w' = env w /\
  exists n, fs w' = <[resolve (env w) p := n]> (fs w) /\
            kind n = KFile /\ data n = "".
Proof.
  unfold Create, errOnly, call. destruct (denied _ _); [discriminate|].
  unfold createTrunc.
  destruct (fs w !! resolve (env w) p) as [n|].
  - destruct (kind n); try discriminate. intros [= <-]. cbn.
    split; [reflexivity|]. eexists. repeat split.
  - destruct (parentIsDir _ _) as [e|pn]; [discriminate|]. intros [= <-]. cbn.
    split; [reflexivity|]. eexists. repeat split.
Qed.

Lemma WriteString_ok (p s : string) (w w' : World) (n : Node) :
  WriteString p s w = (None, w') ->
  fs w !! resolve (env w) p = Some n ->
  env w' = env w /\
  fs w' = <[resolve (env w) p :=
              mkNode (kind n) (perm n) (mtime n) (data n +:+ s) (dev n)]> (fs w).
Proof.
  unfold WriteString, errOnly, call. destruct (denied _ _); [discriminate|].
  cbn zeta. intros H Hq. rewrite Hq in H. injection H as <-. cbn.
  split; [reflexivity|]. unfold setData. now rewrite Hq.
Qed.

Lemma Abs_env (p : string) (w w' : World) :
  env w' = env w -> Abs p w' = (fst (Abs p w), w').
Proof. intros He. unfold Abs. rewrite He. now destruct (Filepath.IsAbs p). Qed.

(** What a successful [createTrashInfoFile] leaves at the record's
    path. *)
Lemma createTrashInfoFile_ok (trashed orig : string) (w w1 : World) :
  createTrashInfoFile trashed orig w = (None, w1) ->
  env w1 = env w /\
  exists n,
    fs w1 !! resolve (env w) (infoPathOf trashed) = Some n /\
    kind n = KFile /\
    data n = linuxInfoContent (absOf w orig) (now (env w)).
Proof.
  unfold createTrashInfoFile, bind, infoPathOf, absOf.
  set (infoDir := Filepath.Join [Filepath.Dir (Filepath.Dir trashed); "info"]).
  set (infoPath := Filepath.Join [infoDir; Filepath.Base trashed +:+ ".trashinfo"]).
  destruct (MkdirAll infoDir 448 w) as [mk wa] eqn:Hmk.
  destruct mk as [err|]; [discriminate|].
  apply MkdirAll_ok in Hmk as (_ & Ea & _ & _ & _).
  rewrite (Abs_env orig w wa Ea). cbn [timeNow]. rewrite Ea.
  destruct (Create infoPath wa) as [cr wb] eqn:Hcr.
  destruct cr as [err|]; [discriminate|].
  apply Create_ok in Hcr as (Eb & n0 & Hfb & Hk0 & Hd0). rewrite Ea in Eb, Hfb.
  destruct (WriteString infoPath _ wb) as [wr wc] eqn:Hwr.
  pose proof (Close_tree infoPath wc) as (Hct & Hce).
  destruct (Close infoPath wc) as [cl wd]. cbn [snd ret] in Hct, Hce |- *.
  intros [= -> <-].
  apply (WriteString_ok _ _ _ _ n0) in Hwr as (Ec & Hfc);
    [|rewrite Eb, Hfb; apply lookup_insert_eq].
  rewrite Eb in Ec, Hfc.
  split; [congruence|].
  eexists. rewrite Hct, Hfc, lookup_insert_eq. split; [reflexivity|].
  cbn [kind data]. split; [exact Hk0|]. rewrite Hd0. apply app_nil_l.
Qed.

Lemma QueryUnescape_plain (s : string) :
  allBytes plainForQuery s = true -> URL.QueryUnescape s = Some s.
Proof.
  induction s as [|c s IH]; [reflexivity|].
  cbn [allBytes]. intros H. apply andb_true_iff in H as (Hc & Hs).
  unfold plainForQuery in Hc. apply negb_true_iff, orb_false_iff in Hc as (H1 & H2).
  cbn [URL.QueryUnescape]. now rewrite H1, (IH Hs), H2.
Qed.

Lemma Format_zone (t : Time.t) :
  Time.Format t = Time.Format (Time.mk (Time.unixSec t + Time.zoneOffset t) 0 0).
Proof.
  unfold Time.Format. cbn [Time.unixSec Time.zoneOffset].
  now rewrite Z.add_0_r.
Qed.

Lemma parse_linux_record (absOrig : string) (t : Time.t) :
  allBytes notNewline absOrig = true ->
  -62167219200 <= Time.unixSec t + Time.zoneOffset t < 253402300800 ->
  parseContent (linuxInfoContent absOrig t) =
  match URL.QueryUnescape absOrig with
  | Some p =>
      if String.eqb p "" then inl ErrInvalidTrashInfo
      else inr (p, Time.mk (Time.unixSec t + Time.zoneOffset t) 0 0)
  | None => inl ErrInvalidTrashInfo
  end.
Proof.
  intros Hnl Hrange. unfold parseContent.
  change (linuxInfoContent absOrig t) with (record absOrig (Time.Format t)).
  rewrite record_lines by (exact Hnl || apply Format_no_newline).
  cbn [List.length Nat.ltb Nat.leb nth orb negb tail fold_left].
  change (String.eqb "[Trash Info]" "[Trash Info]") with true.
  cbn [negb orb].
  rewrite parseLine_path, parseLine_date, parseLine_empty.
  rewrite Format_zone, Parse_Format by exact Hrange. cbn [fst snd].
  destruct (URL.QueryUnescape absOrig) as [p|]; reflexivity.
Qed.

(** X20. The record of [Put] read by [parseTrashInfo]. The record
    that [createTrashInfoFile] writes holds the absolute path as it
    is, not escaped, and the local date and time. [parseTrashInfo]
    unescapes the path and reads the stamp as UTC: for a path without
    a newline it gives the path unescaped, so a path without [%] and
    [+] comes back as it was, while a plus sign comes back as a blank
    and a stray [%] makes the record invalid; and the deletion date
    it gives is off by the offset of the local zone. *)
Theorem X20_Put_record_read_back
    (trashed orig trashDir : string) (w w1 : World) :
  createTrashInfoFile trashed orig w = (None, w1) ->
  denied (env w) (CReadFile (infoPathOf trashed)) = None ->
  allBytes notNewline (absOf w orig) = true ->
  -62167219200 <= Time.unixSec (now (env w)) + Time.zoneOffset (now (env w))
    < 253402300800 ->
  let stamp := Time.mk (Time.unixSec (now (env w)) +
                        Time.zoneOffset (now (env w))) 0 0 in
  let read := fst (parseTrashInfo (infoPathOf trashed) trashDir w1) in
  match URL.QueryUnescape (absOf w orig) with
  | Some p =>
      if String.eqb p "" then read = inl ErrInvalidTrashInfo
      else exists item, read = inr item /\ OriginalPath item = p /\
                        DeletionDate item = stamp
  | None => read = inl ErrInvalidTrashInfo
  end /\
  (allBytes plainForQuery (absOf w orig) = true ->
   URL.QueryUnescape (absOf w orig) = Some (absOf w orig)).
Proof.
  intros Hrun Hden Hnl Hrange stamp read.
  split; [|apply QueryUnescape_plain].
  destruct (createTrashInfoFile_ok _ _ _ _ Hrun) as (He & n & Hn & Hk & Hd).
  assert (Hread : ReadFile (infoPathOf trashed) w1 =
                  (inr (linuxInfoContent (absOf w orig) (now (env w))),
                   pushLog w1 (CReadFile (infoPathOf trashed)) None)).
  { rewrite <- Hd. apply ReadFile_file; [now rewrite He | now rewrite He | exact Hk]. }
  subst read. unfold parseTrashInfo, bind. rewrite Hread.
  rewrite (parse_linux_record _ _ Hnl Hrange). fold stamp.
  destruct (URL.QueryUnescape (absOf w orig)) as [p|]; [|reflexivity].
  destruct (String.eqb p ""); [reflexivity|].
  cbn [ret fst]. eexists. split; [reflexivity|]. split; reflexivity.
Qed.

End Linux.


Section MorePaths.
Import OS Filepath.

Lemma resolve_bare (e : Env) (b : string) :
  validName b = true -> resolve e b = resolve e "" ++ [b].
Proof.
  intros Hb. rewrite <- (resolve_Join e "" b Hb).
  cbn [Join]. change (String.eqb "" "") with true. cbn iota.
  apply validName_spec in Hb as (H1 & _). apply String.eqb_neq in H1.
  rewrite H1. change (Strings.Join "/" [b]) with b.
  now rewrite resolve_Clean.
Qed.

Lemma resolve_snoc (e : Env) (x n : string) :
  x <> "" -> validName n = true ->
  resolve e (x +:+ String "/" n) = resolve e x ++ [n].
Proof.
  intros Hx Hn. apply validName_spec in Hn as (H1 & H2 & H3 & Hs).
  unfold resolve. rewrite IsAbs_app by exact Hx.
  rewrite splitSep_app by exact Hs. rewrite app_assoc.
  unfold cleanElems. rewrite fold_left_app. cbn [fold_left].
  now rewrite cleanStep_push by assumption.
Qed.

Lemma Join_snoc (l : list string) (n : string) :
  l <> [] ->
  Strings.Join "/" (l ++ [n]) = Strings.Join "/" l +:+ String "/" n.
Proof.
  induction l as [|a l IH]; [congruence|]. intros _.
  destruct l as [|b l]; [reflexivity|].
  change (Strings.Join "/" ((a :: b :: l) ++ [n]))
    with (a +:+ String "/" (Strings.Join "/" ((b :: l) ++ [n]))).
  rewrite IH by discriminate.
  change (Strings.Join "/" (a :: b :: l))
    with (a +:+ String "/" (Strings.Join "/" (b :: l))).
  now rewrite append_assoc, app_cons.
Qed.

Lemma Join_head_nonempty (a : string) (l : list string) :
  a <> "" -> Strings.Join "/" (a :: l) <> "".
Proof.
  intros Ha. destruct a as [|c a]; [congruence|].
  destruct l as [|b l]; [discriminate|].
  change (Strings.Join "/" (String c a :: b :: l))
    with (String c a +:+ String "/" (Strings.Join "/" (b :: l))).
  rewrite app_cons. discriminate.
Qed.

Lemma resolve_joined (e : Env) (a : string) (names : list string) :
  a <> "" -> Forall (fun n => validName n = true) names ->
  resolve e (Strings.Join "/" (a :: names)) = resolve e a ++ names.
Proof.
  intros Ha. induction names as [|n names IH] using rev_ind; intros Hv.
  { now rewrite app_nil_r. }
  apply Forall_app in Hv as (Hv & Hn). inversion Hn as [|? ? Hn' _]; subst.
  change (a :: names ++ [n]) with ((a :: names) ++ [n]).
  rewrite Join_snoc by discriminate.
  rewrite resolve_snoc by (try apply Join_head_nonempty; assumption).
  rewrite IH by exact Hv. now rewrite <- app_assoc.
Qed.

(** Names joined to a directory resolve to the directory's place and
    the names. *)
Lemma resolve_JoinN (e : Env) (a : string) (names : list string) :
  Forall (fun n => validName n = true) names ->
  resolve e (Join (a :: names)) = resolve e a ++ names.
Proof.
  intros Hv. cbn [Join].
  destruct (String.eqb_spec a "") as [->|Ha].
  - destruct names as [|b rest]; [now rewrite app_nil_r|].
    inversion Hv as [|? ? Hb Hrest]; subst.
    cbn [Join]. pose proof Hb as Hb'.
    apply validName_spec in Hb' as (H1 & _).
    apply String.eqb_neq in H1. rewrite H1. apply String.eqb_neq in H1.
    rewrite resolve_Clean, resolve_joined by assumption.
    rewrite (resolve_bare e b Hb). now rewrite <- app_assoc.
  - now rewrite resolve_Clean, resolve_joined.
Qed.

Lemma resolve_Join_last (e : Env) (l : list string) (n : string) :
  validName n = true ->
  exists pre, resolve e (Join (l ++ [n])) = pre ++ [n].
Proof.
  intros Hn. induction l as [|a l IH].
  - exists (resolve e ""). cbn [app Join].
    pose proof Hn as Hn'. apply validName_spec in Hn' as (H1 & _).
    apply String.eqb_neq in H1. rewrite H1.
    change (Strings.Join "/" [n]) with n.
    now rewrite resolve_Clean, resolve_bare.
  - cbn [app Join]. destruct (String.eqb_spec a "") as [->|Ha]; [exact IH|].
    change (a :: l ++ [n]) with ((a :: l) ++ [n]).
    rewrite resolve_Clean, Join_snoc by discriminate.
    rewrite resolve_snoc by (try apply Join_head_nonempty; assumption).
    eauto.
Qed.

Lemma resolve_JoinN_nonempty (e : Env) (a : string) (names : list string) :
  Forall (fun n => validName n = true) names -> names <> [] ->
  resolve e (Join (a :: names)) <> [].
Proof.
  intros Hv Hne. rewrite resolve_JoinN by exact Hv.
  destruct names; [congruence|]. now destruct (resolve e a).
Qed.

End MorePaths.

Section LinuxDirs.
Import OS Trash TrashLinux Aux2.

Hint Resolve ReadOnly_Stat : readonly.

Lemma ReadOnly_Abs p : ReadOnly (Abs p).
Proof.
  intros w. exists (log w). unfold Abs.
  destruct (Filepath.IsAbs p); cbn; now rewrite relog_log.
Qed.

Lemma ReadOnly_climb (fuel : nat) (d : Z) (dir : string) :
  ReadOnly (climb fuel d dir).
Proof. revert dir. induction fuel as [|f IH]; intros dir; cbn [climb]; readonly. Qed.

Hint Resolve ReadOnly_Abs ReadOnly_climb : readonly.

Lemma ReadOnly_findMountPoint p : ReadOnly (findMountPoint p).
Proof. unfold findMountPoint. readonly. Qed.

Lemma X20_Put_record_read_back_witness :
  exists item,
    fst (parseTrashInfo (infoPathOf "/mnt/usb/.Trash-1000/files/a+b")
           "/mnt/usb/.Trash-1000"
           (snd (createTrashInfoFile "/mnt/usb/.Trash-1000/files/a+b"
                   "/tmp/a+b" (Sample.world0 Sample.nothingDenied)))) = inr item /\
    OriginalPath item = "/tmp/a b" /\
    DeletionDate item = Time.mk 1730350800 0 0.
Proof.
  pose proof (X20_Put_record_read_back "/mnt/usb/.Trash-1000/files/a+b" "/tmp/a+b"
                "/mnt/usb/.Trash-1000" (Sample.world0 Sample.nothingDenied)
                (snd (createTrashInfoFile "/mnt/usb/.Trash-1000/files/a+b"
                        "/tmp/a+b" (Sample.world0 Sample.nothingDenied)))) as H.
  destruct H as [H _].
  - apply run_eq. vm_compute. reflexivity.
  - reflexivity.
  - vm_compute. reflexivity.
  - vm_compute. split; [discriminate | reflexivity].
  - assert (Hq : URL.QueryUnescape
                   (absOf (Sample.world0 Sample.nothingDenied) "/tmp/a+b") =
                 Some "/tmp/a b") by (vm_compute; reflexivity).
    rewrite Hq in H. exact H.
Defined.

(** X21. [xdgTrashDir], when it succeeds, returns the [files]
    directory of [.Trash-<uid>] on the mount point of the file, or,
    only when that one could not be made, the [files] directory of
    the trash in the home of the current user; the directory returned
    leads to a directory afterwards, and nothing that was in the tree
    is removed or changed. *)
Theorem X21_xdgTrashDir_result (filename d : string) (w w1 : World) :
  xdgTrashDir filename w = (inr d, w1) ->
  exists mountPoint,
    fst (findMountPoint filename w) = inr mountPoint /\
    let own :=
      Filepath.Join [mountPoint;
                     ".Trash-" +:+ Time.appendInt (getuid (env w)) 0; "files"] in
    (d = own \/
     (fst (MkdirAll own 448 (snd (findMountPoint filename w))) <> None /\
      exists usr, currentUser (env w) = Some usr /\
                  d = Filepath.Join [snd usr; ".local"; "share"; "Trash"; "files"])) /\
    leadsToDir (env w) (fs w1) d /\
    fs w ⊆ fs w1.
Proof.
  unfold xdgTrashDir, bind.
  destruct (ReadOnly_findMountPoint filename w) as (l0 & H0).
  destruct (findMountPoint filename w) as [[err|mp] wa]; [discriminate|].
  cbn [snd fst] in H0 |- *. subst wa. cbn [Getuid env relog].
  set (own := Filepath.Join [mp; ".Trash-" +:+ Time.appendInt (getuid (env w)) 0; "files"]).
  destruct (MkdirAll own 448 (relog w l0)) as [mk wb] eqn:Hmk.
  destruct mk as [err|].
  - unfold userCurrent.
    assert (Eb : env wb = env w).
    { destruct (Logs_qm_MkdirAll own 448 (relog w l0)) as (? & _ & _ & E).
      now rewrite Hmk in E. }
    assert (Sb : fs w ⊆ fs wb).
    { clear -Hmk. unfold MkdirAll, errOnly, call in Hmk.
      destruct (denied _ _); [now injection Hmk as _ <-|].
      destruct (mkdirAllFrom _ _ _ _ _ _) as [[e|[]] m] eqn:Hm; [|discriminate].
      injection Hmk as _ <-. cbn.
      intros k. destruct (fs w !! k) as [n|] eqn:Hk; cbn.
      - pose proof (mkdirAllFrom_keeps (env (relog w l0)) 448
                      (resolve (env (relog w l0)) own) (fs w) []
                      (rootDev (fs w)) k n Hk) as H.
        cbn [fs relog] in Hm. rewrite Hm in H. cbn in H. now rewrite H.
      - now destruct (m !! k). }
    rewrite Eb. destruct (currentUser (env w)) as [usr|] eqn:Hu; [|discriminate].
    destruct (MkdirAll _ 448 wb) as [mk2 wc] eqn:Hmk2.
    destruct mk2 as [err2|]; [discriminate|]. intros [= <- <-].
    apply MkdirAll_ok in Hmk2 as (_ & _ & _ & Sc & Dc). rewrite Eb in Dc.
    exists mp. split; [reflexivity|]. split; [|split].
    + right. split; [|eauto]. unfold own in Hmk. rewrite Hmk. discriminate.
    + apply Dc. destruct (resolve_Join_last (env w)
                            [snd usr; ".local"; "share"; "Trash"] "files" eq_refl)
        as (pre & Hpre).
      cbn [app] in Hpre. rewrite Hpre. now destruct pre.
    + etransitivity; eassumption.
  - intros [= <- <-].
    apply MkdirAll_ok in Hmk as (_ & _ & _ & Sb & Db). cbn [env fs relog] in Sb, Db.
    exists mp. split; [reflexivity|]. split; [now left|]. split; [|exact Sb].
    apply Db. subst own.
    destruct (resolve_Join_last (env w)
                [mp; ".Trash-" +:+ Time.appendInt (getuid (env w)) 0] "files" eq_refl)
      as (pre & Hpre).
    cbn [app] in Hpre. rewrite Hpre. now destruct pre.
Qed.

Lemma X21_xdgTrashDir_result_witness :
  fst (xdgTrashDir "/mnt/usb/x" (Sample.world0 Sample.nothingDenied)) =
    inr "/mnt/usb/.Trash-1000/files" /\
  leadsToDir (env (Sample.world0 Sample.nothingDenied))
    (fs (snd (xdgTrashDir "/mnt/usb/x" (Sample.world0 Sample.nothingDenied))))
    "/mnt/usb/.Trash-1000/files".
Proof.
  assert (H : xdgTrashDir "/mnt/usb/x" (Sample.world0 Sample.nothingDenied) =
              (inr "/mnt/usb/.Trash-1000/files",
               snd (xdgTrashDir "/mnt/usb/x" (Sample.world0 Sample.nothingDenied))))
    by (apply run_eq; vm_compute; reflexivity).
  split; [now rewrite H|].
  destruct (X21_xdgTrashDir_result _ _ _ _ H) as (mp & _ & _ & Hl & _).
  exact Hl.
Defined.

(** X22. [Put] of a path at which [Stat] finds nothing, or is
    refused, or which is a symbolic link that leads nowhere: that
    [Stat] is the one call made, the tree is left as it was, and
    [Put] returns no path and the error of the call, under "trash:
    cannot trash non-existent file". *)
Theorem X22_Put_missing_path (fuel : nat) (path : string) (w : World) (err : error) :
  fst (Stat path w) = inl err ->
  exists r,
    Put fuel path w =
      (Some ("", Some (Printf "trash: cannot trash non-existent file" err)),
       relog w (log w ++ [(CStat path, Some r)])) /\
    err = PathError (CStat path) r.
Proof.
  intros Hst. unfold Put, bind.
  destruct (Stat_run path w) as (r & Hrun & Hr).
  destruct (call_run (CStat path)
              (fun w0 => match follow maxLinks (env w0) (fs w0)
                                 (resolve (env w0) path) with
                         | inr (_, n) => (inr n, fs w0)
                         | inl e => (inl e, fs w0)
                         end) w) as (r' & Hlog & _ & _ & _ & Hres).
  fold (Stat path) in Hlog, Hres.
  rewrite Hrun in Hlog. cbn [snd relog log] in Hlog.
  apply app_inv_head in Hlog. injection Hlog as ->.
  rewrite Hst in Hres. destruct r' as [e|]; [|contradiction].
  rewrite Hrun, Hst. cbn [ret]. exists e. now split.
Qed.

Lemma X22_Put_missing_path_witness :
  exists r,
    Put 3 "/mnt/usb/broken" Sample.worldBroken =
      (Some ("", Some (Printf "trash: cannot trash non-existent file"
                         (PathError (CStat "/mnt/usb/broken") ENOENT))),
       relog Sample.worldBroken
         (log Sample.worldBroken ++ [(CStat "/mnt/usb/broken", Some r)])) /\
    PathError (CStat "/mnt/usb/broken") ENOENT =
    PathError (CStat "/mnt/usb/broken") r.
Proof.
  apply (X22_Put_missing_path 3 "/mnt/usb/broken" Sample.worldBroken).
  vm_compute. reflexivity.
Defined.

End LinuxDirs.

